(** * A shallow embedding of [src/review_cache.py]

    The review cache maps [(provider, model, fingerprint of a diff set)] to the
    JSON text of a review result, in one SQLite table.  This file embeds the
    module function by function, together with the parts of the Python
    run-time it calls ([str], [hashlib.sha256], [json], [sqlite3], [os]), and
    proves the properties the specification states about it. *)

From Stdlib Require Import NArith ZArith List String Ascii Lia Bool.
From Stdlib Require Import DecimalString DecimalN DecimalZ.
From stdpp Require Import base option list gmap countable numbers.

Local Open Scope N_scope.

(** ** Python values *)

Module Py.

(** A Python [str] is the sequence of its code points.  A [str] can hold a
    surrogate (a code point from D800 to DFFF) on its own; the other code
    points are the Unicode scalar values ([scalar_value]), and a [str] of
    scalar values is text. *)
Abbreviation codepoint := N (only parsing).
Abbreviation pystr := (list N) (only parsing).

(** The characters the module and [json] name, by their code points. *)
Abbreviation ch_backspace := 8%N (only parsing).
Abbreviation ch_tab := 9%N (only parsing).
Abbreviation ch_newline := 10%N (only parsing).
Abbreviation ch_formfeed := 12%N (only parsing).
Abbreviation ch_return := 13%N (only parsing).
Abbreviation ch_space := 32%N (only parsing).
Abbreviation ch_quote := 34%N (only parsing).
Abbreviation ch_plus := 43%N (only parsing).
Abbreviation ch_comma := 44%N (only parsing).
Abbreviation ch_minus := 45%N (only parsing).
Abbreviation ch_point := 46%N (only parsing).
Abbreviation ch_slash := 47%N (only parsing).
Abbreviation ch_zero := 48%N (only parsing).
Abbreviation ch_nine := 57%N (only parsing).
Abbreviation ch_colon := 58%N (only parsing).
Abbreviation ch_D := 68%N (only parsing).
Abbreviation ch_E := 69%N (only parsing).
Abbreviation ch_I := 73%N (only parsing).
Abbreviation ch_N := 78%N (only parsing).
Abbreviation ch_R := 82%N (only parsing).
Abbreviation ch_open_bracket := 91%N (only parsing).
Abbreviation ch_backslash := 92%N (only parsing).
Abbreviation ch_close_bracket := 93%N (only parsing).
Abbreviation ch_b := 98%N (only parsing).
Abbreviation ch_e := 101%N (only parsing).
Abbreviation ch_f := 102%N (only parsing).
Abbreviation ch_n := 110%N (only parsing).
Abbreviation ch_r := 114%N (only parsing).
Abbreviation ch_t := 116%N (only parsing).
Abbreviation ch_u := 117%N (only parsing).
Abbreviation ch_open_brace := 123%N (only parsing).
Abbreviation ch_close_brace := 125%N (only parsing).
Abbreviation ch_tilde := 126%N (only parsing).

(** A literal of the source, written in ASCII. *)
Definition lit (s : string) : pystr :=
  List.map N_of_ascii (list_ascii_of_string s).

Definition scalar_value (c : codepoint) : bool :=
  (c <? 0xD800) || ((0xDFFF <? c) && (c <? 0x110000)).

(** The exceptions the module can meet; every one of them is a subclass of
    [Exception], so [except Exception] handles them all. *)
Inductive exn : Type :=
  | OSError
  | SqliteError
  | JSONDecodeError
  | TypeError
  | ValueError
  | UnicodeEncodeError
  | RecursionError
  | UnboundLocalError.

(** What evaluating an expression gives: a value, or a raised exception. *)
Inductive outcome (A : Type) : Type :=
  | Ret (a : A)
  | Raise (e : exn).
Arguments Ret {A} a.
Arguments Raise {A} e.

Definition bind {A B : Type} (m : outcome A) (k : A -> outcome B) : outcome B :=
  match m with
  | Ret a => k a
  | Raise e => Raise e
  end.

(** A [float].  A finite one is carried as a decimal literal that denotes it:
    the one [float.__repr__] prints for a float the program computed (it
    identifies the float, [float(repr(x)) == x]), the text matched for a float
    [json.loads] read. *)
Inductive pyfloat : Type :=
  | Finite (d : Decimal.decimal)
  | Infinity (negative : bool)
  | NaN.

(** The objects the cache handles.  A [dict] keeps its items in insertion
    order; [PBytes] stands for the objects [json] cannot serialise. *)
#[warnings="-register-all"]
Inductive pyval : Type :=
  | PNone
  | PBool (b : bool)
  | PInt (z : Z)
  | PFloat (f : pyfloat)
  | PStr (s : pystr)
  | PList (items : list pyval)
  | PDict (items : list (pystr * pyval))
  | PBytes (bs : list N).

(** [sep.join(lines)] *)
Fixpoint join (sep : pystr) (lines : list pystr) : pystr :=
  match lines with
  | [] => []
  | [l] => l
  | l :: rest => l ++ sep ++ join sep rest
  end.

(** [x or ""] for an optional string: [None] and [""] are both falsy. *)
Definition or_empty (x : option pystr) : pystr :=
  match x with
  | Some (c :: s) => c :: s
  | _ => []
  end.

(** Truth value of an optional flag, as [if change.get(k)] tests it. *)
Definition truthy (x : option bool) : bool :=
  match x with
  | Some true => true
  | _ => false
  end.

(** [str.isspace] on one character *)
Definition isspace (c : codepoint) : bool :=
  ((9 <=? c) && (c <=? 13)) || ((28 <=? c) && (c <=? 32))
  || (c =? 0x85) || (c =? 0xA0) || (c =? 0x1680)
  || ((0x2000 <=? c) && (c <=? 0x200A))
  || (c =? 0x2028) || (c =? 0x2029) || (c =? 0x202F) || (c =? 0x205F)
  || (c =? 0x3000).

Fixpoint lstrip (drop : codepoint -> bool) (s : pystr) : pystr :=
  match s with
  | c :: r => if drop c then lstrip drop r else s
  | [] => []
  end.

Definition rstrip (drop : codepoint -> bool) (s : pystr) : pystr :=
  rev (lstrip drop (rev s)).

(** [s.strip()] *)
Definition strip (s : pystr) : pystr := rstrip isspace (lstrip isspace s).

(** [p[:p.rfind("/") + 1]] *)
Fixpoint upto_last_sep (p : pystr) : pystr :=
  match p with
  | [] => []
  | c :: r =>
    match upto_last_sep r with
    | [] => if c =? ch_slash then [c] else []
    | h => c :: h
    end
  end.

(** [os.path.dirname] of [posixpath] *)
Definition dirname (p : pystr) : pystr :=
  let head := upto_last_sep p in
  if forallb (N.eqb ch_slash) head then head else rstrip (N.eqb ch_slash) head.

End Py.
Import Py.

(** ** [str.encode("utf-8")] *)

Module Utf8.

Definition encode_codepoint (c : codepoint) : list N :=
  if c <? 0x80 then [c]
  else if c <? 0x800 then [0xC0 + c / 64; 0x80 + c mod 64]
  else if c <? 0x10000 then
    [0xE0 + c / 4096; 0x80 + (c / 64) mod 64; 0x80 + c mod 64]
  else
    [0xF0 + c / 262144; 0x80 + (c / 4096) mod 64; 0x80 + (c / 64) mod 64;
     0x80 + c mod 64].

(** The bytes of a text. *)
Definition bytes_of (s : pystr) : list N := flat_map encode_codepoint s.

(** [s.encode("utf-8")]: a surrogate has no encoding, and the call raises on
    a [str] that holds one. *)
Definition encode (s : pystr) : outcome (list N) :=
  if forallb scalar_value s then Ret (bytes_of s) else Raise UnicodeEncodeError.

(** The decoder, used to show that the encoding loses nothing. *)
Fixpoint decode (bs : list N) : pystr :=
  match bs with
  | [] => []
  | b0 :: r0 =>
    if b0 <? 0xC0 then b0 :: decode r0
    else match r0 with
    | [] => []
    | b1 :: r1 =>
      if b0 <? 0xE0 then ((b0 - 0xC0) * 64 + (b1 - 0x80)) :: decode r1
      else match r1 with
      | [] => []
      | b2 :: r2 =>
        if b0 <? 0xF0 then
          ((b0 - 0xE0) * 4096 + (b1 - 0x80) * 64 + (b2 - 0x80)) :: decode r2
        else match r2 with
        | [] => []
        | b3 :: r3 =>
          ((b0 - 0xF0) * 262144 + (b1 - 0x80) * 4096 + (b2 - 0x80) * 64
           + (b3 - 0x80)) :: decode r3
        end
      end
    end
  end.

End Utf8.

(** ** [hashlib.sha256] *)

Module Sha256.

Definition word := N.

Definition mask32 (x : N) : word := x mod 0x100000000.
Definition add32 (a b : word) : word := mask32 (a + b).
Definition rotr (n : N) (x : word) : word :=
  N.lor (N.shiftr x n) (mask32 (N.shiftl x (32 - n))).
Definition not32 (x : word) : word := 0xFFFFFFFF - x.

Definition Ch (x y z : word) : word := N.lxor (N.land x y) (N.land (not32 x) z).
Definition Maj (x y z : word) : word :=
  N.lxor (N.lxor (N.land x y) (N.land x z)) (N.land y z).
Definition Sigma0 (x : word) : word := N.lxor (N.lxor (rotr 2 x) (rotr 13 x)) (rotr 22 x).
Definition Sigma1 (x : word) : word := N.lxor (N.lxor (rotr 6 x) (rotr 11 x)) (rotr 25 x).
Definition sigma0 (x : word) : word := N.lxor (N.lxor (rotr 7 x) (rotr 18 x)) (N.shiftr x 3).
Definition sigma1 (x : word) : word := N.lxor (N.lxor (rotr 17 x) (rotr 19 x)) (N.shiftr x 10).

(** The constants of the algorithm are the first 32 bits of the fractional
    parts of the square roots (for the initial chaining value) and of the cube
    roots (for the round constants) of the first primes. *)
Definition primes : list N :=
  [2; 3; 5; 7; 11; 13; 17; 19; 23; 29; 31; 37; 41; 43; 47; 53;
   59; 61; 67; 71; 73; 79; 83; 89; 97; 101; 103; 107; 109; 113; 127; 131;
   137; 139; 149; 151; 157; 163; 167; 173; 179; 181; 191; 193; 197; 199; 211; 223;
   227; 229; 233; 239; 241; 251; 257; 263; 269; 271; 277; 281; 283; 293; 307; 311].

(** The largest [r] below [2 ^ bits] with [r ^ e <= n], from the top bit
    down. *)
Fixpoint root (e n : N) (bits : nat) (r : N) : N :=
  match bits with
  | O => r
  | S b =>
    let r' := r + 2 ^ N.of_nat b in
    root e n b (if r' ^ e <=? n then r' else r)
  end.

Definition fractional_root (e p : N) : word :=
  mask32 (root e (p * 2 ^ (32 * e)) 36 0).

Definition K : list word := Eval vm_compute in List.map (fractional_root 3) primes.

(** The eight chaining words. *)
Record chain : Type := Chain {
  ha : word; hb : word; hc : word; hd : word;
  he : word; hf : word; hg : word; hh : word
}.

Definition H0 : chain :=
  Eval vm_compute in
    Chain (fractional_root 2 2) (fractional_root 2 3) (fractional_root 2 5)
          (fractional_root 2 7) (fractional_root 2 11) (fractional_root 2 13)
          (fractional_root 2 17) (fractional_root 2 19).

(** Big-endian words of a 64-byte block. *)
Fixpoint words_of_bytes (bs : list N) : list word :=
  match bs with
  | b0 :: b1 :: b2 :: b3 :: rest =>
    (b0 * 0x1000000 + b1 * 0x10000 + b2 * 0x100 + b3) :: words_of_bytes rest
  | _ => []
  end.

(** The message schedule, newest word first: [w] holds W[t-1], W[t-2], ... *)
Fixpoint schedule (n : nat) (w : list word) : list word :=
  match n with
  | O => w
  | S n' =>
    let wt := add32 (add32 (sigma1 (nth 1 w 0)) (nth 6 w 0))
                    (add32 (sigma0 (nth 14 w 0)) (nth 15 w 0)) in
    schedule n' (wt :: w)
  end.

Definition round (s : chain) (kw : word * word) : chain :=
  let t1 := add32 (add32 (add32 (hh s) (Sigma1 (he s))) (Ch (he s) (hf s) (hg s)))
                  (add32 (fst kw) (snd kw)) in
  let t2 := add32 (Sigma0 (ha s)) (Maj (ha s) (hb s) (hc s)) in
  Chain (add32 t1 t2) (ha s) (hb s) (hc s) (add32 (hd s) t1) (he s) (hf s) (hg s).

Definition compress (h : chain) (block : list N) : chain :=
  let w := rev (schedule 48 (rev (words_of_bytes block))) in
  let s := fold_left round (combine K w) h in
  Chain (add32 (ha h) (ha s)) (add32 (hb h) (hb s)) (add32 (hc h) (hc s))
        (add32 (hd h) (hd s)) (add32 (he h) (he s)) (add32 (hf h) (hf s))
        (add32 (hg h) (hg s)) (add32 (hh h) (hh s)).

(** The accumulator [hashlib.sha256()] returns: the chaining value, the bytes
    of the block being filled, and the number of bytes fed so far. *)
Record hasher : Type := Hasher {
  state : chain;
  pending : list N;
  fed : N
}.

Definition new : hasher := Hasher H0 [] 0.

Definition update_byte (h : hasher) (b : N) : hasher :=
  let buf := pending h ++ [b] in
  if (length buf =? 64)%nat
  then Hasher (compress (state h) buf) [] (fed h + 1)
  else Hasher (state h) buf (fed h + 1).

(** [hasher.update(data)] *)
Definition update (h : hasher) (data : list N) : hasher :=
  fold_left update_byte data h.

Definition be_bytes (n : nat) (x : N) : list N :=
  List.map (fun i => (x / 256 ^ N.of_nat i) mod 256) (rev (seq 0 n)).

Definition padding (h : hasher) : list N :=
  let used := length (pending h) in
  let zeros := if (used <=? 55)%nat then (55 - used)%nat else (119 - used)%nat in
  [0x80] ++ repeat 0 zeros ++ be_bytes 8 (8 * fed h).

(** [hasher.digest()]: the 32 bytes of the chaining value after padding. *)
Definition digest (h : hasher) : list N :=
  let s := state (update h (padding h)) in
  flat_map (be_bytes 4) [ha s; hb s; hc s; hd s; he s; hf s; hg s; hh s].

(** The hexadecimal digit of [d < 16] in lower case: [0] to [9] are the code
    points from 48, [a] to [f] those from 97. *)
Definition hex_digit (d : N) : codepoint :=
  if d <? 10 then ch_zero + d else 87 + d.

Definition hex_byte (b : N) : pystr := [hex_digit (b / 16); hex_digit (b mod 16)].

(** [hasher.hexdigest()] *)
Definition hexdigest (h : hasher) : pystr := flat_map hex_byte (digest h).

End Sha256.


(** ** [json.dumps] and [json.loads] *)

Module Json.

Notation "'let*' x := m 'in' k" := (bind m (fun x => k))
  (at level 10, x name, m at level 200, k at level 200, only parsing).
Notation "'let*' ' p := m 'in' k" := (bind m (fun x => let 'p := x in k))
  (at level 10, p pattern, m at level 200, k at level 200, only parsing).

(** *** Numbers *)

(** The digits [0] to [9] are the code points 48 to 57. *)
Fixpoint print_uint (d : Decimal.uint) : pystr :=
  match d with
  | Decimal.Nil => []
  | Decimal.D0 d' => 48 :: print_uint d'
  | Decimal.D1 d' => 49 :: print_uint d'
  | Decimal.D2 d' => 50 :: print_uint d'
  | Decimal.D3 d' => 51 :: print_uint d'
  | Decimal.D4 d' => 52 :: print_uint d'
  | Decimal.D5 d' => 53 :: print_uint d'
  | Decimal.D6 d' => 54 :: print_uint d'
  | Decimal.D7 d' => 55 :: print_uint d'
  | Decimal.D8 d' => 56 :: print_uint d'
  | Decimal.D9 d' => 57 :: print_uint d'
  end.

Definition print_int (i : Decimal.int) : pystr :=
  match i with
  | Decimal.Pos d => print_uint d
  | Decimal.Neg d => ch_minus :: print_uint d
  end.

Definition digits_of (i : Decimal.int) : Decimal.uint :=
  match i with
  | Decimal.Pos u => u
  | Decimal.Neg u => u
  end.

(** What the interpreter allows [json] during a call: the number of nested
    lists and dictionaries that can be entered before the recursion limit is
    reached (it depends on the limit and on the depth of the call), and
    [sys.get_int_max_str_digits()], the most digits the decimal form of an
    [int] can have when it is written or read, 0 standing for no limit (a
    limit that is set is at least 640). *)
Record limits : Type := Limits {
  recursion_room : nat;
  int_max_str_digits : nat
}.

(** The settings CPython starts with; a call from near the top level has
    about a thousand levels left. *)
Definition default_limits : limits := Limits 1000 4300.

Definition too_many_digits (l : limits) (digits : nat) : bool :=
  (0 <? int_max_str_digits l)%nat && (int_max_str_digits l <? digits)%nat.

(** [int.__repr__]: it raises [ValueError] above the limit on digits. *)
Definition int_repr (l : limits) (z : Z) : outcome pystr :=
  if too_many_digits l (length (print_uint (digits_of (Z.to_int z))))
  then Raise ValueError
  else Ret (print_int (Z.to_int z)).

(** The largest finite float is 2^1024 - 2^971.  A decimal literal is read as
    the nearest float, and as an infinity when its magnitude is half-way from
    the largest float to 2^1024 or more. *)
Definition float_bound : N := 2 ^ 1024 - 2 ^ 970.

Definition overflows (d : Decimal.decimal) : bool :=
  let '(i, frac, e) := match d with
                       | Decimal.Decimal i frac => (i, frac, 0%Z)
                       | Decimal.DecimalExp i frac e => (i, frac, Z.of_int e)
                       end in
  let mantissa := N.of_uint (Decimal.app (digits_of i) frac) in
  let scale := (e - Z.of_nat (Decimal.nb_digits frac))%Z in
  if (0 <=? scale)%Z
  then float_bound <=? mantissa * 10 ^ Z.to_N scale
  else float_bound * 10 ^ Z.to_N (- scale) <=? mantissa.

Definition minus_sign (d : Decimal.decimal) : bool :=
  match d with
  | Decimal.Decimal (Decimal.Neg _) _ | Decimal.DecimalExp (Decimal.Neg _) _ _ => true
  | _ => false
  end.

(** [float(text)] for the text of a decimal literal. *)
Definition float_of_literal (d : Decimal.decimal) : pyfloat :=
  if overflows d then Infinity (minus_sign d) else Finite d.

(** [float.__repr__], with the names [json] gives the three floats that are
    not finite. *)
Definition float_repr (f : pyfloat) : pystr :=
  match f with
  | Finite (Decimal.Decimal i Decimal.Nil) => print_int i
  | Finite (Decimal.Decimal i frac) => print_int i ++ ch_point :: print_uint frac
  | Finite (Decimal.DecimalExp i frac e) =>
    print_int i
    ++ match frac with Decimal.Nil => [] | _ => ch_point :: print_uint frac end
    ++ ch_e :: match e with
              | Decimal.Pos d => ch_plus :: print_uint d
              | Decimal.Neg d => ch_minus :: print_uint d
              end
  | Infinity false => lit "Infinity"
  | Infinity true => lit "-Infinity"
  | NaN => lit "NaN"
  end.

Definition digit_char (c : codepoint) : bool := (ch_zero <=? c) && (c <=? ch_nine).

Definition push_digit (c : codepoint) (d : Decimal.uint) : Decimal.uint :=
  if c =? 48 then Decimal.D0 d
  else if c =? 49 then Decimal.D1 d
  else if c =? 50 then Decimal.D2 d
  else if c =? 51 then Decimal.D3 d
  else if c =? 52 then Decimal.D4 d
  else if c =? 53 then Decimal.D5 d
  else if c =? 54 then Decimal.D6 d
  else if c =? 55 then Decimal.D7 d
  else if c =? 56 then Decimal.D8 d
  else Decimal.D9 d.

Fixpoint uint_of_digits (s : pystr) : Decimal.uint :=
  match s with
  | [] => Decimal.Nil
  | c :: r => push_digit c (uint_of_digits r)
  end.

(** The longest run of digits at the head of [s], and what follows it. *)
Fixpoint span_digits (s : pystr) : pystr * pystr :=
  match s with
  | [] => ([], [])
  | c :: r =>
    if digit_char c
    then let '(ds, rest) := span_digits r in (c :: ds, rest)
    else ([], s)
  end.

Definition signed (negative : bool) (d : Decimal.uint) : Decimal.int :=
  if negative then Decimal.Neg d else Decimal.Pos d.

(** The scanner matches a number in four parts: an optional minus sign; a
    single 0 or a run of digits that starts with a non-zero one; optionally a
    point with digits after it; optionally an exponent ([e] or [E], an
    optional sign, digits).  A part that is optional and does not match
    leaves the text where it is. *)
Definition scan_sign (s : pystr) : bool * pystr :=
  match s with
  | c :: r => if c =? ch_minus then (true, r) else (false, s)
  | [] => (false, s)
  end.

Definition scan_integer (s : pystr) : option (pystr * pystr) :=
  match s with
  | [] => None
  | c :: r =>
    if c =? ch_zero then Some ([c], r)
    else if digit_char c then let '(ds, rest) := span_digits r in Some (c :: ds, rest)
    else None
  end.

Definition scan_fraction (s : pystr) : pystr * pystr :=
  match s with
  | c :: r =>
    if c =? ch_point then
      match span_digits r with
      | ([], _) => ([], s)
      | (fs, rest) => (fs, rest)
      end
    else ([], s)
  | [] => ([], s)
  end.

Definition scan_exponent (s : pystr) : option Decimal.int * pystr :=
  match s with
  | c :: r =>
    if (c =? ch_e) || (c =? ch_E) then
      let '(negative, r1) :=
        match r with
        | sg :: t => if sg =? ch_minus then (true, t)
                     else if sg =? ch_plus then (false, t) else (false, r)
        | [] => (false, r)
        end in
      match span_digits r1 with
      | ([], _) => (None, s)
      | (es, rest) => (Some (signed negative (uint_of_digits es)), rest)
      end
    else (None, s)
  | [] => (None, s)
  end.

(** The number at the head of [s], if one is there: an [int] when neither
    fraction nor exponent is there ([int(text)], which raises [ValueError]
    above the limit on digits), a [float] otherwise ([float(text)]). *)
Definition match_number (l : limits) (s : pystr) : option (outcome pyval * pystr) :=
  let '(negative, s1) := scan_sign s in
  match scan_integer s1 with
  | None => None
  | Some (ds, rest) =>
    let '(frac, rest1) := scan_fraction rest in
    let '(exponent, rest2) := scan_exponent rest1 in
    let i := signed negative (uint_of_digits ds) in
    match frac, exponent with
    | [], None =>
      Some (if too_many_digits l (length ds) then Raise ValueError
            else Ret (PInt (Z.of_int i)), rest2)
    | _, None =>
      Some (Ret (PFloat (float_of_literal (Decimal.Decimal i (uint_of_digits frac)))),
            rest2)
    | _, Some e =>
      Some (Ret (PFloat (float_of_literal
                           (Decimal.DecimalExp i (uint_of_digits frac) e))), rest2)
    end
  end.

(** *** Strings *)

Definition hex4 (n : N) : pystr :=
  [Sha256.hex_digit (n / 4096); Sha256.hex_digit ((n / 256) mod 16);
   Sha256.hex_digit ((n / 16) mod 16); Sha256.hex_digit (n mod 16)].

(** What [ensure_ascii] writes for one code point: the short escapes, the
    printable ASCII characters as they are, and [\uXXXX] for the rest, as a
    surrogate pair above the basic plane. *)
Definition escape_codepoint (c : codepoint) : pystr :=
  if c =? ch_quote then [ch_backslash; ch_quote]
  else if c =? ch_backslash then [ch_backslash; ch_backslash]
  else if (ch_space <=? c) && (c <=? ch_tilde) then [c]
  else if c =? ch_backspace then [ch_backslash; ch_b]
  else if c =? ch_formfeed then [ch_backslash; ch_f]
  else if c =? ch_newline then [ch_backslash; ch_n]
  else if c =? ch_return then [ch_backslash; ch_r]
  else if c =? ch_tab then [ch_backslash; ch_t]
  else if c <? 0x10000 then ch_backslash :: ch_u :: hex4 c
  else
    let n := c - 0x10000 in
    ch_backslash :: ch_u :: hex4 (0xD800 + (n / 1024) mod 1024)
    ++ ch_backslash :: ch_u :: hex4 (0xDC00 + n mod 1024).

Definition encode_basestring_ascii (s : pystr) : pystr :=
  ch_quote :: flat_map escape_codepoint s ++ [ch_quote].

(** The value of a hexadecimal digit, in either case. *)
Definition hex_value (c : codepoint) : option N :=
  if (ch_zero <=? c) && (c <=? ch_nine) then Some (c - ch_zero)
  else if (97 <=? c) && (c <=? 102) then Some (c - 87)
  else if (65 <=? c) && (c <=? 70) then Some (c - 55)
  else None.

Definition hex4_value (a b c d : codepoint) : option N :=
  match hex_value a, hex_value b, hex_value c, hex_value d with
  | Some x, Some y, Some z, Some w => Some (x * 4096 + y * 256 + z * 16 + w)
  | _, _, _, _ => None
  end.

(** The character a one-letter escape stands for. *)
Definition unescape (c : codepoint) : option codepoint :=
  if c =? ch_quote then Some ch_quote
  else if c =? ch_backslash then Some ch_backslash
  else if c =? ch_slash then Some ch_slash
  else if c =? ch_b then Some ch_backspace
  else if c =? ch_f then Some ch_formfeed
  else if c =? ch_n then Some ch_newline
  else if c =? ch_r then Some ch_return
  else if c =? ch_t then Some ch_tab
  else None.

Definition high_surrogate (c : N) : bool := (0xD800 <=? c) && (c <=? 0xDBFF).
Definition low_surrogate (c : N) : bool := (0xDC00 <=? c) && (c <=? 0xDFFF).

Definition cons_char (c : codepoint) (r : outcome (pystr * pystr)) : outcome (pystr * pystr) :=
  let* '(str, rest) := r in Ret (c :: str, rest).

(** The string whose opening quote has been read: its characters up to the
    closing quote, and what follows the quote. *)
Fixpoint scanstring (s : pystr) : outcome (pystr * pystr) :=
  match s with
  | [] => Raise JSONDecodeError
  | c :: r =>
    if c =? ch_quote then Ret ([], r)
    else if c =? ch_backslash then
      match r with
      | [] => Raise JSONDecodeError
      | e :: r1 =>
        if e =? ch_u then
          match r1 with
          | h1 :: h2 :: h3 :: h4 :: r2 =>
            match hex4_value h1 h2 h3 h4 with
            | None => Raise JSONDecodeError
            | Some uni =>
              if high_surrogate uni then
                match r2 with
                | b :: u :: l1 :: l2 :: l3 :: l4 :: r3 =>
                  if (b =? ch_backslash) && (u =? ch_u) then
                    match hex4_value l1 l2 l3 l4 with
                    | None => Raise JSONDecodeError
                    | Some uni2 =>
                      if low_surrogate uni2
                      then cons_char (0x10000 + (uni - 0xD800) * 1024 + (uni2 - 0xDC00))
                                     (scanstring r3)
                      else cons_char uni (scanstring r2)
                    end
                  else cons_char uni (scanstring r2)
                | _ => cons_char uni (scanstring r2)
                end
              else cons_char uni (scanstring r2)
            end
          | _ => Raise JSONDecodeError
          end
        else
          match unescape e with
          | Some c' => cons_char c' (scanstring r1)
          | None => Raise JSONDecodeError
          end
      end
    else if c <? ch_space then Raise JSONDecodeError
    else cons_char c (scanstring r)
  end.

(** *** Documents *)

Definition whitespace (c : codepoint) : bool :=
  (c =? ch_space) || (c =? ch_tab) || (c =? ch_newline) || (c =? ch_return).

Fixpoint skip_ws (s : pystr) : pystr :=
  match s with
  | c :: r => if whitespace c then skip_ws r else s
  | [] => []
  end.

(** [s] without the prefix [p], when it starts with it. *)
Fixpoint strip_prefix (p s : pystr) : option pystr :=
  match p, s with
  | [], _ => Some s
  | a :: p', b :: s' => if a =? b then strip_prefix p' s' else None
  | _ :: _, [] => None
  end.

(** [d[k] = v] on a [dict] *)
Fixpoint dict_set (k : pystr) (v : pyval) (d : list (pystr * pyval)) : list (pystr * pyval) :=
  match d with
  | [] => [(k, v)]
  | (k', v') :: r =>
    if decide (k' = k) then (k', v) :: r else (k', v') :: dict_set k v r
  end.

(** [dict(pairs)] *)
Definition dict_of_pairs (pairs : list (pystr * pyval)) : list (pystr * pyval) :=
  fold_left (fun d kv => dict_set (fst kv) (snd kv) d) pairs [].

(** The scanner.  A list or a dictionary is entered with one level of [room]
    less, and [RecursionError] is raised when none is left.  [fuel] makes the
    recursion structural: one unit goes for each value and each item, of
    which a text of n characters that is JSON holds no more than n. *)
Fixpoint scan_once (l : limits) (fuel room : nat) (s : pystr) {struct fuel}
    : outcome (pyval * pystr) :=
  match fuel with
  | O => Raise JSONDecodeError
  | S fuel' =>
    match s with
    | [] => Raise JSONDecodeError
    | c :: r =>
      if c =? ch_quote then let* '(str, rest) := scanstring r in Ret (PStr str, rest)
      else if c =? ch_open_brace then
        match room with
        | O => Raise RecursionError
        | S room' =>
          match skip_ws r with
          | c' :: r' =>
            if c' =? ch_close_brace then Ret (PDict [], r')
            else let* '(pairs, rest) := object_items l fuel' room' (skip_ws r) in
                 Ret (PDict (dict_of_pairs pairs), rest)
          | [] => Raise JSONDecodeError
          end
        end
      else if c =? ch_open_bracket then
        match room with
        | O => Raise RecursionError
        | S room' =>
          match skip_ws r with
          | c' :: r' =>
            if c' =? ch_close_bracket then Ret (PList [], r')
            else let* '(items, rest) := array_items l fuel' room' (skip_ws r) in
                 Ret (PList items, rest)
          | [] => Raise JSONDecodeError
          end
        end
      else
        match strip_prefix (lit "null") s, strip_prefix (lit "true") s,
              strip_prefix (lit "false") s, match_number l s with
        | Some rest, _, _, _ => Ret (PNone, rest)
        | _, Some rest, _, _ => Ret (PBool true, rest)
        | _, _, Some rest, _ => Ret (PBool false, rest)
        | _, _, _, Some (number, rest) => let* v := number in Ret (v, rest)
        | None, None, None, None =>
          match strip_prefix (lit "NaN") s, strip_prefix (lit "Infinity") s,
                strip_prefix (lit "-Infinity") s with
          | Some rest, _, _ => Ret (PFloat NaN, rest)
          | _, Some rest, _ => Ret (PFloat (Infinity false), rest)
          | _, _, Some rest => Ret (PFloat (Infinity true), rest)
          | None, None, None => Raise JSONDecodeError
          end
        end
    end
  end
with array_items (l : limits) (fuel room : nat) (s : pystr) {struct fuel}
    : outcome (list pyval * pystr) :=
  match fuel with
  | O => Raise JSONDecodeError
  | S fuel' =>
    let* '(v, rest) := scan_once l fuel' room s in
    match skip_ws rest with
    | c :: r =>
      if c =? ch_close_bracket then Ret ([v], r)
      else if c =? ch_comma then
        let* '(vs, rest') := array_items l fuel' room (skip_ws r) in Ret (v :: vs, rest')
      else Raise JSONDecodeError
    | [] => Raise JSONDecodeError
    end
  end
with object_items (l : limits) (fuel room : nat) (s : pystr) {struct fuel}
    : outcome (list (pystr * pyval) * pystr) :=
  match fuel with
  | O => Raise JSONDecodeError
  | S fuel' =>
    match s with
    | q :: r =>
      if q =? ch_quote then
        let* '(key, rest) := scanstring r in
        match skip_ws rest with
        | colon :: r1 =>
          if colon =? ch_colon then
            let* '(v, rest1) := scan_once l fuel' room (skip_ws r1) in
            match skip_ws rest1 with
            | c :: r2 =>
              if c =? ch_close_brace then Ret ([(key, v)], r2)
              else if c =? ch_comma then
                let* '(kvs, rest2) := object_items l fuel' room (skip_ws r2) in
                Ret ((key, v) :: kvs, rest2)
              else Raise JSONDecodeError
            | [] => Raise JSONDecodeError
            end
          else Raise JSONDecodeError
        | [] => Raise JSONDecodeError
        end
      else Raise JSONDecodeError
    | [] => Raise JSONDecodeError
    end
  end.

(** [json.loads(s)] for a [str]: one value, white space around it, and
    nothing else. *)
Definition loads (l : limits) (s : pystr) : outcome pyval :=
  let bom := match s with
             | c :: _ => c =? 0xFEFF
             | [] => false
             end in
  if bom then Raise JSONDecodeError
  else
    let* '(v, rest) := scan_once l (S (length s)) (recursion_room l) (skip_ws s) in
    match skip_ws rest with
    | [] => Ret v
    | _ :: _ => Raise JSONDecodeError
    end.

(** The encoder: the text of [v] with [", "] and [": "] as separators and
    every character outside ASCII escaped.  A list or a dictionary is entered
    with one level of [room] less, and [RecursionError] is raised when none
    is left. *)
Fixpoint encode_value (l : limits) (room : nat) (v : pyval) {struct v} : outcome pystr :=
  match v with
  | PNone => Ret (lit "null")
  | PBool true => Ret (lit "true")
  | PBool false => Ret (lit "false")
  | PInt z => int_repr l z
  | PFloat f => Ret (float_repr f)
  | PStr s => Ret (encode_basestring_ascii s)
  | PList items =>
    match room with
    | O => Raise RecursionError
    | S room' =>
      let* chunks := (fix each (items : list pyval) : outcome (list pystr) :=
                   match items with
                   | [] => Ret []
                   | x :: items' =>
                     let* sx := encode_value l room' x in
                     let* sl := each items' in Ret (sx :: sl)
                   end) items in
      Ret (ch_open_bracket :: join (lit ", ") chunks ++ [ch_close_bracket])
    end
  | PDict items =>
    match room with
    | O => Raise RecursionError
    | S room' =>
      let* chunks := (fix each (items : list (pystr * pyval)) : outcome (list pystr) :=
                   match items with
                   | [] => Ret []
                   | (k, x) :: items' =>
                     let* sx := encode_value l room' x in
                     let* sl := each items' in
                     Ret ((encode_basestring_ascii k ++ lit ": " ++ sx) :: sl)
                   end) items in
      Ret (ch_open_brace :: join (lit ", ") chunks ++ [ch_close_brace])
    end
  | PBytes _ => Raise TypeError
  end.

(** [json.dumps(obj)] with its default settings ([ensure_ascii],
    [allow_nan]). *)
Definition dumps (l : limits) (v : pyval) : outcome pystr :=
  encode_value l (recursion_room l) v.

End Json.

(** ** The process, the file system and SQLite *)

Module Store.

(** A row of [review_cache]: provider, model, diff_hash, result_json. *)
Definition row : Type := pystr * pystr * pystr * pystr.
Definition key : Type := pystr * pystr * pystr.

Definition row_key (r : row) : key := fst r.
Definition row_json (r : row) : pystr := snd r.

(** What a call can see and change: the environment variables, the rows of
    [review_cache] in each database file that has the table, the connections
    that are open, the number of connections opened so far, and the messages
    logged.  A connection is on a file, with the rows of its transaction in
    progress, if it has one; or it is on a database of its own, kept in
    memory, and then it goes with the rows of the table in that database, if
    the table is there. *)
Record world : Type := World {
  environ : gmap pystr pystr;
  tables : gmap pystr (list row);
  connections : gmap nat (pystr * option (list row));
  opened : nat;
  log : list pystr
}.

(** How what is outside the module answers during one call: for each step
    of the storage layer, the exception it raises, if it fails for a reason
    of its own (the disk, the permissions, the file not being a database),
    and what the interpreter allows [json]. *)
Record behaviour : Type := Behaviour {
  makedirs_fault : option exn;
  connect_fault : option exn;
  create_fault : option exn;
  select_fault : option exn;
  insert_fault : option exn;
  commit_fault : option exn;
  close_fault : option exn;
  interpreter : Json.limits
}.

Definition no_fault : behaviour :=
  Behaviour None None None None None None None Json.default_limits.

(** Statements: they change the world and return or raise. *)
Definition M (A : Type) : Type := world -> outcome A * world.

Definition ret {A : Type} (a : A) : M A := fun w => (Ret a, w).
Definition raise {A : Type} (e : exn) : M A := fun w => (Raise e, w).

Definition seq {A B : Type} (m : M A) (k : A -> M B) : M B :=
  fun w =>
    match m w with
    | (Ret a, w') => k a w'
    | (Raise e, w') => (Raise e, w')
    end.

Notation "'let!' x := m 'in' k" := (seq m (fun x => k))
  (at level 10, x name, m at level 200, k at level 200, only parsing).

(** [try: body except Exception: handler] *)
Definition try_except {A : Type} (body handler : M A) : M A :=
  fun w =>
    match body w with
    | (Ret a, w') => (Ret a, w')
    | (Raise _, w') => handler w'
    end.

(** [try: body finally: final]: [final] runs on every way out of [body]; what
    [body] returned or raised stands unless [final] raises. *)
Definition try_finally {A : Type} (body : M A) (final : M unit) : M A :=
  fun w =>
    let '(r, w1) := body w in
    match final w1 with
    | (Ret _, w2) => (r, w2)
    | (Raise e, w2) => (Raise e, w2)
    end.

(** An assignment [x = e] whose effect on the local [x] outlives the
    statement: [attempt] runs [e] and keeps how it ended, [resume] lets that
    exception, if any, go on from the place of the assignment, and [local]
    reads [x], which is unbound when [e] raised. *)
Definition attempt {A : Type} (m : M A) : M (outcome A) :=
  fun w => let '(r, w') := m w in (Ret r, w').

Definition resume {A : Type} (r : outcome A) : M A := fun w => (r, w).

Definition local {A : Type} (r : outcome A) : M A :=
  match r with
  | Ret a => ret a
  | Raise _ => raise UnboundLocalError
  end.

Definition failing (fault : option exn) : M unit :=
  match fault with
  | Some e => raise e
  | None => ret tt
  end.

(** [os.environ.get(name)] *)
Definition environ_get (name : pystr) : M (option pystr) :=
  fun w => (Ret (environ w !! name), w).

(** [os.makedirs(directory, exist_ok=True)] *)
Definition makedirs (b : behaviour) (directory : pystr) : M unit :=
  failing (makedirs_fault b).

(** [logger.exception(message)] *)
Definition logger_exception (message : pystr) : M unit :=
  fun w => (Ret tt, World (environ w) (tables w) (connections w) (opened w)
                          (log w ++ [message])).

(** The name SQLite reads as a request for a private database kept in
    memory, which no other connection sees and which is gone when the
    connection is closed.  ([sqlite3.connect] is called without [uri=True],
    so that no other name is read that way; the empty name, which stands for
    a private database on disk, is never the configured path.) *)
Definition memory_name : pystr := lit ":memory:".

Definition in_memory (path : pystr) : bool := bool_decide (path = memory_name).

(** [sqlite3.connect(path)]: a new connection, on the file [path] or on a
    new database in memory. *)
Definition connect (b : behaviour) (path : pystr) : M nat :=
  let! _ := failing (connect_fault b) in
  fun w =>
    (Ret (opened w),
     World (environ w) (tables w) (<[opened w := (path, None)]> (connections w))
           (S (opened w)) (log w)).

(** The rows a connection sees: on a file, those of its transaction in
    progress, or else those of the file; in memory, those of its own
    table. *)
Definition visible (w : world) (conn : nat) : outcome (list row) :=
  match connections w !! conn with
  | None => Raise SqliteError
  | Some (path, Some rows) => Ret rows
  | Some (path, None) =>
    if in_memory path then Raise SqliteError
    else match tables w !! path with
         | Some rows => Ret rows
         | None => Raise SqliteError
         end
  end.

(** A connection other than [conn] has a write transaction in progress on
    the file [path], and so holds the lock that a writer needs. *)
Definition writes_on (path : pystr) (c : pystr * option (list row)) : bool :=
  bool_decide (fst c = path)
  && match snd c with
     | Some _ => true
     | None => false
     end.

Definition locked_by_other (w : world) (conn : nat) (path : pystr) : bool :=
  negb (in_memory path)
  && existsb (fun hc => negb (fst hc =? conn)%nat && writes_on path (snd hc))
             (map_to_list (connections w)).

(** [conn.execute("CREATE TABLE IF NOT EXISTS review_cache (...)")]; the
    statement is not part of a transaction.  It writes when the table is not
    there, and then fails ("database is locked") while another connection
    holds the lock. *)
Definition create_table (b : behaviour) (conn : nat) : M unit :=
  let! _ := failing (create_fault b) in
  fun w =>
    match connections w !! conn with
    | None => (Raise SqliteError, w)
    | Some (path, tx) =>
      if in_memory path then
        match tx with
        | Some _ => (Ret tt, w)
        | None =>
          (Ret tt, World (environ w) (tables w)
                         (<[conn := (path, Some [])]> (connections w))
                         (opened w) (log w))
        end
      else
        match tables w !! path with
        | Some _ => (Ret tt, w)
        | None =>
          if locked_by_other w conn path then (Raise SqliteError, w)
          else (Ret tt, World (environ w) (<[path := []]> (tables w)) (connections w)
                              (opened w) (log w))
        end
    end.

(** The parameters of a statement are bound as UTF-8: a [str] that holds a
    surrogate cannot be bound. *)
Definition bind_parameters (parameters : list pystr) : M unit :=
  if forallb (forallb scalar_value) parameters then ret tt else raise UnicodeEncodeError.

(** [conn.execute("SELECT result_json FROM review_cache WHERE provider = ?
    AND model = ? AND diff_hash = ?", k).fetchone()]: the column of the first
    row with that key, if there is one. *)
Definition select_one (b : behaviour) (conn : nat) (k : key) : M (option pystr) :=
  let! _ := bind_parameters [fst (fst k); snd (fst k); snd k] in
  let! _ := failing (select_fault b) in
  fun w =>
    match visible w conn with
    | Raise e => (Raise e, w)
    | Ret rows =>
      (Ret (row_json <$> List.find (fun r => bool_decide (row_key r = k)) rows), w)
    end.

(** [INSERT ... ON CONFLICT(provider, model, diff_hash) DO UPDATE SET
    result_json = excluded.result_json] on the rows of a table: the row that
    has the key gets the new text, and a new row is added when none has it. *)
Fixpoint upsert (k : key) (json : pystr) (rows : list row) : list row :=
  match rows with
  | [] => [(k, json)]
  | r :: rest =>
    if bool_decide (row_key r = k) then (k, json) :: rest
    else r :: upsert k json rest
  end.

(** [conn.execute("INSERT ...", (provider, model, diff_hash, payload))]: the
    write stays in the connection's transaction until [commit]; it fails
    ("database is locked") while another connection holds the lock. *)
Definition insert_or_update (b : behaviour) (conn : nat) (k : key) (json : pystr) : M unit :=
  let! _ := bind_parameters [fst (fst k); snd (fst k); snd k; json] in
  let! _ := failing (insert_fault b) in
  fun w =>
    match visible w conn, connections w !! conn with
    | Ret rows, Some (path, _) =>
      if locked_by_other w conn path then (Raise SqliteError, w)
      else (Ret tt, World (environ w) (tables w)
                          (<[conn := (path, Some (upsert k json rows))]> (connections w))
                          (opened w) (log w))
    | Raise e, _ => (Raise e, w)
    | _, None => (Raise SqliteError, w)
    end.

(** [conn.commit()]: the rows of the transaction become those of the file;
    in memory they are the rows of the table already. *)
Definition commit (b : behaviour) (conn : nat) : M unit :=
  let! _ := failing (commit_fault b) in
  fun w =>
    match connections w !! conn with
    | None => (Raise SqliteError, w)
    | Some (path, None) => (Ret tt, w)
    | Some (path, Some rows) =>
      if in_memory path then (Ret tt, w)
      else (Ret tt, World (environ w) (<[path := rows]> (tables w))
                          (<[conn := (path, None)]> (connections w))
                          (opened w) (log w))
    end.

(** [conn.close()]: the connection is released; its transaction in progress,
    if any, is dropped, and so is its database in memory. *)
Definition close (b : behaviour) (conn : nat) : M unit :=
  let! _ := failing (close_fault b) in
  fun w =>
    (Ret tt, World (environ w) (tables w) (delete conn (connections w))
                   (opened w) (log w)).

(** The rows of [review_cache] in the file [path] (none when the file or the
    table is not there). *)
Definition entries (w : world) (path : pystr) : list row :=
  default [] (tables w !! path).

End Store.
Import Store.

(** ** [src/review_cache.py] *)

(** Modelled from the spec: [GitDiffChange] of [src/types.py], which is not
    among the sources.  The spec's DiffRecord has two paths, three flags and a
    diff text; the module reads each with [change.get], so each may be absent
    (or [None]). *)
Record GitDiffChange : Type := {
  old_path : option pystr;
  new_path : option pystr;
  new_file : option bool;
  deleted_file : option bool;
  renamed_file : option bool;
  diff : option pystr
}.

(** Modelled from the spec: [LLMReviewResult] of [src/types.py], which is not
    among the sources.  The spec's ReviewResult has the review text, provider
    and model, the elapsed seconds and three token counts that may be null. *)
Record LLMReviewResult : Type := {
  content : pystr;
  provider_name : pystr;
  model_name : pystr;
  elapsed_seconds : Decimal.decimal;
  input_tokens : option Z;
  output_tokens : option Z;
  total_tokens : option Z
}.

Definition optional_int (x : option Z) : pyval :=
  match x with
  | Some z => PInt z
  | None => PNone
  end.

(** The [dict] a review result is at run time. *)
Definition result_dict (r : LLMReviewResult) : pyval :=
  PDict [(lit "content", PStr (content r));
         (lit "provider", PStr (provider_name r));
         (lit "model", PStr (model_name r));
         (lit "elapsed_seconds", PFloat (Finite (elapsed_seconds r)));
         (lit "input_tokens", optional_int (input_tokens r));
         (lit "output_tokens", optional_int (output_tokens r));
         (lit "total_tokens", optional_int (total_tokens r))].

Definition _DEFAULT_DB_PATH : pystr := lit "data/review_cache.db".
Definition _DB_ENV_NAME : pystr := lit "REVIEW_CACHE_DB_PATH".

Definition _get_db_path : M pystr :=
  let! value := environ_get _DB_ENV_NAME in
  match value with
  | Some v =>
    match v, strip v with
    | _ :: _, _ :: _ => ret (strip v)
    | _, _ => ret _DEFAULT_DB_PATH
    end
  | None => ret _DEFAULT_DB_PATH
  end.

Definition _get_connection (b : behaviour) : M nat :=
  let! path := _get_db_path in
  let directory := dirname path in
  let! _ := match directory with
            | _ :: _ => makedirs b directory
            | [] => ret tt
            end in
  let! conn := connect b path in
  let! _ := create_table b conn in
  ret conn.

(** The three-character code of a change's flags. *)
Definition flags (change : GitDiffChange) : pystr :=
  join [] [ if truthy (new_file change) then lit "N" else lit "-";
            if truthy (deleted_file change) then lit "D" else lit "-";
            if truthy (renamed_file change) then lit "R" else lit "-" ].

Definition segment_lines (change : GitDiffChange) : list pystr :=
  [ lit "old_path:" ++ or_empty (old_path change);
    lit "new_path:" ++ or_empty (new_path change);
    lit "flags:" ++ flags change;
    lit "diff:";
    or_empty (diff change);
    lit "---" ].

Definition segment (change : GitDiffChange) : pystr := join [ch_newline] (segment_lines change).

(** The hasher after the loop over [changes]; the loop stops at the first
    segment that cannot be encoded. *)
Fixpoint feed (hasher : Sha256.hasher) (changes : list GitDiffChange)
    : outcome Sha256.hasher :=
  match changes with
  | [] => Ret hasher
  | change :: rest =>
    bind (Utf8.encode (segment change))
              (fun bytes => feed (Sha256.update hasher bytes) rest)
  end.

Definition _build_diff_hash (changes : list GitDiffChange) : outcome pystr :=
  bind (feed Sha256.new changes) (fun hasher => Ret (Sha256.hexdigest hasher)).

(** Everything the hasher is fed, end to end, when every segment is
    encoded. *)
Definition canonical_bytes (changes : list GitDiffChange) : list N :=
  flat_map (fun change => Utf8.bytes_of (segment change)) changes.

(** The fingerprint is computed before the [try] block: an exception it
    raises goes to the caller.  The first statement of the [try] block,
    [conn = _get_connection()], binds the local that the [finally] block
    reads: [assigned] keeps how it ended.  [b] is what the storage layer and
    the interpreter do during the call. *)
Definition get_cached_review_for_changes (b : behaviour) (provider model : pystr)
    (changes : list GitDiffChange) : M pyval :=
  let! diff_hash := resume (_build_diff_hash changes) in
  let! assigned := attempt (_get_connection b) in
  try_finally
    (try_except
       (let! conn := resume assigned in
        let! row := select_one b conn (provider, model, diff_hash) in
        match row with
        | None => ret PNone
        | Some payload =>
          let! data := resume (Json.loads (interpreter b) payload) in
          ret data
        end)
       (let! _ := logger_exception (lit "Failed to read review cache; skipping cache usage.") in
        ret PNone))
    (try_except (let! conn := local assigned in close b conn) (ret tt)).

Definition put_cached_review_for_changes (b : behaviour) (provider model : pystr)
    (changes : list GitDiffChange) (result : pyval) : M unit :=
  let! diff_hash := resume (_build_diff_hash changes) in
  let! assigned := attempt (_get_connection b) in
  try_finally
    (try_except
       (let! conn := resume assigned in
        let! payload := resume (Json.dumps (interpreter b) result) in
        let! _ := insert_or_update b conn (provider, model, diff_hash) payload in
        commit b conn)
       (logger_exception (lit "Failed to write review cache; ignoring cache persistence error.")))
    (try_except (let! conn := local assigned in close b conn) (ret tt)).

(** ** The vocabulary of the statements *)

(** What the fingerprint reads of a change: the two paths and the diff text
    with an absent one read as empty, and the truth values of the flags. *)
Definition view (change : GitDiffChange) : pystr * pystr * (bool * bool * bool) * pystr :=
  (or_empty (old_path change), or_empty (new_path change),
   (truthy (new_file change), truthy (deleted_file change), truthy (renamed_file change)),
   or_empty (diff change)).

(** A digit, or one of [a] to [f] in lower case. *)
Definition lower_hex (c : codepoint) : bool :=
  ((ch_zero <=? c) && (c <=? ch_nine)) || ((97 <=? c) && (c <=? 102)).

(** [pat] is a prefix of [s]; [pat] occurs in [s]. *)
Fixpoint has_prefix (pat s : pystr) : bool :=
  match pat, s with
  | [], _ => true
  | a :: pat', b :: s' => (a =? b) && has_prefix pat' s'
  | _ :: _, [] => false
  end.

Fixpoint occurs (pat s : pystr) : bool :=
  has_prefix pat s ||
  match s with
  | [] => false
  | _ :: s' => occurs pat s'
  end.

Definition one_line (s : pystr) : bool := forallb (fun c => negb (c =? 10)) s.

Definition is_text (s : pystr) : bool := forallb scalar_value s.

(** The end of a segment followed by the start of one: a line break, [---]
    and [old_path:]. *)
Definition seam : pystr := ch_newline :: lit "---old_path:".

(** A change whose strings are text, whose paths hold no line break and whose
    diff text does not contain [seam]. *)
Definition framed (change : GitDiffChange) : bool :=
  is_text (or_empty (old_path change)) && one_line (or_empty (old_path change))
  && is_text (or_empty (new_path change)) && one_line (or_empty (new_path change))
  && is_text (or_empty (diff change)) && negb (occurs seam (or_empty (diff change))).

(** The text whose encoding the hasher is fed. *)
Definition canonical_text (changes : list GitDiffChange) : pystr :=
  flat_map segment changes.

(** A change whose strings are text, as [str.encode] needs them. *)
Definition textual (change : GitDiffChange) : bool :=
  is_text (or_empty (old_path change)) && is_text (or_empty (new_path change))
  && is_text (or_empty (diff change)).

(** The fingerprint [_build_diff_hash] returns, when it returns. *)
Definition fingerprint (changes : list GitDiffChange) : pystr :=
  match _build_diff_hash changes with
  | Ret digest => digest
  | Raise _ => []
  end.

Definition change (old new : string) (text : pystr) : GitDiffChange :=
  {| old_path := Some (lit old); new_path := Some (lit new);
     new_file := Some false; deleted_file := Some false; renamed_file := Some false;
     diff := Some text |}.

(** Two diff sets that are fed to the hasher as the same bytes: one change
    whose diff text holds a line [---old_path:c] and what follows it in a
    segment, and the two changes that text spells. *)
Definition forged_one : list GitDiffChange :=
  [ change "a" "b" (lit "+x" ++ ch_newline :: lit "---old_path:c" ++ ch_newline :: lit "new_path:d"
                    ++ ch_newline :: lit "flags:---" ++ ch_newline :: lit "diff:" ++ ch_newline :: lit "+y") ].

Definition forged_two : list GitDiffChange :=
  [ change "a" "b" (lit "+x"); change "c" "d" (lit "+y") ].

(** The same with a line break in a path: the old path of the first change
    spells the end of its line and the start of the next. *)
Definition forged_path_one : list GitDiffChange :=
  [ {| old_path := Some (lit "a" ++ ch_newline :: lit "new_path:b"); new_path := Some (lit "c");
       new_file := None; deleted_file := None; renamed_file := None; diff := None |} ].

Definition forged_path_two : list GitDiffChange :=
  [ {| old_path := Some (lit "a"); new_path := Some (lit "b" ++ ch_newline :: lit "new_path:c");
       new_file := None; deleted_file := None; renamed_file := None; diff := None |} ].

(** A text the hasher can be fed next: nothing, or the start of a segment. *)
Definition segment_start (s : pystr) : Prop :=
  s = [] \/ has_prefix (lit "old_path:") s = true.

(** The database file the module works on in [w]. *)
Definition configured_path (w : world) : pystr :=
  match environ w !! _DB_ENV_NAME with
  | Some (c :: v) =>
    match strip (c :: v) with
    | [] => _DEFAULT_DB_PATH
    | path => path
    end
  | _ => _DEFAULT_DB_PATH
  end.

(** The database is one kept in memory: the configured path is the name
    SQLite reads that way. *)
Definition volatile (w : world) : bool := in_memory (configured_path w).

(** A connection other than the one the next call opens has a write
    transaction in progress on the configured file. *)
Definition locked (w : world) : bool :=
  locked_by_other w (opened w) (configured_path w).

(** The table would have to be created, which the lock prevents. *)
Definition create_blocked (w : world) : bool :=
  negb (volatile w) && bool_decide (tables w !! configured_path w = None) && locked w.

(** The exception with which opening the connection fails, if it does:
    creating the directory (when the path has one), connecting, or creating
    the table. *)
Definition setup_fault (b : behaviour) (w : world) : option exn :=
  match dirname (configured_path w), makedirs_fault b with
  | _ :: _, Some e => Some e
  | _, _ =>
    match connect_fault b with
    | Some e => Some e
    | None =>
      match create_fault b with
      | Some e => Some e
      | None => if create_blocked w then Some SqliteError else None
      end
    end
  end.

(** The provider and the model can be bound as parameters of a statement. *)
Definition bindable (provider model : pystr) : bool :=
  is_text provider && is_text model.

(** The exception with which reading a row fails, if it does. *)
Definition read_fault (b : behaviour) (w : world) (provider model : pystr) : option exn :=
  match setup_fault b w with
  | Some e => Some e
  | None => if bindable provider model then select_fault b else Some UnicodeEncodeError
  end.

(** The exception with which writing a row fails, if it does, before the
    write is committed. *)
Definition write_fault (b : behaviour) (w : world) (provider model : pystr)
    (result : pyval) : option exn :=
  match setup_fault b w, Json.dumps (interpreter b) result with
  | Some e, _ => Some e
  | None, Raise e => Some e
  | None, Ret _ =>
    if bindable provider model then
      match insert_fault b with
      | Some e => Some e
      | None => if locked w then Some SqliteError else commit_fault b
      end
    else Some UnicodeEncodeError
  end.

(** The text a write leaves in the file: that of the result, when the diff
    set is text, the database is a file and no step of the write fails. *)
Definition written (b : behaviour) (w : world) (provider model : pystr)
    (changes : list GitDiffChange) (result : pyval) : option pystr :=
  if forallb textual changes && negb (volatile w) then
    match write_fault b w provider model result, Json.dumps (interpreter b) result with
    | None, Ret payload => Some payload
    | _, _ => None
    end
  else None.

Definition has_key (k : key) (r : row) : bool := bool_decide (row_key r = k).

(** The text a new connection finds under [k] in the database of [w]: that
    of the row of the configured file, and none in a database in memory,
    which is new with each connection. *)
Definition stored (w : world) (k : key) : option pystr :=
  if volatile w then None
  else row_json <$> List.find (has_key k) (entries w (configured_path w)).

(** The world once a connection on [path] is open, and once its table is
    there. *)
Definition connected (path : pystr) (w : world) : world :=
  World (environ w) (tables w) (<[opened w := (path, None)]> (connections w))
        (S (opened w)) (log w).

Definition with_table (conn : nat) (path : pystr) (w : world) : world :=
  if in_memory path then
    World (environ w) (tables w) (<[conn := (path, Some [])]> (connections w))
          (opened w) (log w)
  else
    match tables w !! path with
    | Some _ => w
    | None => World (environ w) (<[path := []]> (tables w)) (connections w)
                    (opened w) (log w)
    end.

(** The rows a new connection sees once the table is there. *)
Definition rows_seen (w : world) : list row :=
  if volatile w then [] else entries w (configured_path w).

(** A run of digits as [int.__repr__] writes it: 0, or digits of which the
    first is not 0. *)
Definition canonical_digits (u : Decimal.uint) : bool :=
  match u with
  | Decimal.Nil => false
  | Decimal.D0 Decimal.Nil => true
  | Decimal.D0 _ => false
  | _ => true
  end.

Definition some_digits (u : Decimal.uint) : bool :=
  match u with
  | Decimal.Nil => false
  | _ => true
  end.

(** The shape of a literal as [float.__repr__] writes one: an integer part
    with no needless 0, and a fraction or an exponent (or both). *)
Definition float_shape (d : Decimal.decimal) : bool :=
  match d with
  | Decimal.Decimal i frac => canonical_digits (Json.digits_of i) && some_digits frac
  | Decimal.DecimalExp i frac e =>
    canonical_digits (Json.digits_of i) && some_digits (Json.digits_of e)
  end.

(** A literal as [float.__repr__] writes one for a finite float: of that
    shape, and in the range of the finite floats. *)
Definition float_literal (d : Decimal.decimal) : bool :=
  float_shape d && negb (Json.overflows d).

(** The values that [json] writes and reads back: [None], booleans, integers,
    finite floats and the two infinities, strings of text, and lists and
    dictionaries of such values, the keys of a dictionary being strings of
    text. *)
#[warnings="-register-all"]
Inductive plain : pyval -> Prop :=
  | plain_none : plain PNone
  | plain_bool (b : bool) : plain (PBool b)
  | plain_int (z : Z) : plain (PInt z)
  | plain_float (d : Decimal.decimal) : float_literal d = true -> plain (PFloat (Finite d))
  | plain_infinity (negative : bool) : plain (PFloat (Infinity negative))
  | plain_str (s : pystr) : is_text s = true -> plain (PStr s)
  | plain_list (items : list pyval) : Forall plain items -> plain (PList items)
  | plain_dict (items : list (pystr * pyval)) :
      NoDup (List.map fst items) ->
      Forall (fun kx => is_text (fst kx) = true /\ plain (snd kx)) items ->
      plain (PDict items).

(** A review result whose strings are text and whose elapsed time is a
    finite float. *)
Definition well_formed (r : LLMReviewResult) : Prop :=
  is_text (content r) = true /\ is_text (provider_name r) = true
  /\ is_text (model_name r) = true /\ float_literal (elapsed_seconds r) = true.

(** The number of values and items a value is made of. *)
Fixpoint weight (v : pyval) : nat :=
  match v with
  | PList items => S (fold_right (fun x n => S (weight x + n)) O items)
  | PDict items => S (fold_right (fun kx n => S (weight (snd kx) + n)) O items)
  | _ => 1
  end.

(** The texts of the items of a list, and of the members of a dictionary, as
    the encoder writes them one after the other. *)
Fixpoint dumps_items (l : Json.limits) (room : nat) (items : list pyval)
    : outcome (list pystr) :=
  match items with
  | [] => Ret []
  | x :: items' =>
    bind (Json.encode_value l room x) (fun sx =>
    bind (dumps_items l room items') (fun sl => Ret (sx :: sl)))
  end.

Fixpoint dumps_members (l : Json.limits) (room : nat) (items : list (pystr * pyval))
    : outcome (list pystr) :=
  match items with
  | [] => Ret []
  | (k, x) :: items' =>
    bind (Json.encode_value l room x) (fun sx =>
    bind (dumps_members l room items') (fun sl =>
    Ret ((Json.encode_basestring_ascii k ++ lit ": " ++ sx) :: sl)))
  end.

(** How deep the lists and dictionaries of a value are nested. *)
Fixpoint depth (v : pyval) : nat :=
  match v with
  | PList items => S (fold_right (fun x n => Nat.max (depth x) n) O items)
  | PDict items => S (fold_right (fun kx n => Nat.max (depth (snd kx)) n) O items)
  | _ => O
  end.

(** The integers of a value have no more digits than the limit allows. *)
Fixpoint ints_fit (l : Json.limits) (v : pyval) : bool :=
  match v with
  | PInt z =>
    negb (Json.too_many_digits l
            (length (Json.print_uint (Json.digits_of (Z.to_int z)))))
  | PList items => forallb (ints_fit l) items
  | PDict items => forallb (fun kx => ints_fit l (snd kx)) items
  | _ => true
  end.

(** The interpreter has room for the value: [json] can write it and can read
    its text. *)
Definition within (l : Json.limits) (v : pyval) : bool :=
  (depth v <=? Json.recursion_room l)%nat && ints_fit l v.

Definition items_weight (items : list pyval) : nat :=
  fold_right (fun x n => S (weight x + n)) O items.

Definition members_weight (items : list (pystr * pyval)) : nat :=
  fold_right (fun kx n => S (weight (snd kx) + n)) O items.

(** What a JSON value can start with, and what can follow one. *)
Definition value_start (c : codepoint) : bool :=
  (c =? ch_quote) || (c =? ch_open_brace) || (c =? ch_open_bracket) || (c =? ch_n) || (c =? ch_t) || (c =? ch_f)
  || (c =? ch_minus) || Json.digit_char c || (c =? ch_I).

Definition value_end (rest : pystr) : bool :=
  match rest with
  | [] => true
  | c :: _ => (c =? ch_comma) || (c =? ch_close_bracket) || (c =? ch_close_brace)
  end.

(** No two rows of a table have the same key. *)
Definition unique_keys (w : world) : Prop :=
  forall path, NoDup (List.map row_key (entries w path)).

(** The worlds the module can bring about: it starts with no database, and
    goes on by reads and writes, with any arguments and whatever the storage
    layer does. *)
Inductive reachable : world -> Prop :=
  | reachable_start (w : world) : tables w = ∅ -> reachable w
  | reachable_get (b : behaviour) (provider model : pystr) (changes : list GitDiffChange)
      (w : world) :
      reachable w ->
      reachable (snd (get_cached_review_for_changes b provider model changes w))
  | reachable_put (b : behaviour) (provider model : pystr) (changes : list GitDiffChange)
      (result : pyval) (w : world) :
      reachable w ->
      reachable (snd (put_cached_review_for_changes b provider model changes result w)).

(** A database in which the row of a key holds [42], which is JSON and is not
    a review result. *)
Definition odd_key : key :=
  (lit "openai", lit "gpt-4", fingerprint [change "a.py" "a.py" (lit "+x")]).

Definition odd_world : world :=
  World ∅ {[ _DEFAULT_DB_PATH := [(odd_key, lit "42")] ]} ∅ 0 [].

(** A review in English and Korean, with an emoji, that took 1.5 seconds;
    the provider reported no output tokens. *)
Definition sample_result : LLMReviewResult :=
  {| content := lit "LGTM " ++ [0xC88B; 0xC544; 0xC694; 32; 0x1F44D; 10];
     provider_name := lit "openai";
     model_name := lit "gpt-4";
     elapsed_seconds := Decimal.Decimal (Decimal.Pos (Decimal.D1 Decimal.Nil))
                                        (Decimal.D5 Decimal.Nil);
     input_tokens := Some 1200%Z;
     output_tokens := None;
     total_tokens := Some 1500%Z |}.

Definition broken_world : world :=
  World ∅ {[ _DEFAULT_DB_PATH := [(odd_key, lit "{broken")] ]} ∅ 0 [].

(** What can follow a run of digits without being read into it. *)
Definition not_digit (rest : pystr) : bool :=
  match rest with
  | [] => true
  | c :: _ => negb (Json.digit_char c)
  end.

Definition logged (message : pystr) (w : world) : world :=
  World (environ w) (tables w) (connections w) (opened w) (log w ++ [message]).

Definition closed (conn : nat) (w : world) : world :=
  World (environ w) (tables w) (delete conn (connections w)) (opened w) (log w).

Definition in_transaction (conn : nat) (path : pystr) (rows : list row) (w : world) : world :=
  World (environ w) (tables w) (<[conn := (path, Some rows)]> (connections w))
        (opened w) (log w).

Definition committed (conn : nat) (path : pystr) (rows : list row) (w : world) : world :=
  World (environ w) (<[path := rows]> (tables w))
        (<[conn := (path, None)]> (connections w)) (opened w) (log w).

Definition read_failed : pystr := lit "Failed to read review cache; skipping cache usage.".
Definition write_failed : pystr :=
  lit "Failed to write review cache; ignoring cache persistence error.".

(** A value of the environment variable that holds white space and nothing
    else; the empty one is such a value. *)
Definition blank (s : pystr) : bool := forallb isspace s.

(** [b] with another answer of [os.makedirs]. *)
Definition with_makedirs_fault (fault : option exn) (b : behaviour) : behaviour :=
  Behaviour fault (connect_fault b) (create_fault b) (select_fault b) (insert_fault b)
            (commit_fault b) (close_fault b) (interpreter b).

(** A storage layer in which closing a connection fails and nothing else
    does. *)
Definition close_fails : behaviour :=
  Behaviour None None None None None None (Some SqliteError) Json.default_limits.

(** No handle from the next one on is in use. *)
Definition fresh_handles (w : world) : Prop :=
  forall h, (opened w <= h)%nat -> connections w !! h = None.

(** How a call leaves the handles: as they were; or with one more handed
    out, for a connection on the configured file that is still open or has
    been closed. *)
Definition handles_after (w w' : world) : Prop :=
  (opened w' = opened w /\ connections w' = connections w)
  \/ (opened w' = S (opened w)
      /\ ((exists tx, connections w'
                      = <[opened w := (configured_path w, tx)]> (connections w))
          \/ connections w' = delete (opened w) (connections w))).

(** A printable character of ASCII, from the space to the tilde. *)
Definition printable (c : codepoint) : bool := (ch_space <=? c) && (c <=? ch_tilde).

(** The shape of a fingerprint: 64 characters, each a digit or one of [a] to
    [f]. *)
Definition fingerprint_shaped (s : pystr) : bool :=
  (length s =? 64)%nat && forallb lower_hex s.

(** The fingerprint column of a row. *)
Definition row_hash (r : row) : pystr := snd (row_key r).

(** A change whose old path is a surrogate on its own. *)
Definition unpaired : GitDiffChange :=
  {| old_path := Some [0xD800]; new_path := Some (lit "a.py");
     new_file := None; deleted_file := None; renamed_file := None;
     diff := Some (lit "+x") |}.

(** A process whose cache is configured to be kept in memory. *)
Definition memory_world : world :=
  World {[ lit "REVIEW_CACHE_DB_PATH" := lit ":memory:" ]} ∅ ∅ 0 [].

(** A world in which another connection has a write transaction in progress
    on the default file. *)
Definition busy_world : world :=
  World ∅ {[ lit "data/review_cache.db" := [] ]}
        {[ 0%nat := (lit "data/review_cache.db", Some []) ]} 1 [].

(** Division and remainder by constants are within [lia]'s reach. *)
Ltac Zify.zify_post_hook ::= Z.to_euclidean_division_equations.

(** Case analysis on the comparisons of the goal, the cases that arithmetic
    excludes being closed. *)
Ltac compare_cases :=
  repeat match goal with
         | |- context [N.eqb ?a ?b] => destruct (N.eqb_spec a b); try (exfalso; lia)
         | |- context [N.leb ?a ?b] => destruct (N.leb_spec a b); try (exfalso; lia)
         | |- context [N.ltb ?a ?b] => destruct (N.ltb_spec a b); try (exfalso; lia)
         end.

(** ** The fingerprint *)

Section Fingerprint.

(** The embedding of [hashlib.sha256] on the test vectors of the standard: the
    empty message, a message of one block and one of two. *)
Example sha256_empty :
  Sha256.hexdigest Sha256.new
  = lit "e3b0c44298fc1c149afbf4c8996fb92427ae41e4649b934ca495991b7852b855".
Proof. vm_compute. reflexivity. Qed.

Example sha256_abc :
  Sha256.hexdigest (Sha256.update Sha256.new (Utf8.bytes_of (lit "abc")))
  = lit "ba7816bf8f01cfea414140de5dae2223b00361a396177a9cb410ff61f20015ad".
Proof. vm_compute. reflexivity. Qed.

Example sha256_two_blocks :
  Sha256.hexdigest
    (Sha256.update
       (Sha256.update Sha256.new
          (Utf8.bytes_of (lit "abcdbcdecdefdefgefghfghighijhijkijkljklmklmnlmnomnopnopq")))
       (Utf8.bytes_of (lit "abcdbcdecdefdefgefghfghighijhijkijkljklmklmnlmnomnopnopq")))
  = lit "59f109d9533b2b70e7c3b814a2bd218f78ea5d3714455bc67987cf0d664399cf".
Proof. vm_compute. reflexivity. Qed.

(** The fingerprint of the diff set of the specification's scenario, as
    CPython computes it. *)
Example build_diff_hash_scenario :
  segment (change "a.py" "a.py" (lit "+x"))
  = lit "old_path:a.py" ++ 10 :: lit "new_path:a.py" ++ 10 :: lit "flags:---" ++ 10 ::
    lit "diff:" ++ 10 :: lit "+x" ++ 10 :: lit "---"
  /\ _build_diff_hash [change "a.py" "a.py" (lit "+x")]
     = Ret (lit "c311350f4e4d7576ecbab1640472dfcc0a3381f22d6e79c73642116f6a7b9b31").
Proof. vm_compute. split; reflexivity. Qed.

Lemma update_app (h : Sha256.hasher) (a b : list N) :
  Sha256.update h (a ++ b) = Sha256.update (Sha256.update h a) b.
Proof. unfold Sha256.update. apply fold_left_app. Qed.

Lemma is_text_app (s t : pystr) : is_text (s ++ t) = is_text s && is_text t.
Proof. apply forallb_app. Qed.

(** A segment, followed by [tail], spelled out. *)
Lemma segment_shape (c : GitDiffChange) (tail : pystr) :
  segment c ++ tail
  = lit "old_path:" ++ or_empty (old_path c) ++ 10 ::
    lit "new_path:" ++ or_empty (new_path c) ++ 10 ::
    lit "flags:" ++ flags c ++ 10 ::
    lit "diff:" ++ 10 :: or_empty (diff c) ++ 10 :: lit "---" ++ tail.
Proof.
  unfold segment, segment_lines. cbn [join].
  repeat (rewrite <- ?app_assoc; cbn [app]). reflexivity.
Qed.

Lemma flags_code (c : GitDiffChange) :
  flags c = [ if truthy (new_file c) then ch_N else ch_minus;
              if truthy (deleted_file c) then ch_D else ch_minus;
              if truthy (renamed_file c) then ch_R else ch_minus ].
Proof.
  unfold flags.
  destruct (truthy (new_file c)), (truthy (deleted_file c)), (truthy (renamed_file c));
    reflexivity.
Qed.

(** A segment is text when the strings of the change are. *)
Lemma segment_textual (c : GitDiffChange) : is_text (segment c) = textual c.
Proof.
  rewrite <- (app_nil_r (segment c)), segment_shape. unfold textual, is_text.
  assert (forallb scalar_value (flags c) = true) as Tf.
  { rewrite flags_code.
    now destruct (truthy (new_file c)), (truthy (deleted_file c)), (truthy (renamed_file c)). }
  repeat (rewrite forallb_app || (cbn [forallb]; rewrite andb_true_l)).
  rewrite Tf.
  change (forallb scalar_value (lit "old_path:")) with true.
  change (forallb scalar_value (lit "new_path:")) with true.
  change (forallb scalar_value (lit "flags:")) with true.
  change (forallb scalar_value (lit "diff:")) with true.
  change (forallb scalar_value (lit "---")) with true.
  cbn [forallb andb]. rewrite !andb_true_r. now rewrite andb_assoc.
Qed.

Lemma encode_segment (c : GitDiffChange) :
  Utf8.encode (segment c)
  = if textual c then Ret (Utf8.bytes_of (segment c)) else Raise UnicodeEncodeError.
Proof. unfold Utf8.encode. fold (is_text (segment c)). now rewrite segment_textual. Qed.

(** The loop feeds the hasher the bytes of the segments, and raises at the
    first change that holds a surrogate. *)
Lemma feed_canonical (changes : list GitDiffChange) (h : Sha256.hasher) :
  feed h changes
  = if forallb textual changes then Ret (Sha256.update h (canonical_bytes changes))
    else Raise UnicodeEncodeError.
Proof.
  revert h. induction changes as [|c cs IH]; intros h.
  - reflexivity.
  - unfold canonical_bytes. cbn [feed forallb flat_map]. rewrite encode_segment.
    destruct (textual c); [|reflexivity].
    cbn [bind andb]. rewrite IH, update_app. reflexivity.
Qed.

(** The fingerprint is the digest of [canonical_bytes]. *)
Lemma build_diff_hash_canonical (changes : list GitDiffChange) :
  _build_diff_hash changes
  = if forallb textual changes
    then Ret (Sha256.hexdigest (Sha256.update Sha256.new (canonical_bytes changes)))
    else Raise UnicodeEncodeError.
Proof.
  unfold _build_diff_hash. rewrite feed_canonical.
  now destruct (forallb textual changes).
Qed.

Lemma build_diff_hash_fingerprint (changes : list GitDiffChange) :
  _build_diff_hash changes
  = if forallb textual changes then Ret (fingerprint changes)
    else Raise UnicodeEncodeError.
Proof.
  unfold fingerprint. rewrite build_diff_hash_canonical.
  now destruct (forallb textual changes).
Qed.

Lemma fingerprint_digest (changes : list GitDiffChange) :
  forallb textual changes = true ->
  fingerprint changes
  = Sha256.hexdigest (Sha256.update Sha256.new (canonical_bytes changes)).
Proof. intros Ht. unfold fingerprint. now rewrite build_diff_hash_canonical, Ht. Qed.

Lemma hex_digit_lower (d : N) : d < 16 -> lower_hex (Sha256.hex_digit d) = true.
Proof.
  intros Hd. unfold lower_hex, Sha256.hex_digit.
  destruct (N.ltb_spec d 10).
  - apply orb_true_iff. left. apply andb_true_iff. split; apply N.leb_le; lia.
  - apply orb_true_iff. right. apply andb_true_iff. split; apply N.leb_le; lia.
Qed.

Lemma hex_byte_lower (b : N) :
  b < 256 -> Forall (fun c => lower_hex c = true) (Sha256.hex_byte b).
Proof.
  intros Hb. unfold Sha256.hex_byte.
  repeat constructor; apply hex_digit_lower.
  - apply N.Div0.div_lt_upper_bound. lia.
  - apply N.mod_lt. lia.
Qed.

Lemma be_bytes_small (n : nat) (x : N) : Forall (fun b => b < 256) (Sha256.be_bytes n x).
Proof.
  unfold Sha256.be_bytes. apply Forall_map. apply Forall_forall.
  intros i _. apply N.mod_lt. lia.
Qed.

Lemma be_bytes_length (n : nat) (x : N) : length (Sha256.be_bytes n x) = n.
Proof. unfold Sha256.be_bytes. now rewrite length_map, length_rev, length_seq. Qed.

Lemma digest_length (h : Sha256.hasher) : length (Sha256.digest h) = 32%nat.
Proof.
  unfold Sha256.digest. cbv zeta.
  generalize (Sha256.state (Sha256.update h (Sha256.padding h))). intros s.
  cbn [flat_map]. rewrite !length_app, !be_bytes_length. reflexivity.
Qed.

Lemma digest_small (h : Sha256.hasher) : Forall (fun b => b < 256) (Sha256.digest h).
Proof.
  unfold Sha256.digest. cbv zeta.
  generalize (Sha256.state (Sha256.update h (Sha256.padding h))). intros s.
  cbn [flat_map]. repeat (apply Forall_app; split); try apply be_bytes_small.
  constructor.
Qed.

Lemma hexdigest_length (h : Sha256.hasher) : length (Sha256.hexdigest h) = 64%nat.
Proof.
  unfold Sha256.hexdigest.
  pose proof (digest_length h) as Hl. revert Hl.
  generalize (Sha256.digest h). intros d Hl.
  assert (forall l : list N, length (flat_map Sha256.hex_byte l) = (2 * length l)%nat) as E.
  { induction l as [|x l IH]; [reflexivity|]. cbn [flat_map]. rewrite length_app, IH.
    cbn. lia. }
  rewrite E, Hl. reflexivity.
Qed.

Lemma hexdigest_lower (h : Sha256.hasher) :
  Forall (fun c => lower_hex c = true) (Sha256.hexdigest h).
Proof.
  unfold Sha256.hexdigest. pose proof (digest_small h) as Hs. revert Hs.
  generalize (Sha256.digest h). intros d Hs.
  induction Hs as [|b d Hb _ IH]; cbn [flat_map].
  - constructor.
  - apply Forall_app. split; [now apply hex_byte_lower | exact IH].
Qed.

Lemma lower_hex_scalar (c : N) : lower_hex c = true -> scalar_value c = true.
Proof.
  unfold lower_hex, scalar_value. intros H.
  apply orb_true_iff in H as [H|H]; apply andb_true_iff in H as [H1 H2];
    apply N.leb_le in H1, H2; apply orb_true_iff; left; apply N.ltb_lt; lia.
Qed.

Lemma hexdigest_text (h : Sha256.hasher) : is_text (Sha256.hexdigest h) = true.
Proof.
  apply forallb_forall. intros c Hc. apply lower_hex_scalar.
  pose proof (hexdigest_lower h) as Hl. rewrite Forall_forall in Hl. now apply Hl.
Qed.

(** The fingerprint that [_build_diff_hash] returns is 64 characters, each a digit
    or one of a..f in lower case, and so it is text. *)
Lemma fingerprint_shape (changes : list GitDiffChange) :
  forallb textual changes = true ->
  length (fingerprint changes) = 64%nat
  /\ Forall (fun c => lower_hex c = true) (fingerprint changes)
  /\ is_text (fingerprint changes) = true.
Proof.
  intros Ht. rewrite (fingerprint_digest changes Ht).
  split; [apply hexdigest_length|]. split; [apply hexdigest_lower | apply hexdigest_text].
Qed.




(** *** The fingerprint reads the view of each change and nothing else *)

Lemma segment_view (c1 c2 : GitDiffChange) : view c1 = view c2 -> segment c1 = segment c2.
Proof.
  unfold view. intros E. injection E as E1 E2 E3 E4 E5 E6.
  unfold segment, segment_lines, flags. now rewrite E1, E2, E3, E4, E5, E6.
Qed.

Lemma cons_eq_inv {A : Type} (x y : A) (l l' : list A) :
  x :: l = y :: l' -> x = y /\ l = l'.
Proof. intros E. now injection E. Qed.

Lemma canonical_bytes_view (d1 d2 : list GitDiffChange) :
  map view d1 = map view d2 -> canonical_bytes d1 = canonical_bytes d2.
Proof.
  revert d2. induction d1 as [|c1 d1 IH]; intros [|c2 d2] E; try discriminate E.
  - reflexivity.
  - cbn [map] in E. apply cons_eq_inv in E as [Ec Ed].
    unfold canonical_bytes. cbn [flat_map].
    rewrite (segment_view _ _ Ec). f_equal. now apply IH.
Qed.

Lemma textual_view (d1 d2 : list GitDiffChange) :
  map view d1 = map view d2 -> forallb textual d1 = forallb textual d2.
Proof.
  revert d2. induction d1 as [|c1 d1 IH]; intros [|c2 d2] E; try discriminate E.
  - reflexivity.
  - cbn [map] in E. apply cons_eq_inv in E as [Ec Ed]. cbn [forallb].
    rewrite (IH d2 Ed). f_equal.
    rewrite <- !segment_textual. now rewrite (segment_view _ _ Ec).
Qed.

(** C4: the fingerprint is a function of the diff set, and of no more than
    the paths, the flags and the diff text of each change, read as the module
    reads them: two diff sets whose changes have the same views, in the same
    order, have the same fingerprint. *)
Theorem build_diff_hash_deterministic (d1 d2 : list GitDiffChange) :
  map view d1 = map view d2 -> _build_diff_hash d1 = _build_diff_hash d2.
Proof.
  intros E. rewrite !build_diff_hash_canonical.
  now rewrite (canonical_bytes_view _ _ E), (textual_view _ _ E).
Qed.

(** A change read from a payload without the keys, and one with every key
    set to a falsy value, have one fingerprint. *)
Lemma build_diff_hash_deterministic_witness :
  map view [ {| old_path := None; new_path := Some (lit "a.py"); new_file := None;
                deleted_file := None; renamed_file := None; diff := None |} ]
  = map view [ {| old_path := Some []; new_path := Some (lit "a.py");
                  new_file := Some false; deleted_file := Some false;
                  renamed_file := None; diff := Some [] |} ]
  /\ _build_diff_hash
       [ {| old_path := None; new_path := Some (lit "a.py"); new_file := None;
            deleted_file := None; renamed_file := None; diff := None |} ]
     = _build_diff_hash
         [ {| old_path := Some []; new_path := Some (lit "a.py");
              new_file := Some false; deleted_file := Some false;
              renamed_file := None; diff := Some [] |} ].
Proof.
  split; [reflexivity|].
  apply build_diff_hash_deterministic. reflexivity.
Defined.

(** *** UTF-8 loses nothing *)

Lemma decode_encode_codepoint (c : N) (rest : list N) :
  c < 0x110000 ->
  Utf8.decode (Utf8.encode_codepoint c ++ rest) = c :: Utf8.decode rest.
Proof.
  intros Hc. unfold Utf8.encode_codepoint.
  destruct (N.ltb_spec c 0x80) as [H1|H1].
  { cbn [app Utf8.decode].
    destruct (N.ltb_spec c 0xC0); [reflexivity | exfalso; lia]. }
  destruct (N.ltb_spec c 0x800) as [H2|H2].
  { cbn [app Utf8.decode].
    destruct (N.ltb_spec (0xC0 + c / 64) 0xC0); [exfalso; lia|].
    destruct (N.ltb_spec (0xC0 + c / 64) 0xE0); [|exfalso; lia].
    f_equal. lia. }
  destruct (N.ltb_spec c 0x10000) as [H3|H3].
  { cbn [app Utf8.decode].
    destruct (N.ltb_spec (0xE0 + c / 4096) 0xC0); [exfalso; lia|].
    destruct (N.ltb_spec (0xE0 + c / 4096) 0xE0); [exfalso; lia|].
    destruct (N.ltb_spec (0xE0 + c / 4096) 0xF0); [|exfalso; lia].
    f_equal. lia. }
  cbn [app Utf8.decode].
  destruct (N.ltb_spec (0xF0 + c / 262144) 0xC0); [exfalso; lia|].
  destruct (N.ltb_spec (0xF0 + c / 262144) 0xE0); [exfalso; lia|].
  destruct (N.ltb_spec (0xF0 + c / 262144) 0xF0); [exfalso; lia|].
  f_equal. lia.
Qed.

Lemma scalar_value_bound (c : N) : scalar_value c = true -> c < 0x110000.
Proof.
  unfold scalar_value. intros H. apply orb_true_iff in H as [H|H].
  - apply N.ltb_lt in H. lia.
  - apply andb_true_iff in H as [_ H]. now apply N.ltb_lt in H.
Qed.

Lemma decode_encode (s : pystr) : is_text s = true -> Utf8.decode (Utf8.bytes_of s) = s.
Proof.
  unfold is_text. induction s as [|c s IH]; intros H.
  - reflexivity.
  - cbn [forallb] in H. apply andb_true_iff in H as [Hc Hs].
    unfold Utf8.bytes_of. cbn [flat_map].
    rewrite decode_encode_codepoint by now apply scalar_value_bound.
    f_equal. now apply IH.
Qed.

Lemma encode_injective (s t : pystr) :
  is_text s = true -> is_text t = true -> Utf8.bytes_of s = Utf8.bytes_of t -> s = t.
Proof.
  intros Hs Ht E. rewrite <- (decode_encode s Hs), <- (decode_encode t Ht). now rewrite E.
Qed.

Lemma canonical_bytes_text (d : list GitDiffChange) :
  canonical_bytes d = Utf8.bytes_of (canonical_text d).
Proof.
  unfold canonical_bytes, canonical_text, Utf8.bytes_of.
  induction d as [|c d IH]; [reflexivity|].
  cbn [flat_map]. now rewrite flat_map_app, IH.
Qed.

(** *** Where the fingerprint tells diff sets apart *)

Lemma has_prefix_app (pat s : pystr) : has_prefix pat (pat ++ s) = true.
Proof.
  induction pat as [|a pat IH]; [reflexivity|].
  cbn [app has_prefix]. now rewrite N.eqb_refl, IH.
Qed.

Lemma has_prefix_spec (pat s : pystr) :
  has_prefix pat s = true -> exists r, s = pat ++ r.
Proof.
  revert s. induction pat as [|a pat IH]; intros s H.
  - now exists s.
  - destruct s as [|b s]; [discriminate H|].
    cbn [has_prefix] in H. apply andb_true_iff in H as [Hab H].
    apply N.eqb_eq in Hab as ->. destruct (IH s H) as [r ->]. now exists r.
Qed.

(** A pattern that starts [t ++ s] either starts [t], or goes through the
    seam between [t] and [s]. *)
Lemma prefix_through (pat t s : pystr) :
  has_prefix pat (t ++ s) = true ->
  has_prefix pat t = true
  \/ exists a pat', pat = t ++ a :: pat' /\ has_prefix (a :: pat') s = true.
Proof.
  revert t. induction pat as [|a pat IH]; intros t H.
  - now left.
  - destruct t as [|b t].
    + right. now exists a, pat.
    + cbn [app has_prefix] in H |- *. apply andb_true_iff in H as [Hab H].
      destruct (IH t H) as [Hl | (a' & pat' & -> & Hr)].
      * left. now rewrite Hab.
      * right. apply N.eqb_eq in Hab as ->. now exists a', pat'.
Qed.

Lemma occurs_head (pat s : pystr) : has_prefix pat s = true -> occurs pat s = true.
Proof. intros H. destruct s; cbn [occurs]; now rewrite H. Qed.

Lemma occurs_tail (pat : pystr) (c : N) (s : pystr) :
  occurs pat (c :: s) = false -> occurs pat s = false.
Proof. cbn [occurs]. intros H. now apply orb_false_iff in H as [_ H]. Qed.

Lemma one_line_split (p p' r r' : pystr) :
  one_line p = true -> one_line p' = true ->
  p ++ 10 :: r = p' ++ 10 :: r' -> p = p' /\ r = r'.
Proof.
  unfold one_line. revert p'. induction p as [|a p IH]; intros [|a' p'] Hp Hp' E;
    cbn [app forallb] in *.
  - apply cons_eq_inv in E as [_ E]. now split.
  - apply cons_eq_inv in E as [<- _]. discriminate Hp'.
  - apply cons_eq_inv in E as [-> _]. discriminate Hp.
  - apply cons_eq_inv in E as [<- E].
    apply andb_true_iff in Hp as [_ Hp]. apply andb_true_iff in Hp' as [_ Hp'].
    destruct (IH p' Hp Hp' E) as [-> ->]. now split.
Qed.

Lemma marker_one_line : ~ In 10 (lit "---old_path:").
Proof. cbn. intuition discriminate. Qed.

(** After a diff text with no [seam] in it, the end of the segment is where
    the first line [---] followed by the start of a segment (or by nothing)
    stands: it cannot stand further in another reading of the same text. *)
Lemma diff_end_here (d rest rest' : pystr) :
  occurs seam d = false ->
  segment_start rest ->
  10 :: lit "---" ++ rest = d ++ 10 :: lit "---" ++ rest' ->
  d = [].
Proof.
  intros Hd Hrest E. destruct d as [|x t]; [reflexivity|]. exfalso.
  cbn [app] in E. apply cons_eq_inv in E as [<- E].
  destruct Hrest as [-> | Hrest].
  - apply (f_equal (@length N)) in E. rewrite !length_app in E. cbn in E. lia.
  - apply has_prefix_spec in Hrest as [r0 ->].
    assert (has_prefix (lit "---old_path:") (t ++ 10 :: lit "---" ++ rest') = true) as H.
    { rewrite <- E. change (lit "---" ++ lit "old_path:" ++ r0) with (lit "---old_path:" ++ r0).
      apply has_prefix_app. }
    apply prefix_through in H as [H | (a & pat' & Hp & H)].
    + assert (occurs seam (10 :: t) = true) as Ho.
      { apply occurs_head. unfold seam. cbn [has_prefix]. now rewrite N.eqb_refl, H. }
      congruence.
    + cbn [has_prefix] in H. apply andb_true_iff in H as [Ha _].
      apply N.eqb_eq in Ha as ->. apply marker_one_line. rewrite Hp.
      apply in_elt.
Qed.

Lemma diff_split (d d' rest rest' : pystr) :
  occurs seam d = false -> occurs seam d' = false ->
  segment_start rest -> segment_start rest' ->
  d ++ 10 :: lit "---" ++ rest = d' ++ 10 :: lit "---" ++ rest' ->
  d = d' /\ rest = rest'.
Proof.
  revert d'. induction d as [|x d IH]; intros d' Hd Hd' Hr Hr' E.
  - cbn [app] in E. pose proof (diff_end_here d' rest rest' Hd' Hr E) as ->.
    cbn [app] in E. apply cons_eq_inv in E as [_ E]. apply app_inv_head in E. now split.
  - destruct d' as [|x' d'].
    + symmetry in E. cbn [app] in E.
      pose proof (diff_end_here (x :: d) rest' rest Hd Hr' E). discriminate.
    + cbn [app] in E. apply cons_eq_inv in E as [<- E].
      apply occurs_tail in Hd. apply occurs_tail in Hd'.
      destruct (IH d' Hd Hd' Hr Hr' E) as [-> ->]. now split.
Qed.

Lemma canonical_text_start (d : list GitDiffChange) : segment_start (canonical_text d).
Proof.
  destruct d as [|c d]; [now left|]. right.
  unfold canonical_text. cbn [flat_map]. rewrite segment_shape. apply has_prefix_app.
Qed.

Lemma flags_one_line (c : GitDiffChange) : one_line (flags c) = true.
Proof.
  rewrite flags_code.
  now destruct (truthy (new_file c)), (truthy (deleted_file c)), (truthy (renamed_file c)).
Qed.

Lemma flags_injective (c1 c2 : GitDiffChange) :
  flags c1 = flags c2 ->
  (truthy (new_file c1), truthy (deleted_file c1), truthy (renamed_file c1))
  = (truthy (new_file c2), truthy (deleted_file c2), truthy (renamed_file c2)).
Proof.
  rewrite !flags_code.
  destruct (truthy (new_file c1)), (truthy (deleted_file c1)), (truthy (renamed_file c1)),
           (truthy (new_file c2)), (truthy (deleted_file c2)), (truthy (renamed_file c2));
    intros E; try reflexivity; discriminate E.
Qed.

Lemma framed_parts (c : GitDiffChange) :
  framed c = true ->
  is_text (or_empty (old_path c)) = true /\ one_line (or_empty (old_path c)) = true
  /\ is_text (or_empty (new_path c)) = true /\ one_line (or_empty (new_path c)) = true
  /\ is_text (or_empty (diff c)) = true /\ occurs seam (or_empty (diff c)) = false.
Proof.
  unfold framed. intros H.
  repeat (apply andb_true_iff in H as [H ?]).
  repeat split; try assumption. now apply negb_true_iff.
Qed.

Lemma canonical_text_injective (d1 d2 : list GitDiffChange) :
  forallb framed d1 = true -> forallb framed d2 = true ->
  canonical_text d1 = canonical_text d2 -> map view d1 = map view d2.
Proof.
  revert d2. induction d1 as [|c1 d1 IH]; intros [|c2 d2] F1 F2 E.
  - reflexivity.
  - unfold canonical_text in E. cbn [flat_map] in E. rewrite segment_shape in E.
    discriminate E.
  - unfold canonical_text in E. cbn [flat_map] in E. rewrite segment_shape in E.
    discriminate E.
  - cbn [forallb] in F1, F2.
    apply andb_true_iff in F1 as [Fc1 F1]. apply andb_true_iff in F2 as [Fc2 F2].
    apply framed_parts in Fc1 as (_ & Lo1 & _ & Ln1 & _ & S1).
    apply framed_parts in Fc2 as (_ & Lo2 & _ & Ln2 & _ & S2).
    unfold canonical_text in E. cbn [flat_map] in E. rewrite !segment_shape in E.
    apply app_inv_head in E.
    apply one_line_split in E as [Eold E]; [|assumption..].
    apply app_inv_head in E.
    apply one_line_split in E as [Enew E]; [|assumption..].
    apply app_inv_head in E.
    apply one_line_split in E as [Eflags E]; [|apply flags_one_line..].
    apply app_inv_head in E. apply cons_eq_inv in E as [_ E].
    apply diff_split in E as [Ediff E];
      [|assumption|assumption|apply canonical_text_start..].
    cbn [map]. f_equal.
    + unfold view. now rewrite Eold, Enew, Ediff, (flags_injective _ _ Eflags).
    + now apply IH.
Qed.

Lemma framed_textual (c : GitDiffChange) : framed c = true -> textual c = true.
Proof.
  intros F. apply framed_parts in F as (To & _ & Tn & _ & Td & _).
  unfold textual. now rewrite To, Tn, Td.
Qed.

Lemma segment_text (c : GitDiffChange) : framed c = true -> is_text (segment c) = true.
Proof. intros F. rewrite segment_textual. now apply framed_textual. Qed.

Lemma framed_all_textual (d : list GitDiffChange) :
  forallb framed d = true -> forallb textual d = true.
Proof.
  induction d as [|c d IH]; [reflexivity|]. cbn [forallb]. intros F.
  apply andb_true_iff in F as [Fc F]. now rewrite (framed_textual c Fc), IH.
Qed.

Lemma canonical_text_is_text (d : list GitDiffChange) :
  forallb framed d = true -> is_text (canonical_text d) = true.
Proof.
  induction d as [|c d IH]; intros F; [reflexivity|].
  cbn [forallb] in F. apply andb_true_iff in F as [Fc F].
  unfold canonical_text. cbn [flat_map]. rewrite is_text_app.
  rewrite (segment_text c Fc). exact (IH F).
Qed.

(** C1, as amended: on diff sets whose strings are text, whose paths hold no
    line break and whose diff texts do not contain a line break followed by
    [---old_path:], the bytes fed to the hasher determine the views of the
    changes, their number and their order: two such diff sets that differ in
    a path, a flag, a diff text, the number of changes or their order are fed
    as different bytes. *)
Theorem canonical_bytes_injective (d1 d2 : list GitDiffChange) :
  forallb framed d1 = true -> forallb framed d2 = true ->
  canonical_bytes d1 = canonical_bytes d2 -> map view d1 = map view d2.
Proof.
  intros F1 F2 E. rewrite !canonical_bytes_text in E.
  apply encode_injective in E; [|now apply canonical_text_is_text..].
  now apply canonical_text_injective.
Qed.

Lemma canonical_bytes_injective_witness :
  forallb framed
    [ {| old_path := None; new_path := Some (lit "a.py"); new_file := Some true;
         deleted_file := None; renamed_file := None; diff := Some (lit "+x") |} ] = true
  /\ forallb framed
       [ {| old_path := Some []; new_path := Some (lit "a.py"); new_file := Some true;
            deleted_file := Some false; renamed_file := Some false;
            diff := Some (lit "+x") |} ] = true
  /\ map view
       [ {| old_path := None; new_path := Some (lit "a.py"); new_file := Some true;
            deleted_file := None; renamed_file := None; diff := Some (lit "+x") |} ]
     = map view
         [ {| old_path := Some []; new_path := Some (lit "a.py"); new_file := Some true;
              deleted_file := Some false; renamed_file := Some false;
              diff := Some (lit "+x") |} ].
Proof.
  split; [reflexivity|]. split; [reflexivity|].
  apply canonical_bytes_injective; reflexivity.
Defined.

(** C1, as stated, fails: [forged_one] and [forged_two] differ in the number
    of changes and in a diff text, their strings are text and their paths
    hold no line break, and yet the hasher is fed the same bytes for both, so
    that they have one fingerprint. *)
Lemma fingerprint_collision :
  map view forged_one <> map view forged_two
  /\ length forged_one <> length forged_two
  /\ canonical_bytes forged_one = canonical_bytes forged_two
  /\ _build_diff_hash forged_one = _build_diff_hash forged_two.
Proof.
  split; [discriminate|]. split; [discriminate|].
  assert (canonical_bytes forged_one = canonical_bytes forged_two) as E
    by (vm_compute; reflexivity).
  split; [exact E|]. rewrite !build_diff_hash_canonical. now rewrite E.
Qed.

(** The one fingerprint of the two, as CPython computes it. *)
Example fingerprint_collision_value :
  _build_diff_hash forged_one
  = Ret (lit "2295a8b1fe0408aadf9ea26601ef55bdd2adc0f62a4115e24ed66e642b3f9f09")
  /\ _build_diff_hash forged_two
     = Ret (lit "2295a8b1fe0408aadf9ea26601ef55bdd2adc0f62a4115e24ed66e642b3f9f09").
Proof. vm_compute. split; reflexivity. Qed.

(** The same happens with a line break in a path. *)
Lemma fingerprint_collision_path :
  map view forged_path_one <> map view forged_path_two
  /\ canonical_bytes forged_path_one = canonical_bytes forged_path_two
  /\ _build_diff_hash forged_path_one = _build_diff_hash forged_path_two.
Proof.
  split; [discriminate|].
  assert (canonical_bytes forged_path_one = canonical_bytes forged_path_two) as E
    by (vm_compute; reflexivity).
  split; [exact E|]. rewrite !build_diff_hash_canonical. now rewrite E.
Qed.

End Fingerprint.

(** ** JSON *)

Section JsonFacts.

Lemma Ret_inj {A : Type} (a b : A) : Ret a = Ret b -> a = b.
Proof. intros E. now injection E. Qed.

Lemma bind_ret {A B : Type} (m : outcome A) (k : A -> outcome B) (b : B) :
  bind m k = Ret b -> exists a, m = Ret a /\ k a = Ret b.
Proof. destruct m as [a|e]; [|discriminate]. intros H. now exists a. Qed.

(** *** Numbers *)

Lemma print_uint_digits (u : Decimal.uint) : forallb Json.digit_char (Json.print_uint u) = true.
Proof. induction u; cbn [Json.print_uint forallb]; try rewrite IHu; reflexivity. Qed.

Lemma uint_of_print (u : Decimal.uint) : Json.uint_of_digits (Json.print_uint u) = u.
Proof.
  induction u; cbn [Json.print_uint Json.uint_of_digits]; try rewrite IHu; reflexivity.
Qed.

Lemma span_digits_print (u : Decimal.uint) (rest : pystr) :
  not_digit rest = true ->
  Json.span_digits (Json.print_uint u ++ rest) = (Json.print_uint u, rest).
Proof.
  intros Hr.
  assert (Json.span_digits rest = ([], rest)) as Hrest.
  { destruct rest as [|c rest]; [reflexivity|]. cbn in Hr |- *.
    now rewrite (negb_true_iff _) in Hr; rewrite Hr. }
  induction u; cbn [Json.print_uint app]; try exact Hrest;
    cbn [Json.span_digits]; rewrite IHu; reflexivity.
Qed.

Lemma value_end_not_digit (rest : pystr) : value_end rest = true -> not_digit rest = true.
Proof.
  destruct rest as [|c rest]; [reflexivity|]. cbn [value_end not_digit]. intros H.
  unfold Json.digit_char.
  repeat (apply orb_true_iff in H as [H|H]); apply N.eqb_eq in H as ->; reflexivity.
Qed.

Lemma scan_sign_print (i : Decimal.int) (tail : pystr) :
  canonical_digits (Json.digits_of i) = true ->
  Json.scan_sign (Json.print_int i ++ tail)
  = (match i with Decimal.Pos _ => false | Decimal.Neg _ => true end,
     Json.print_uint (Json.digits_of i) ++ tail).
Proof.
  destruct i as [u|u]; [|reflexivity].
  cbn [Json.digits_of Json.print_int]. now destruct u.
Qed.

Lemma scan_integer_print (u : Decimal.uint) (tail : pystr) :
  canonical_digits u = true -> not_digit tail = true ->
  Json.scan_integer (Json.print_uint u ++ tail) = Some (Json.print_uint u, tail).
Proof.
  intros Hu Ht.
  destruct u as [|u|u|u|u|u|u|u|u|u|u]; try discriminate Hu;
    cbn [Json.print_uint app Json.scan_integer].
  1: destruct u; try discriminate Hu; reflexivity.
  all: match goal with
       | |- context [N.eqb ?c 48] =>
         change (N.eqb c 48) with false; change (Json.digit_char c) with true
       end; cbv iota; now rewrite span_digits_print.
Qed.

Lemma scan_fraction_none (rest : pystr) :
  value_end rest = true -> Json.scan_fraction rest = ([], rest).
Proof.
  destruct rest as [|c rest]; [reflexivity|]. cbn [value_end Json.scan_fraction]. intros H.
  repeat (apply orb_true_iff in H as [H|H]); apply N.eqb_eq in H as ->; reflexivity.
Qed.

Lemma scan_fraction_exponent (tail : pystr) :
  Json.scan_fraction (101 :: tail) = ([], 101 :: tail).
Proof. reflexivity. Qed.

Lemma scan_fraction_print (frac : Decimal.uint) (tail : pystr) :
  some_digits frac = true -> not_digit tail = true ->
  Json.scan_fraction (46 :: Json.print_uint frac ++ tail) = (Json.print_uint frac, tail).
Proof.
  intros Hf Ht. cbn [Json.scan_fraction]. change (46 =? 46) with true. cbv iota.
  rewrite span_digits_print by assumption. now destruct frac.
Qed.

Lemma scan_exponent_none (rest : pystr) :
  value_end rest = true -> Json.scan_exponent rest = (None, rest).
Proof.
  destruct rest as [|c rest]; [reflexivity|]. cbn [value_end Json.scan_exponent]. intros H.
  repeat (apply orb_true_iff in H as [H|H]); apply N.eqb_eq in H as ->; reflexivity.
Qed.

Lemma scan_exponent_print (e : Decimal.int) (rest : pystr) :
  some_digits (Json.digits_of e) = true -> not_digit rest = true ->
  Json.scan_exponent
    (101 :: match e with
            | Decimal.Pos d => 43 :: Json.print_uint d
            | Decimal.Neg d => 45 :: Json.print_uint d
            end ++ rest)
  = (Some e, rest).
Proof.
  intros He Hr. cbn [Json.scan_exponent]. change ((101 =? 101) || (101 =? 69)) with true.
  cbv iota.
  destruct e as [d|d]; cbn [app Json.digits_of] in *.
  - change (43 =? 45) with false. change (43 =? 43) with true. cbv iota.
    rewrite span_digits_print by assumption. rewrite uint_of_print. now destruct d.
  - change (45 =? 45) with true. cbv iota.
    rewrite span_digits_print by assumption. rewrite uint_of_print. now destruct d.
Qed.

Lemma nzhead_head (u : Decimal.uint) :
  match Decimal.nzhead u with Decimal.D0 _ => False | _ => True end.
Proof. induction u; cbn; auto. Qed.

Lemma unorm_canonical (u : Decimal.uint) : Decimal.unorm u = u -> canonical_digits u = true.
Proof.
  destruct u as [|u|u|u|u|u|u|u|u|u|u]; try reflexivity; [discriminate|].
  unfold Decimal.unorm. cbn [Decimal.nzhead]. pose proof (nzhead_head u) as Hh.
  destruct (Decimal.nzhead u); intros E; try discriminate E; try contradiction.
  now injection E as <-.
Qed.

Lemma to_uint_canonical (p : positive) : canonical_digits (Pos.to_uint p) = true.
Proof.
  apply unorm_canonical.
  rewrite <- (DecimalPos.Unsigned.to_of (Pos.to_uint p)).
  now rewrite DecimalPos.Unsigned.of_to.
Qed.

Lemma to_int_canonical (z : Z) : canonical_digits (Json.digits_of (Z.to_int z)) = true.
Proof. destruct z; [reflexivity | apply to_uint_canonical..]. Qed.

Lemma signed_digits (i : Decimal.int) :
  Json.signed (match i with Decimal.Pos _ => false | Decimal.Neg _ => true end) (Json.digits_of i)
  = i.
Proof. now destruct i. Qed.

Lemma int_repr_ret (l : Json.limits) (z : Z) (text : pystr) :
  Json.int_repr l z = Ret text ->
  text = Json.print_int (Z.to_int z)
  /\ Json.too_many_digits l (length (Json.print_uint (Json.digits_of (Z.to_int z)))) = false.
Proof.
  unfold Json.int_repr.
  destruct (Json.too_many_digits l _); [discriminate|]. intros E.
  apply Ret_inj in E. now split.
Qed.

Lemma match_number_int (l : Json.limits) (z : Z) (rest : pystr) :
  Json.too_many_digits l (length (Json.print_uint (Json.digits_of (Z.to_int z)))) = false ->
  value_end rest = true ->
  Json.match_number l (Json.print_int (Z.to_int z) ++ rest) = Some (Ret (PInt z), rest).
Proof.
  intros Hl Hr. unfold Json.match_number.
  rewrite scan_sign_print by apply to_int_canonical.
  rewrite scan_integer_print
    by (try apply to_int_canonical; now apply value_end_not_digit).
  rewrite scan_fraction_none, scan_exponent_none by assumption.
  rewrite Hl, uint_of_print, signed_digits. now rewrite DecimalZ.of_to.
Qed.

Lemma match_number_float (l : Json.limits) (d : Decimal.decimal) (rest : pystr) :
  float_literal d = true -> value_end rest = true ->
  Json.match_number l (Json.float_repr (Finite d) ++ rest)
  = Some (Ret (PFloat (Finite d)), rest).
Proof.
  intros Hd Hr. pose proof (value_end_not_digit rest Hr) as Hn.
  apply andb_true_iff in Hd as [Hd Ho]. apply negb_true_iff in Ho.
  assert (Json.float_of_literal d = Finite d) as Hfin
    by (unfold Json.float_of_literal; now rewrite Ho).
  revert Hfin. unfold Json.match_number.
  destruct d as [i frac|i frac e]; cbn [float_shape] in Hd;
    apply andb_true_iff in Hd as [Hi Hf]; intros Hfin.
  - assert (Json.float_repr (Finite (Decimal.Decimal i frac))
            = Json.print_int i ++ 46 :: Json.print_uint frac) as -> by now destruct frac.
    rewrite <- app_assoc. cbn [app].
    rewrite scan_sign_print by assumption.
    rewrite scan_integer_print by (try assumption; reflexivity).
    rewrite scan_fraction_print by assumption.
    rewrite scan_exponent_none by assumption.
    rewrite !uint_of_print, signed_digits, Hfin. now destruct frac.
  - cbn [Json.float_repr]. rewrite <- !app_assoc.
    rewrite scan_sign_print by assumption.
    assert (not_digit ((match frac with
                        | Decimal.Nil => []
                        | _ => 46 :: Json.print_uint frac
                        end) ++ 101 :: match e with
                                       | Decimal.Pos d => 43 :: Json.print_uint d
                                       | Decimal.Neg d => 45 :: Json.print_uint d
                                       end ++ rest) = true) as Hnd by now destruct frac.
    rewrite scan_integer_print by assumption.
    rewrite uint_of_print, signed_digits.
    destruct (some_digits frac) eqn:Hfrac.
    + assert ((match frac with
               | Decimal.Nil => []
               | _ => 46 :: Json.print_uint frac
               end) = 46 :: Json.print_uint frac) as -> by now destruct frac.
      cbn [app]. rewrite scan_fraction_print by (try assumption; reflexivity).
      rewrite scan_exponent_print by assumption.
      rewrite uint_of_print, Hfin. now destruct frac.
    + destruct frac; try discriminate Hfrac. cbn [app].
      rewrite scan_fraction_exponent, scan_exponent_print by assumption.
      cbn [Json.uint_of_digits]. now rewrite Hfin.
Qed.

(** *** Strings *)

Lemma hex_value_digit (d : N) : d < 16 -> Json.hex_value (Sha256.hex_digit d) = Some d.
Proof.
  intros Hd. unfold Json.hex_value, Sha256.hex_digit.
  compare_cases; cbn [andb]; f_equal; lia.
Qed.

Lemma hex4_value_hex4 (n : N) :
  n < 65536 ->
  exists h1 h2 h3 h4,
    Json.hex4 n = [h1; h2; h3; h4] /\ Json.hex4_value h1 h2 h3 h4 = Some n.
Proof.
  intros Hn. unfold Json.hex4. do 4 eexists. split; [reflexivity|].
  unfold Json.hex4_value.
  rewrite !hex_value_digit by (try apply N.mod_lt; try apply N.Div0.div_lt_upper_bound; lia).
  f_equal. lia.
Qed.

Lemma scanstring_unicode (h1 h2 h3 h4 : N) (r2 : pystr) (uni : N) :
  Json.hex4_value h1 h2 h3 h4 = Some uni -> Json.high_surrogate uni = false ->
  Json.scanstring (92 :: 117 :: h1 :: h2 :: h3 :: h4 :: r2)
  = Json.cons_char uni (Json.scanstring r2).
Proof.
  intros Hh Hs. cbn [Json.scanstring].
  change (92 =? 34) with false. change (92 =? 92) with true.
  change (117 =? 117) with true. cbv iota. now rewrite Hh, Hs.
Qed.

Lemma scanstring_pair (h1 h2 h3 h4 l1 l2 l3 l4 : N) (r3 : pystr) (hi lo : N) :
  Json.hex4_value h1 h2 h3 h4 = Some hi -> Json.high_surrogate hi = true ->
  Json.hex4_value l1 l2 l3 l4 = Some lo -> Json.low_surrogate lo = true ->
  Json.scanstring (92 :: 117 :: h1 :: h2 :: h3 :: h4 :: 92 :: 117 :: l1 :: l2 :: l3 :: l4 :: r3)
  = Json.cons_char (0x10000 + (hi - 0xD800) * 1024 + (lo - 0xDC00)) (Json.scanstring r3).
Proof.
  intros Hh Hs Hl Hsl. cbn [Json.scanstring].
  change (92 =? 34) with false. change (92 =? 92) with true.
  change (117 =? 117) with true. cbv iota. rewrite Hh, Hs.
  cbn [andb]. now rewrite Hl, Hsl.
Qed.

Lemma scanstring_escape (c : N) (tail : pystr) :
  scalar_value c = true ->
  Json.scanstring (Json.escape_codepoint c ++ tail) = Json.cons_char c (Json.scanstring tail).
Proof.
  intros Hc. unfold scalar_value in Hc. unfold Json.escape_codepoint.
  destruct (N.eqb_spec c 34) as [->|H34]; [reflexivity|].
  destruct (N.eqb_spec c 92) as [->|H92]; [reflexivity|].
  destruct ((32 <=? c) && (c <=? 126)) eqn:Hprint.
  { apply andb_true_iff in Hprint as [Hlo Hhi]. apply N.leb_le in Hlo, Hhi.
    cbn [app Json.scanstring]. compare_cases. reflexivity. }
  destruct (N.eqb_spec c 8) as [->|H8]; [reflexivity|].
  destruct (N.eqb_spec c 12) as [->|H12]; [reflexivity|].
  destruct (N.eqb_spec c 10) as [->|H10]; [reflexivity|].
  destruct (N.eqb_spec c 13) as [->|H13]; [reflexivity|].
  destruct (N.eqb_spec c 9) as [->|H9]; [reflexivity|].
  destruct (N.ltb_spec c 0x10000) as [Hbmp|Hsup].
  - destruct (hex4_value_hex4 c Hbmp) as (h1 & h2 & h3 & h4 & -> & Hv).
    cbn [app]. apply scanstring_unicode; [exact Hv|].
    unfold Json.high_surrogate. revert Hc. compare_cases; cbn; congruence.
  - assert (c < 0x110000) as Hmax by (revert Hc; compare_cases; cbn; congruence).
    set (n := c - 0x10000).
    destruct (hex4_value_hex4 (0xD800 + (n / 1024) mod 1024)) as
      (h1 & h2 & h3 & h4 & -> & Hv1); [lia|].
    destruct (hex4_value_hex4 (0xDC00 + n mod 1024)) as
      (l1 & l2 & l3 & l4 & -> & Hv2); [lia|].
    cbn [app].
    assert (Json.high_surrogate (0xD800 + (n / 1024) mod 1024) = true) as Hhi
      by (unfold Json.high_surrogate; compare_cases; reflexivity).
    assert (Json.low_surrogate (0xDC00 + n mod 1024) = true) as Hlo
      by (unfold Json.low_surrogate; compare_cases; reflexivity).
    rewrite (scanstring_pair h1 h2 h3 h4 l1 l2 l3 l4 tail _ _ Hv1 Hhi Hv2 Hlo).
    f_equal. unfold n. lia.
Qed.

Lemma scanstring_escaped (s rest : pystr) :
  is_text s = true ->
  Json.scanstring (flat_map Json.escape_codepoint s ++ 34 :: rest) = Ret (s, rest).
Proof.
  unfold is_text. induction s as [|c s IH]; intros Hs.
  - reflexivity.
  - cbn [forallb] in Hs. apply andb_true_iff in Hs as [Hc Hs].
    cbn [flat_map]. rewrite <- app_assoc, scanstring_escape by assumption.
    now rewrite IH.
Qed.

(** *** Values *)

Lemma encode_list (l : Json.limits) (room : nat) (items : list pyval) :
  Json.encode_value l (S room) (PList items)
  = bind (dumps_items l room items)
         (fun chunks => Ret (91 :: join (lit ", ") chunks ++ [93])).
Proof.
  cbn [Json.encode_value]. f_equal.
  induction items as [|x items IH]; [reflexivity|].
  cbn [dumps_items]. now rewrite IH.
Qed.

Lemma encode_dict (l : Json.limits) (room : nat) (items : list (pystr * pyval)) :
  Json.encode_value l (S room) (PDict items)
  = bind (dumps_members l room items)
         (fun chunks => Ret (123 :: join (lit ", ") chunks ++ [125])).
Proof.
  cbn [Json.encode_value]. f_equal.
  induction items as [|[k x] items IH]; [reflexivity|].
  cbn [dumps_members]. now rewrite IH.
Qed.

(** A list or a dictionary is written when there is room to enter it. *)
Lemma encode_list_ret (l : Json.limits) (room : nat) (items : list pyval) (text : pystr) :
  Json.encode_value l room (PList items) = Ret text ->
  exists room' chunks,
    room = S room' /\ dumps_items l room' items = Ret chunks
    /\ text = 91 :: join (lit ", ") chunks ++ [93].
Proof.
  destruct room as [|room']; [discriminate|]. rewrite encode_list. intros H.
  apply bind_ret in H as (chunks & Hc & E). apply Ret_inj in E.
  now exists room', chunks.
Qed.

Lemma encode_dict_ret (l : Json.limits) (room : nat) (items : list (pystr * pyval))
    (text : pystr) :
  Json.encode_value l room (PDict items) = Ret text ->
  exists room' chunks,
    room = S room' /\ dumps_members l room' items = Ret chunks
    /\ text = 123 :: join (lit ", ") chunks ++ [125].
Proof.
  destruct room as [|room']; [discriminate|]. rewrite encode_dict. intros H.
  apply bind_ret in H as (chunks & Hc & E). apply Ret_inj in E.
  now exists room', chunks.
Qed.

Lemma weight_pos (v : pyval) : (1 <= weight v)%nat.
Proof. destruct v; cbn [weight]; lia. Qed.

Lemma value_start_facts (c : N) :
  value_start c = true ->
  Json.whitespace c = false /\ (c =? 93) = false /\ (c =? 125) = false
  /\ (c =? 0xFEFF) = false.
Proof.
  unfold value_start, Json.whitespace, Json.digit_char. intros H.
  repeat (apply orb_true_iff in H as [H|H]);
    try (apply N.eqb_eq in H as ->; repeat split; reflexivity).
  apply andb_true_iff in H as [H1 H2]. apply N.leb_le in H1, H2.
  repeat split; compare_cases; reflexivity.
Qed.

Lemma skip_ws_start (c : N) (t : pystr) :
  value_start c = true -> Json.skip_ws (c :: t) = c :: t.
Proof.
  intros H. apply value_start_facts in H as (H & _). cbn [Json.skip_ws]. now rewrite H.
Qed.

Lemma print_uint_head (u : Decimal.uint) :
  some_digits u = true ->
  exists c t, Json.print_uint u = c :: t /\ Json.digit_char c = true.
Proof. destruct u; try discriminate; intros _; do 2 eexists; split; reflexivity. Qed.

Lemma canonical_some_digits (u : Decimal.uint) :
  canonical_digits u = true -> some_digits u = true.
Proof. now destruct u. Qed.

Lemma print_int_head (i : Decimal.int) :
  canonical_digits (Json.digits_of i) = true ->
  exists c t, Json.print_int i = c :: t /\ (c = 45 \/ Json.digit_char c = true).
Proof.
  destruct i as [u|u]; cbn [Json.digits_of Json.print_int]; intros Hu.
  - destruct (print_uint_head u (canonical_some_digits u Hu)) as (c & t & -> & Hc).
    exists c, t. auto.
  - do 2 eexists. split; [reflexivity|]. now left.
Qed.

(** The text of a finite float starts with its integer part. *)
Lemma float_repr_head (d : Decimal.decimal) :
  float_shape d = true ->
  exists i tail,
    Json.float_repr (Finite d) = Json.print_int i ++ tail
    /\ canonical_digits (Json.digits_of i) = true.
Proof.
  intros Hd. destruct d as [i frac|i frac e]; cbn [float_shape] in Hd;
    apply andb_true_iff in Hd as [Hi Hf]; exists i.
  - exists (46 :: Json.print_uint frac). split; [now destruct frac | assumption].
  - eexists. split; [reflexivity | assumption].
Qed.

(** The text of a value starts with a character no other token starts
    with. *)
Lemma dumps_head (l : Json.limits) (room : nat) (v : pyval) (text : pystr) :
  plain v -> Json.encode_value l room v = Ret text ->
  exists c t, text = c :: t /\ value_start c = true.
Proof.
  intros Hv. destruct Hv as [|b|z|d Hd|neg|s Hs|items Hi|items Hn Hi].
  - intros E. apply Ret_inj in E as <-. now exists 110, (lit "ull").
  - destruct b; intros E; apply Ret_inj in E as <-;
      [now exists 116, (lit "rue") | now exists 102, (lit "alse")].
  - intros E. apply int_repr_ret in E as [-> _].
    destruct (print_int_head (Z.to_int z) (to_int_canonical z)) as (c & t & -> & Hc).
    exists c, t. split; [reflexivity|]. unfold value_start.
    destruct Hc as [-> | ->]; [reflexivity|]. now rewrite !orb_true_r.
  - change (Json.encode_value l room (PFloat (Finite d)))
      with (Ret (Json.float_repr (Finite d))).
    intros E. apply Ret_inj in E. subst text.
    apply andb_true_iff in Hd as [Hd _].
    destruct (float_repr_head d Hd) as (i & tail & -> & Hc).
    destruct (print_int_head i Hc) as (c & t & -> & Hd').
    exists c, (t ++ tail). split; [reflexivity|]. unfold value_start.
    destruct Hd' as [-> | ->]; [reflexivity|]. now rewrite !orb_true_r.
  - destruct neg; intros E; apply Ret_inj in E as <-;
      [now exists 45, (lit "Infinity") | now exists 73, (lit "nfinity")].
  - intros E. apply Ret_inj in E as <-. now eexists 34, _.
  - intros H. apply encode_list_ret in H as (room' & chunks & _ & _ & ->).
    now eexists 91, _.
  - intros H. apply encode_dict_ret in H as (room' & chunks & _ & _ & ->).
    now eexists 123, _.
Qed.

Lemma dict_set_fresh (k : pystr) (v : pyval) (d : list (pystr * pyval)) :
  ~ In k (List.map fst d) -> Json.dict_set k v d = d ++ [(k, v)].
Proof.
  induction d as [|[k' v'] d IH]; intros Hk; [reflexivity|].
  cbn [Json.dict_set List.map fst In] in *.
  destruct (decide (k' = k)) as [->|Hne]; [exfalso; auto|].
  cbn [app]. f_equal. apply IH. auto.
Qed.

Lemma dict_of_distinct_pairs (pairs : list (pystr * pyval)) :
  NoDup (List.map fst pairs) -> Json.dict_of_pairs pairs = pairs.
Proof.
  unfold Json.dict_of_pairs.
  assert (forall acc, NoDup (List.map fst (acc ++ pairs)) ->
          fold_left (fun d kv => Json.dict_set (fst kv) (snd kv) d) pairs acc
          = acc ++ pairs) as H.
  { induction pairs as [|[k v] pairs IH]; intros acc Hn.
    - now rewrite app_nil_r.
    - cbn [fold_left fst snd]. rewrite dict_set_fresh.
      + rewrite IH; rewrite <- app_assoc; [reflexivity | exact Hn].
      + rewrite map_app in Hn. cbn [List.map fst] in Hn.
        apply list.NoDup_app in Hn as (_ & Hdisjoint & _).
        intros Hin. apply list_elem_of_In in Hin.
        apply (Hdisjoint k Hin). now left. }
  intros Hn. now apply (H []).
Qed.

Lemma scan_once_number (l : Json.limits) (n room : nat) (c : N) (r : pystr) (v : pyval)
    (rest : pystr) :
  c = 45 \/ Json.digit_char c = true ->
  Json.match_number l (c :: r) = Some (Ret v, rest) ->
  Json.scan_once l (S n) room (c :: r) = Ret (v, rest).
Proof.
  intros Hc Hm.
  assert (c = 45 \/ (48 <= c /\ c <= 57)) as Hrange.
  { destruct Hc as [->|Hc]; [now left|]. right. unfold Json.digit_char in Hc.
    apply andb_true_iff in Hc as [H1 H2]. apply N.leb_le in H1, H2. now split. }
  cbn [Json.scan_once]. rewrite Hm.
  change (lit "null") with (110 :: lit "ull").
  change (lit "true") with (116 :: lit "rue").
  change (lit "false") with (102 :: lit "alse").
  cbn [Json.strip_prefix].
  compare_cases. reflexivity.
Qed.

Lemma scan_once_array (l : Json.limits) (n room : nat) (c : N) (t : pystr) :
  value_start c = true ->
  Json.scan_once l (S n) (S room) (91 :: c :: t)
  = bind (Json.array_items l n room (c :: t)) (fun r => Ret (PList (fst r), snd r)).
Proof.
  intros Hc. cbn [Json.scan_once].
  change (91 =? 34) with false. change (91 =? 123) with false.
  change (91 =? 91) with true. cbv iota.
  rewrite skip_ws_start by assumption.
  apply value_start_facts in Hc as (_ & -> & _).
  destruct (Json.array_items l n room (c :: t)) as [[items rest]|e]; reflexivity.
Qed.

Lemma scan_once_object (l : Json.limits) (n room : nat) (c : N) (t : pystr) :
  value_start c = true ->
  Json.scan_once l (S n) (S room) (123 :: c :: t)
  = bind (Json.object_items l n room (c :: t))
         (fun r => Ret (PDict (Json.dict_of_pairs (fst r)), snd r)).
Proof.
  intros Hc. cbn [Json.scan_once].
  change (123 =? 34) with false. change (123 =? 123) with true. cbv iota.
  rewrite skip_ws_start by assumption.
  apply value_start_facts in Hc as (_ & _ & -> & _).
  destruct (Json.object_items l n room (c :: t)) as [[items rest]|e]; reflexivity.
Qed.

Lemma skip_ws_space (c : N) (t : pystr) :
  value_start c = true -> Json.skip_ws (32 :: c :: t) = c :: t.
Proof. intros Hc. cbn [Json.skip_ws]. change (Json.whitespace 32) with true. cbv iota.
  now apply skip_ws_start. Qed.

Lemma dumps_items_cons (l : Json.limits) (room : nat) (x : pyval) (items : list pyval)
    (chunks : list pystr) :
  dumps_items l room (x :: items) = Ret chunks ->
  exists sx sl,
    Json.encode_value l room x = Ret sx /\ dumps_items l room items = Ret sl
    /\ chunks = sx :: sl.
Proof.
  cbn [dumps_items]. intros H.
  apply bind_ret in H as (sx & Hx & H). apply bind_ret in H as (sl & Hl & [= <-]).
  now exists sx, sl.
Qed.

Lemma dumps_members_cons (l : Json.limits) (room : nat) (k : pystr) (x : pyval)
    (items : list (pystr * pyval)) (chunks : list pystr) :
  dumps_members l room ((k, x) :: items) = Ret chunks ->
  exists sx sl,
    Json.encode_value l room x = Ret sx /\ dumps_members l room items = Ret sl
    /\ chunks = (34 :: flat_map Json.escape_codepoint k ++ 34 :: 58 :: 32 :: sx) :: sl.
Proof.
  cbn [dumps_members]. intros H.
  apply bind_ret in H as (sx & Hx & H). apply bind_ret in H as (sl & Hl & [= <-]).
  exists sx, sl. repeat split; try assumption. f_equal.
  unfold Json.encode_basestring_ascii. cbn [app]. now rewrite <- app_assoc.
Qed.

(** What follows an item or a member in the text of a list or a dictionary:
    the closing bracket, or a comma, a space and the next one. *)
Lemma join_tail (sx : pystr) (sl : list pystr) (close : N) (rest : pystr) :
  join (lit ", ") (sx :: sl) ++ close :: rest
  = sx ++ match sl with
          | [] => close :: rest
          | _ :: _ => 44 :: 32 :: join (lit ", ") sl ++ close :: rest
          end.
Proof.
  destruct sl as [|sy sl]; [reflexivity|].
  cbn [join]. rewrite <- !app_assoc. reflexivity.
Qed.

(** Reading back, under the limits [l], what can be written under them, with
    fuel for the values and items of the value: a value, the items of a list
    after its bracket, the members of a dictionary after its brace. *)
Lemma scan_dumps (l : Json.limits) (n : nat) :
  (forall room v text rest,
     (weight v <= n)%nat -> plain v -> Json.encode_value l room v = Ret text ->
     value_end rest = true ->
     Json.scan_once l n room (text ++ rest) = Ret (v, rest))
  /\ (forall room x items chunks rest,
        (items_weight (x :: items) <= n)%nat -> Forall plain (x :: items) ->
        dumps_items l room (x :: items) = Ret chunks ->
        Json.array_items l n room (join (lit ", ") chunks ++ 93 :: rest)
        = Ret (x :: items, rest))
  /\ (forall room kx items chunks rest,
        (members_weight (kx :: items) <= n)%nat ->
        Forall (fun kx => is_text (fst kx) = true /\ plain (snd kx)) (kx :: items) ->
        dumps_members l room (kx :: items) = Ret chunks ->
        Json.object_items l n room (join (lit ", ") chunks ++ 125 :: rest)
        = Ret (kx :: items, rest)).
Proof.
  induction n as [|n (IHv & IHa & IHo)].
  { repeat split.
    - intros room v ? ? Hw. pose proof (weight_pos v). lia.
    - intros room x items ? ? Hw. cbn in Hw. lia.
    - intros room kx items ? ? Hw. cbn in Hw. lia. }
  repeat split.
  - (* a value *)
    intros room v text rest Hw Hp Hd Hr.
    destruct Hp as [|b|z|d Hfl|neg|s Hs|items Hi|items Hn Hi].
    + apply Ret_inj in Hd as <-. reflexivity.
    + destruct b; apply Ret_inj in Hd as <-; reflexivity.
    + apply int_repr_ret in Hd as [-> Hl].
      destruct (print_int_head (Z.to_int z) (to_int_canonical z)) as (c & t & Ht & Hc).
      pose proof (match_number_int l z rest Hl Hr) as Hm.
      rewrite Ht in *. cbn [app] in *.
      now apply scan_once_number.
    + change (Json.encode_value l room (PFloat (Finite d)))
        with (Ret (Json.float_repr (Finite d))) in Hd.
      apply Ret_inj in Hd. subst text.
      pose proof (match_number_float l d rest Hfl Hr) as Hm.
      apply andb_true_iff in Hfl as [Hshape _].
      destruct (float_repr_head d Hshape) as (i & tail & Hi & Hcan).
      destruct (print_int_head i Hcan) as (c & t & Hp' & Hc).
      rewrite Hi, Hp' in *. cbn [app] in *.
      now apply scan_once_number.
    + destruct neg; apply Ret_inj in Hd as <-; reflexivity.
    + apply Ret_inj in Hd as <-. unfold Json.encode_basestring_ascii.
      cbn [app]. rewrite <- app_assoc. cbn [app Json.scan_once].
      change (34 =? 34) with true. cbv iota.
      now rewrite scanstring_escaped.
    + apply encode_list_ret in Hd as (room' & chunks & -> & Hc & ->).
      cbn [app]. rewrite <- app_assoc. cbn [app].
      destruct items as [|x items].
      { injection Hc as <-. reflexivity. }
      destruct (dumps_items_cons _ _ _ _ _ Hc) as (sx & sl & Hx & Hl & ->).
      destruct (dumps_head l room' x sx) as (c & t & -> & Hstart);
        [now apply Forall_inv in Hi | assumption |].
      assert (join (lit ", ") ((c :: t) :: sl) ++ 93 :: rest
              = c :: (t ++ match sl with
                           | [] => 93 :: rest
                           | _ :: _ => 44 :: 32 :: join (lit ", ") sl ++ 93 :: rest
                           end)) as Hshape by now rewrite join_tail.
      rewrite Hshape, scan_once_array by assumption. rewrite <- Hshape.
      rewrite (IHa room' x items ((c :: t) :: sl) rest); [reflexivity | | assumption..].
      cbn [weight] in Hw. unfold items_weight. lia.
    + apply encode_dict_ret in Hd as (room' & chunks & -> & Hc & ->).
      cbn [app]. rewrite <- app_assoc. cbn [app].
      destruct items as [|[k x] items].
      { injection Hc as <-. reflexivity. }
      destruct (dumps_members_cons _ _ _ _ _ _ Hc) as (sx & sl & Hx & Hl & ->).
      assert (join (lit ", ")
                ((34 :: flat_map Json.escape_codepoint k ++ 34 :: 58 :: 32 :: sx) :: sl)
              ++ 125 :: rest
              = 34 :: ((flat_map Json.escape_codepoint k ++ 34 :: 58 :: 32 :: sx)
                       ++ match sl with
                          | [] => 125 :: rest
                          | _ :: _ => 44 :: 32 :: join (lit ", ") sl ++ 125 :: rest
                          end)) as Hshape by now rewrite join_tail.
      rewrite Hshape, scan_once_object by reflexivity. rewrite <- Hshape.
      rewrite (IHo room' (k, x) items _ rest); [| |assumption..].
      * cbn [bind fst snd]. now rewrite dict_of_distinct_pairs.
      * cbn [weight] in Hw. unfold members_weight. lia.
  - (* the items of a list *)
    intros room x items chunks rest Hw Hp Hd.
    destruct (dumps_items_cons _ _ _ _ _ Hd) as (sx & sl & Hx & Hl & ->).
    apply Forall_cons_iff in Hp as [Hpx Hp].
    cbn [items_weight fold_right] in Hw. fold (items_weight items) in Hw.
    rewrite join_tail. cbn [Json.array_items].
    destruct items as [|y items].
    + injection Hl as <-.
      rewrite (IHv room x sx (93 :: rest)); [reflexivity | lia | assumption..| reflexivity].
    + destruct (dumps_items_cons _ _ _ _ _ Hl) as (sy & sl' & Hy & Hl' & ->).
      rewrite (IHv room x sx); [| lia | assumption.. | reflexivity].
      cbn [bind Json.skip_ws]. change (Json.whitespace 44) with false. cbv iota.
      change (44 =? 93) with false. change (44 =? 44) with true. cbv iota.
      destruct (dumps_head l room y sy) as (c & t & -> & Hstart);
        [now apply Forall_inv in Hp | assumption |].
      assert (join (lit ", ") ((c :: t) :: sl') ++ 93 :: rest
              = c :: (t ++ match sl' with
                           | [] => 93 :: rest
                           | _ :: _ => 44 :: 32 :: join (lit ", ") sl' ++ 93 :: rest
                           end)) as Hshape by now rewrite join_tail.
      rewrite Hshape, skip_ws_space by assumption. rewrite <- Hshape.
      rewrite (IHa room y items ((c :: t) :: sl') rest); [reflexivity | lia | assumption..].
  - (* the members of a dictionary *)
    intros room [k x] items chunks rest Hw Hp Hd.
    destruct (dumps_members_cons _ _ _ _ _ _ Hd) as (sx & sl & Hx & Hl & ->).
    apply Forall_cons_iff in Hp as [[Hk Hpx] Hp]. cbn [fst snd] in Hk, Hpx.
    cbn [members_weight fold_right snd] in Hw. fold (members_weight items) in Hw.
    rewrite join_tail. cbn [app Json.object_items].
    change (34 =? 34) with true. cbv iota.
    rewrite <- app_assoc. cbn [app].
    rewrite scanstring_escaped by assumption.
    cbn [bind Json.skip_ws]. change (Json.whitespace 58) with false. cbv iota.
    change (58 =? 58) with true. cbv iota.
    destruct (dumps_head l room x sx Hpx Hx) as (c & t & -> & Hstart).
    cbn [app]. rewrite skip_ws_space by assumption.
    destruct items as [|[k' y] items].
    + injection Hl as <-.
      change (c :: t ++ ?tail) with ((c :: t) ++ tail).
      rewrite (IHv room x (c :: t) (125 :: rest));
        [reflexivity | lia | assumption.. | reflexivity].
    + destruct (dumps_members_cons _ _ _ _ _ _ Hl) as (sy & sl' & Hy & Hl' & ->).
      change (c :: t ++ ?tail) with ((c :: t) ++ tail).
      rewrite (IHv room x (c :: t)); [| lia | assumption.. | reflexivity].
      cbn [bind Json.skip_ws]. change (Json.whitespace 44) with false. cbv iota.
      change (44 =? 125) with false. change (44 =? 44) with true. cbv iota.
      assert (join (lit ", ")
                ((34 :: flat_map Json.escape_codepoint k' ++ 34 :: 58 :: 32 :: sy) :: sl')
              ++ 125 :: rest
              = 34 :: ((flat_map Json.escape_codepoint k' ++ 34 :: 58 :: 32 :: sy)
                       ++ match sl' with
                          | [] => 125 :: rest
                          | _ :: _ => 44 :: 32 :: join (lit ", ") sl' ++ 125 :: rest
                          end)) as Hshape by now rewrite join_tail.
      rewrite Hshape, skip_ws_space by reflexivity. rewrite <- Hshape.
      rewrite (IHo room (k', y) items _ rest); [reflexivity | lia | assumption..].
Qed.

Lemma join_length (sx : pystr) (sl : list pystr) :
  length (join (lit ", ") (sx :: sl))
  = (length sx + match sl with
                 | [] => 0
                 | _ :: _ => 2 + length (join (lit ", ") sl)
                 end)%nat.
Proof.
  destruct sl as [|sy sl]; cbn [join]; [lia|].
  rewrite !length_app. reflexivity.
Qed.

(** The text of a plain value has at least one character for each value and
    item in it. *)
Lemma encode_length (l : Json.limits) (n : nat) (room : nat) (v : pyval) (text : pystr) :
  (weight v <= n)%nat -> plain v -> Json.encode_value l room v = Ret text ->
  (weight v <= length text)%nat.
Proof.
  revert room v text. induction n as [|n IH]; intros room v text Hw Hp Hd.
  { pose proof (weight_pos v). lia. }
  assert (1 <= length text)%nat as Hone.
  { destruct (dumps_head l room v text Hp Hd) as (c & t & -> & _). cbn. lia. }
  destruct Hp as [|b|z|d Hfl|neg|s Hs|items Hi|items Hn Hi]; try exact Hone.
  - (* a list *)
    apply encode_list_ret in Hd as (room' & chunks & -> & Hc & ->).
    assert (items_weight items <= length (join (lit ", ") chunks) + 1)%nat as Hlen.
    { cbn [weight] in Hw. fold (items_weight items) in Hw. clear Hone.
      revert chunks Hc. induction items as [|x items IHitems]; intros chunks Hc;
        [cbn; lia|].
      apply Forall_cons_iff in Hi as [Hx Hi].
      cbn [items_weight fold_right] in Hw |- *. fold (items_weight items) in Hw |- *.
      apply dumps_items_cons in Hc as (sx & sl & Hsx & Hsl & ->).
      pose proof (IH room' x sx ltac:(lia) Hx Hsx) as Hlx.
      pose proof (IHitems ltac:(lia) Hi sl Hsl) as Hll.
      rewrite join_length. destruct sl as [|sy sl].
      - destruct items as [|y items]; [cbn in *; lia|].
        apply dumps_items_cons in Hsl as (? & ? & _ & _ & E). discriminate E.
      - lia. }
    cbn [weight length]. fold (items_weight items). rewrite length_app. cbn [length]. lia.
  - (* a dictionary *)
    apply encode_dict_ret in Hd as (room' & chunks & -> & Hc & ->).
    assert (members_weight items <= length (join (lit ", ") chunks) + 1)%nat as Hlen.
    { cbn [weight] in Hw. fold (members_weight items) in Hw. clear Hone Hn.
      revert chunks Hc. induction items as [|[k x] items IHitems]; intros chunks Hc;
        [cbn; lia|].
      apply Forall_cons_iff in Hi as [[_ Hx] Hi]. cbn [snd] in Hx.
      cbn [members_weight fold_right snd] in Hw |- *.
      fold (members_weight items) in Hw |- *.
      apply dumps_members_cons in Hc as (sx & sl & Hsx & Hsl & ->).
      pose proof (IH room' x sx ltac:(lia) Hx Hsx) as Hlx.
      pose proof (IHitems ltac:(lia) Hi sl Hsl) as Hll.
      rewrite join_length. cbn [length]. rewrite !length_app. cbn [length].
      destruct sl as [|sy sl].
      - destruct items as [|[k' y] items]; [cbn in *; lia|].
        apply dumps_members_cons in Hsl as (? & ? & _ & _ & E). discriminate E.
      - lia. }
    cbn [weight length]. fold (members_weight items). rewrite length_app. cbn [length]. lia.
Qed.

Lemma max_le_both (a b c : nat) : (Nat.max a b <= c)%nat -> (a <= c /\ b <= c)%nat.
Proof. lia. Qed.

(** The text of a value does not depend on the limits under which it is
    written: what was written under some limits is what is written under
    others that leave room for the value. *)
Lemma encode_within (l0 l : Json.limits) (n : nat) :
  forall room0 room v text,
    (weight v <= n)%nat -> Json.encode_value l0 room0 v = Ret text ->
    (depth v <= room)%nat -> ints_fit l v = true ->
    Json.encode_value l room v = Ret text.
Proof.
  induction n as [|n IH]; intros room0 room v text Hw Hd Hr Hi.
  { pose proof (weight_pos v). lia. }
  destruct v as [|b|z|f|s|items|items|bs]; try exact Hd.
  - apply int_repr_ret in Hd as [-> _]. cbn [ints_fit] in Hi.
    apply negb_true_iff in Hi. cbn [Json.encode_value]. unfold Json.int_repr.
    now rewrite Hi.
  - apply encode_list_ret in Hd as (room0' & chunks & -> & Hc & ->).
    destruct room as [|room']; [cbn [depth] in Hr; lia|].
    rewrite encode_list.
    assert (dumps_items l room' items = Ret chunks) as ->; [|reflexivity].
    cbn [weight] in Hw. fold (items_weight items) in Hw.
    cbn [depth] in Hr. apply le_S_n in Hr. cbn [ints_fit] in Hi.
    revert chunks Hc. induction items as [|x items IHitems]; intros chunks Hc;
      [exact Hc|].
    apply dumps_items_cons in Hc as (sx & sl & Hx & Hl & ->).
    cbn [items_weight fold_right] in Hw. fold (items_weight items) in Hw.
    cbn [fold_right] in Hr. apply max_le_both in Hr as [Hrx Hr].
    cbn [forallb] in Hi. apply andb_true_iff in Hi as [Hix Hi].
    cbn [dumps_items].
    rewrite (IH room0' room' x sx ltac:(lia) Hx Hrx Hix).
    now rewrite (IHitems ltac:(lia) Hr Hi sl Hl).
  - apply encode_dict_ret in Hd as (room0' & chunks & -> & Hc & ->).
    destruct room as [|room']; [cbn [depth] in Hr; lia|].
    rewrite encode_dict.
    assert (dumps_members l room' items = Ret chunks) as ->; [|reflexivity].
    cbn [weight] in Hw. fold (members_weight items) in Hw.
    cbn [depth] in Hr. apply le_S_n in Hr. cbn [ints_fit] in Hi.
    revert chunks Hc. induction items as [|[k x] items IHitems]; intros chunks Hc;
      [exact Hc|].
    apply dumps_members_cons in Hc as (sx & sl & Hx & Hl & E).
    cbn [members_weight fold_right snd] in Hw. fold (members_weight items) in Hw.
    cbn [fold_right snd] in Hr. apply max_le_both in Hr as [Hrx Hr].
    cbn [forallb snd] in Hi. apply andb_true_iff in Hi as [Hix Hi].
    cbn [dumps_members].
    rewrite (IH room0' room' x sx ltac:(lia) Hx Hrx Hix).
    rewrite (IHitems ltac:(lia) Hr Hi sl Hl). cbn [bind]. f_equal. rewrite E.
    f_equal. unfold Json.encode_basestring_ascii. cbn [app]. now rewrite <- app_assoc.
Qed.

(** Whatever the limits, the text is the same when there is one. *)
Lemma encode_same (l1 l2 : Json.limits) (n : nat) :
  forall room1 room2 v t1 t2,
    (weight v <= n)%nat -> Json.encode_value l1 room1 v = Ret t1 ->
    Json.encode_value l2 room2 v = Ret t2 -> t1 = t2.
Proof.
  induction n as [|n IH]; intros room1 room2 v t1 t2 Hw H1 H2.
  { pose proof (weight_pos v). lia. }
  destruct v as [|b|z|f|s|items|items|bs];
    try (apply Ret_inj; rewrite <- H1, <- H2; reflexivity).
  - apply int_repr_ret in H1 as [-> _]. now apply int_repr_ret in H2 as [-> _].
  - apply encode_list_ret in H1 as (room1' & c1 & _ & Hc1 & ->).
    apply encode_list_ret in H2 as (room2' & c2 & _ & Hc2 & ->).
    assert (c1 = c2) as ->; [|reflexivity].
    cbn [weight] in Hw. fold (items_weight items) in Hw.
    revert c1 c2 Hc1 Hc2. induction items as [|x items IHitems]; intros c1 c2 Hc1 Hc2.
    + apply Ret_inj in Hc1, Hc2. congruence.
    + apply dumps_items_cons in Hc1 as (sx1 & sl1 & Hx1 & Hl1 & ->).
      apply dumps_items_cons in Hc2 as (sx2 & sl2 & Hx2 & Hl2 & ->).
      cbn [items_weight fold_right] in Hw. fold (items_weight items) in Hw.
      rewrite (IH _ _ x sx1 sx2 ltac:(lia) Hx1 Hx2).
      now rewrite (IHitems ltac:(lia) sl1 sl2 Hl1 Hl2).
  - apply encode_dict_ret in H1 as (room1' & c1 & _ & Hc1 & ->).
    apply encode_dict_ret in H2 as (room2' & c2 & _ & Hc2 & ->).
    assert (c1 = c2) as ->; [|reflexivity].
    cbn [weight] in Hw. fold (members_weight items) in Hw.
    revert c1 c2 Hc1 Hc2. induction items as [|[k x] items IHitems]; intros c1 c2 Hc1 Hc2.
    + apply Ret_inj in Hc1, Hc2. congruence.
    + apply dumps_members_cons in Hc1 as (sx1 & sl1 & Hx1 & Hl1 & ->).
      apply dumps_members_cons in Hc2 as (sx2 & sl2 & Hx2 & Hl2 & ->).
      cbn [members_weight fold_right snd] in Hw. fold (members_weight items) in Hw.
      rewrite (IH _ _ x sx1 sx2 ltac:(lia) Hx1 Hx2).
      now rewrite (IHitems ltac:(lia) sl1 sl2 Hl1 Hl2).
Qed.

Lemma dumps_same (l1 l2 : Json.limits) (v : pyval) (t1 t2 : pystr) :
  Json.dumps l1 v = Ret t1 -> Json.dumps l2 v = Ret t2 -> t1 = t2.
Proof. intros H1 H2. exact (encode_same l1 l2 _ _ _ v t1 t2 (le_n _) H1 H2). Qed.

(** [json.loads] reads back what [json.dumps] wrote of a plain value, when
    the interpreter has room for the value at the time of the read. *)
Lemma loads_dumps (l0 l : Json.limits) (v : pyval) (text : pystr) :
  plain v -> Json.dumps l0 v = Ret text -> within l v = true ->
  Json.loads l text = Ret v.
Proof.
  intros Hp Hd Hin. unfold within in Hin. apply andb_true_iff in Hin as [Hr Hi].
  apply Nat.leb_le in Hr.
  assert (Json.encode_value l (Json.recursion_room l) v = Ret text) as Hd'
    by exact (encode_within l0 l _ _ _ v text (le_n _) Hd Hr Hi).
  pose proof (encode_length l _ _ v text (le_n _) Hp Hd') as Hlen.
  destruct (dumps_head l _ v text Hp Hd') as (c & t & Ht & Hstart).
  unfold Json.loads. rewrite Ht at 1.
  destruct (value_start_facts c Hstart) as (_ & _ & _ & ->). cbv zeta iota.
  rewrite Ht at 2. rewrite skip_ws_start by assumption. rewrite <- Ht.
  rewrite <- (app_nil_r text) at 2.
  destruct (scan_dumps l (S (length text))) as (Hscan & _).
  rewrite (Hscan _ v text []); [reflexivity | lia | assumption.. | reflexivity].
Qed.

Lemma result_dict_plain (r : LLMReviewResult) : well_formed r -> plain (result_dict r).
Proof.
  intros (Hc & Hp & Hm & He). unfold result_dict. constructor.
  - cbn [List.map fst]. apply NoDup_ListNoDup.
    repeat (constructor; [cbn; intuition discriminate|]). constructor.
  - repeat match goal with
           | |- Forall _ (_ :: _) => constructor
           | |- Forall _ [] => constructor
           end; (split; [reflexivity | cbn [snd]]);
      try (now constructor); unfold optional_int;
      match goal with |- plain (match ?o with _ => _ end) => destruct o end; constructor.
Qed.

(** *** The characters of a text that was written *)

Lemma forallb_impl (f g : N -> bool) (s : pystr) :
  (forall c, f c = true -> g c = true) -> forallb f s = true -> forallb g s = true.
Proof.
  intros Hfg. induction s as [|c s IH]; [reflexivity|]. cbn [forallb].
  intros H. apply andb_true_iff in H as [Hc Hs]. now rewrite (Hfg c Hc), IH.
Qed.

Lemma lower_hex_printable (c : N) : lower_hex c = true -> printable c = true.
Proof.
  unfold lower_hex, printable. intros H.
  apply orb_true_iff in H as [H|H]; apply andb_true_iff in H as [H1 H2];
    apply N.leb_le in H1, H2; apply andb_true_iff; split; apply N.leb_le; lia.
Qed.

Lemma digit_printable (c : N) : Json.digit_char c = true -> printable c = true.
Proof.
  unfold Json.digit_char, printable. intros H. apply andb_true_iff in H as [H1 H2].
  apply N.leb_le in H1, H2. apply andb_true_iff. split; apply N.leb_le; lia.
Qed.

Lemma printable_scalar (c : N) : printable c = true -> scalar_value c = true.
Proof.
  unfold printable, scalar_value. intros H. apply andb_true_iff in H as [H1 H2].
  apply N.leb_le in H1, H2. apply orb_true_iff. left. apply N.ltb_lt. lia.
Qed.

Lemma print_uint_printable (u : Decimal.uint) :
  forallb printable (Json.print_uint u) = true.
Proof. exact (forallb_impl _ _ _ digit_printable (print_uint_digits u)). Qed.

Lemma print_int_printable (i : Decimal.int) : forallb printable (Json.print_int i) = true.
Proof. destruct i; cbn [Json.print_int forallb]; now rewrite print_uint_printable. Qed.

Lemma float_repr_printable (f : pyfloat) : forallb printable (Json.float_repr f) = true.
Proof.
  destruct f as [[i frac|i frac e]|[|]|]; try reflexivity; cbn [Json.float_repr].
  - destruct frac; rewrite ?forallb_app; cbn [forallb];
      now rewrite print_int_printable, ?print_uint_printable.
  - rewrite !forallb_app, print_int_printable.
    assert (forallb printable
              match frac with
              | Decimal.Nil => []
              | _ => 46 :: Json.print_uint frac
              end = true) as ->
      by (destruct frac; cbn [forallb]; now rewrite ?print_uint_printable).
    destruct e; cbn [forallb]; now rewrite print_uint_printable.
Qed.

Lemma hex4_printable (n : N) : n < 0x10000 -> forallb printable (Json.hex4 n) = true.
Proof.
  intros Hn. unfold Json.hex4. cbn [forallb].
  rewrite !lower_hex_printable; [reflexivity|..]; apply hex_digit_lower; lia.
Qed.

Lemma escape_codepoint_printable (c : N) :
  forallb printable (Json.escape_codepoint c) = true.
Proof.
  unfold Json.escape_codepoint.
  destruct (c =? 34); [reflexivity|].
  destruct (c =? 92); [reflexivity|].
  destruct ((32 <=? c) && (c <=? 126)) eqn:Hp;
    [cbn [forallb]; unfold printable; now rewrite Hp|].
  destruct (c =? 8); [reflexivity|].
  destruct (c =? 12); [reflexivity|].
  destruct (c =? 10); [reflexivity|].
  destruct (c =? 13); [reflexivity|].
  destruct (c =? 9); [reflexivity|].
  destruct (N.ltb_spec c 0x10000) as [Hc|Hc].
  - cbn [forallb]. now rewrite hex4_printable.
  - cbv zeta. cbn [forallb]. rewrite forallb_app. cbn [forallb].
    rewrite !hex4_printable; [reflexivity|lia..].
Qed.

Lemma escaped_printable (s : pystr) :
  forallb printable (flat_map Json.escape_codepoint s) = true.
Proof.
  induction s as [|c s IH]; [reflexivity|].
  cbn [flat_map]. now rewrite forallb_app, escape_codepoint_printable.
Qed.

Lemma encode_basestring_printable (s : pystr) :
  forallb printable (Json.encode_basestring_ascii s) = true.
Proof.
  unfold Json.encode_basestring_ascii. cbn [forallb]. rewrite forallb_app.
  cbn [forallb]. now rewrite escaped_printable.
Qed.

Lemma join_printable (chunks : list pystr) :
  Forall (fun s => forallb printable s = true) chunks ->
  forallb printable (join (lit ", ") chunks) = true.
Proof.
  induction 1 as [|s chunks Hs Hc IH]; [reflexivity|].
  destruct chunks as [|t chunks]; [exact Hs|].
  change (join (lit ", ") (s :: t :: chunks))
    with (s ++ lit ", " ++ join (lit ", ") (t :: chunks)).
  rewrite !forallb_app, Hs, IH. reflexivity.
Qed.

(** With [ensure_ascii], the text of every value that [json.dumps] can
    write is made of printable characters of ASCII. *)
Lemma encode_printable (l : Json.limits) (n : nat) :
  forall room v text,
    (weight v <= n)%nat -> Json.encode_value l room v = Ret text ->
    forallb printable text = true.
Proof.
  induction n as [|n IH]; intros room v text Hw Hd.
  { pose proof (weight_pos v). lia. }
  destruct v as [|[|]|z|f|s|items|items|bs]; try (apply Ret_inj in Hd; subst text);
    try reflexivity.
  - apply int_repr_ret in Hd as [-> _]. apply print_int_printable.
  - apply float_repr_printable.
  - apply encode_basestring_printable.
  - apply encode_list_ret in Hd as (room' & chunks & -> & Hc & ->).
    cbn [forallb]. rewrite forallb_app. cbn [forallb andb].
    rewrite andb_true_r. apply join_printable.
    cbn [weight] in Hw. fold (items_weight items) in Hw.
    revert chunks Hc. induction items as [|x items IHitems]; intros chunks Hc.
    + apply Ret_inj in Hc. subst chunks. constructor.
    + apply dumps_items_cons in Hc as (sx & sl & Hx & Hl & ->).
      cbn [items_weight fold_right] in Hw. fold (items_weight items) in Hw.
      constructor; [apply (IH room' x); [lia | exact Hx] | apply IHitems; [lia | exact Hl]].
  - apply encode_dict_ret in Hd as (room' & chunks & -> & Hc & ->).
    cbn [forallb]. rewrite forallb_app. cbn [forallb andb].
    rewrite andb_true_r. apply join_printable.
    cbn [weight] in Hw. fold (members_weight items) in Hw.
    revert chunks Hc. induction items as [|[k x] items IHitems]; intros chunks Hc.
    + apply Ret_inj in Hc. subst chunks. constructor.
    + apply dumps_members_cons in Hc as (sx & sl & Hx & Hl & ->).
      cbn [members_weight fold_right snd] in Hw. fold (members_weight items) in Hw.
      constructor; [|apply IHitems; [lia | exact Hl]].
      cbn [forallb]. rewrite forallb_app. cbn [forallb andb].
      rewrite (IH room' x sx) by (lia || exact Hx).
      now rewrite escaped_printable.
  - discriminate Hd.
Qed.

Lemma dumps_printable (l : Json.limits) (v : pyval) (text : pystr) :
  Json.dumps l v = Ret text -> forallb printable text = true.
Proof. exact (encode_printable l _ _ v text (le_n _)). Qed.

Lemma dumps_text (l : Json.limits) (v : pyval) (text : pystr) :
  Json.dumps l v = Ret text -> is_text text = true.
Proof.
  intros Hd. exact (forallb_impl _ _ _ printable_scalar (dumps_printable l v text Hd)).
Qed.

(** *** The limits of the interpreter, as CPython keeps them *)

(** A thousand lists one in another are read with a thousand levels of room,
    and not with one less; the integer of 4301 digits is not read under the
    limit of 4300 digits, and is read without a limit; a literal beyond the
    largest float is read as an infinity. *)
Example loads_limits :
  let deep := repeat 91 1000 ++ repeat 93 1000 in
  (exists v, Json.loads (Json.Limits 1000 4300) deep = Ret v)
  /\ Json.loads (Json.Limits 999 4300) deep = Raise RecursionError
  /\ Json.loads Json.default_limits (repeat 49 4301) = Raise ValueError
  /\ (exists v, Json.loads Json.default_limits (repeat 49 4300) = Ret v)
  /\ (exists v, Json.loads (Json.Limits 1000 0) (repeat 49 4301) = Ret v)
  /\ Json.loads Json.default_limits (lit "1e999") = Ret (PFloat (Infinity false))
  /\ Json.loads Json.default_limits (lit "-1e999") = Ret (PFloat (Infinity true))
  /\ Json.loads Json.default_limits (lit "1.7976931348623157e308")
     = Ret (PFloat (Finite (Decimal.DecimalExp
                      (Decimal.Pos (Decimal.D1 Decimal.Nil))
                      (Json.uint_of_digits (lit "7976931348623157"))
                      (Decimal.Pos (Decimal.D3 (Decimal.D0 (Decimal.D8 Decimal.Nil)))))))
  /\ Json.loads Json.default_limits (lit "1.7976931348623159e308")
     = Ret (PFloat (Infinity false)).
Proof.
  cbv zeta. repeat split; try (vm_compute; reflexivity);
    eexists; vm_compute; reflexivity.
Qed.

(** The same limits on the way out. *)
Example dumps_limits :
  Json.dumps (Json.Limits 1 4300) (PList [PList []]) = Raise RecursionError
  /\ Json.dumps (Json.Limits 2 4300) (PList [PList []]) = Ret (lit "[[]]")
  /\ Json.dumps (Json.Limits 1000 5) (PInt 100000) = Raise ValueError
  /\ Json.dumps (Json.Limits 1000 5) (PInt (-99999)) = Ret (lit "-99999")
  /\ Json.dumps (Json.Limits 1000 0) (PInt 100000) = Ret (lit "100000")
  /\ Json.dumps Json.default_limits (PBytes []) = Raise TypeError.
Proof. repeat split; vm_compute; reflexivity. Qed.

End JsonFacts.

(** ** The store *)

Section StoreFacts.

Lemma get_db_path_run (w : world) : _get_db_path w = (Ret (configured_path w), w).
Proof.
  unfold _get_db_path, configured_path, seq, environ_get.
  destruct (environ w !! _DB_ENV_NAME) as [[|c v]|]; try reflexivity.
  destruct (strip (c :: v)); reflexivity.
Qed.

(** *** The lock *)

Lemma locked_by_other_spec (w : world) (conn : nat) (path : pystr) :
  locked_by_other w conn path = true
  <-> in_memory path = false
      /\ exists h rows, h <> conn /\ connections w !! h = Some (path, Some rows).
Proof.
  unfold locked_by_other. rewrite andb_true_iff, negb_true_iff, existsb_exists.
  split.
  - intros [Hm ([h [p tx]] & Hin & Hf)]. split; [exact Hm|].
    apply list_elem_of_In, elem_of_map_to_list in Hin.
    cbn [fst snd] in Hf. apply andb_true_iff in Hf as [Hh Hp].
    apply negb_true_iff, Nat.eqb_neq in Hh.
    unfold writes_on in Hp. cbn [fst snd] in Hp. apply andb_true_iff in Hp as [Hp Htx].
    apply bool_decide_eq_true_1 in Hp. subst p.
    destruct tx as [rows|]; [|discriminate Htx]. now exists h, rows.
  - intros [Hm (h & rows & Hh & Hl)]. split; [exact Hm|].
    exists (h, (path, Some rows)). split.
    + now apply list_elem_of_In, elem_of_map_to_list.
    + cbn [fst snd]. apply andb_true_iff. split.
      * now apply negb_true_iff, Nat.eqb_neq.
      * unfold writes_on. cbn [fst snd]. now rewrite bool_decide_eq_true_2.
Qed.

(** Whether [conn] meets the lock depends on the other connections only. *)
Lemma locked_by_other_frame (w w' : world) (conn : nat) (path : pystr) :
  (forall h, h <> conn -> connections w' !! h = connections w !! h) ->
  locked_by_other w' conn path = locked_by_other w conn path.
Proof.
  intros Hsame. apply eq_true_iff_eq. rewrite !locked_by_other_spec.
  split; intros [Hm (h & rows & Hh & Hl)]; (split; [exact Hm|]); exists h, rows;
    (split; [exact Hh|]); [rewrite <- Hsame | rewrite Hsame]; assumption.
Qed.

Lemma locked_memory (w : world) : volatile w = true -> locked w = false.
Proof. unfold volatile, locked, locked_by_other. now intros ->. Qed.

(** *** Opening the connection *)

Lemma with_table_other (conn : nat) (path : pystr) (w : world) (h : nat) :
  h <> conn -> connections (with_table conn path w) !! h = connections w !! h.
Proof.
  intros Hh. unfold with_table. destruct (in_memory path).
  - cbn [connections]. now apply lookup_insert_ne.
  - now destruct (tables w !! path).
Qed.

Lemma with_table_entries (conn : nat) (path p : pystr) (w : world) :
  entries (with_table conn path w) p = entries w p.
Proof.
  unfold with_table, entries. destruct (in_memory path); [reflexivity|].
  destruct (tables w !! path) eqn:E; [reflexivity|].
  cbn [tables]. destruct (decide (path = p)) as [<-|Hne].
  - now rewrite lookup_insert_eq, E.
  - now rewrite lookup_insert_ne.
Qed.

Lemma with_table_environ (conn : nat) (path : pystr) (w : world) :
  environ (with_table conn path w) = environ w.
Proof. unfold with_table. destruct (in_memory path); [reflexivity|]. now destruct (tables w !! path). Qed.

Lemma with_table_log (conn : nat) (path : pystr) (w : world) :
  log (with_table conn path w) = log w.
Proof. unfold with_table. destruct (in_memory path); [reflexivity|]. now destruct (tables w !! path). Qed.

Lemma with_table_opened (conn : nat) (path : pystr) (w : world) :
  opened (with_table conn path w) = opened w.
Proof. unfold with_table. destruct (in_memory path); [reflexivity|]. now destruct (tables w !! path). Qed.

(** The connection that [_get_connection] returns, and the table it made
    sure of. *)
Lemma with_table_connection (path : pystr) (w : world) :
  connections (with_table (opened w) path (connected path w)) !! opened w
  = Some (path, if in_memory path then Some [] else None).
Proof.
  unfold with_table. destruct (in_memory path).
  - cbn [connections]. apply lookup_insert_eq.
  - destruct (tables (connected path w) !! path); cbn [connections connected];
      apply lookup_insert_eq.
Qed.

Lemma with_table_tables (path : pystr) (w : world) :
  tables (with_table (opened w) path (connected path w))
  = if in_memory path then tables w
    else match tables w !! path with
         | Some _ => tables w
         | None => <[path := []]> (tables w)
         end.
Proof.
  unfold with_table. cbn [connected tables]. destruct (in_memory path); [reflexivity|].
  now destruct (tables w !! path).
Qed.

Lemma with_table_lookup (path : pystr) (w : world) :
  in_memory path = false ->
  tables (with_table (opened w) path (connected path w)) !! path = Some (entries w path).
Proof.
  intros Hm. rewrite with_table_tables, Hm. unfold entries.
  destruct (tables w !! path) eqn:E; [exact E | apply lookup_insert_eq].
Qed.

(** What a connection that [_get_connection] returned sees. *)
Lemma visible_fresh (w : world) :
  visible (with_table (opened w) (configured_path w) (connected (configured_path w) w))
          (opened w)
  = Ret (rows_seen w).
Proof.
  unfold visible, rows_seen, volatile. rewrite with_table_connection.
  destruct (in_memory (configured_path w)) eqn:Hm; [reflexivity|].
  now rewrite with_table_lookup.
Qed.

Lemma locked_fresh (w : world) :
  locked_by_other
    (with_table (opened w) (configured_path w) (connected (configured_path w) w))
    (opened w) (configured_path w)
  = locked w.
Proof.
  apply locked_by_other_frame. intros h Hh. rewrite with_table_other by exact Hh.
  cbn [connected connections]. now apply lookup_insert_ne.
Qed.

(** How [_get_connection] ends: with the exception of the first step that
    fails, the connection left open when that step is the creation of the
    table; or with a connection on the configured database, in which the
    table is there. *)
Lemma get_connection_run (b : behaviour) (w : world) :
  _get_connection b w =
  match dirname (configured_path w), makedirs_fault b with
  | _ :: _, Some e => (Raise e, w)
  | _, _ =>
    match connect_fault b with
    | Some e => (Raise e, w)
    | None =>
      match create_fault b with
      | Some e => (Raise e, connected (configured_path w) w)
      | None =>
        if create_blocked w then (Raise SqliteError, connected (configured_path w) w)
        else (Ret (opened w),
              with_table (opened w) (configured_path w) (connected (configured_path w) w))
      end
    end
  end.
Proof.
  unfold _get_connection. unfold seq at 1. rewrite get_db_path_run.
  set (path := configured_path w).
  assert ((let! conn := connect b path in let! _ := create_table b conn in ret conn) w
          = match connect_fault b with
            | Some e => (Raise e, w)
            | None =>
              match create_fault b with
              | Some e => (Raise e, connected path w)
              | None =>
                if create_blocked w then (Raise SqliteError, connected path w)
                else (Ret (opened w), with_table (opened w) path (connected path w))
              end
            end) as Hrest.
  { unfold seq, connect, create_table, failing, raise, ret, seq.
    destruct (connect_fault b); [reflexivity|].
    destruct (create_fault b); [reflexivity|].
    cbn [connections tables opened environ log]. rewrite lookup_insert_eq.
    unfold create_blocked, volatile, with_table. fold path.
    destruct (in_memory path) eqn:Hm; [reflexivity|]. cbn [negb andb].
    fold (connected path w). cbn [connected tables].
    destruct (tables w !! path) eqn:Ht.
    - now rewrite bool_decide_eq_false_2.
    - rewrite bool_decide_eq_true_2 by reflexivity. cbn [andb].
      assert (locked_by_other (connected path w) (opened w) path = locked w) as ->.
      { apply locked_by_other_frame. intros h Hh. cbn [connected connections].
        now apply lookup_insert_ne. }
      now destruct (locked w). }
  unfold seq at 1.
  destruct (dirname path) as [|c d].
  - unfold ret at 1. apply Hrest.
  - unfold makedirs, failing. destruct (makedirs_fault b); [reflexivity|].
    unfold ret at 1. apply Hrest.
Qed.

Lemma get_connection_ok (b : behaviour) (w : world) (conn : nat) (w1 : world) :
  _get_connection b w = (Ret conn, w1) ->
  setup_fault b w = None
  /\ conn = opened w
  /\ w1 = with_table (opened w) (configured_path w) (connected (configured_path w) w).
Proof.
  rewrite get_connection_run. unfold setup_fault.
  destruct (dirname (configured_path w)), (makedirs_fault b), (connect_fault b),
    (create_fault b), (create_blocked w); intros E; try discriminate E;
    now injection E as <- <-.
Qed.

Lemma get_connection_raise (b : behaviour) (w : world) (e : exn) (w1 : world) :
  _get_connection b w = (Raise e, w1) ->
  setup_fault b w = Some e
  /\ tables w1 = tables w
  /\ (w1 = w \/ w1 = connected (configured_path w) w).
Proof.
  rewrite get_connection_run. unfold setup_fault.
  destruct (dirname (configured_path w)), (makedirs_fault b), (connect_fault b),
    (create_fault b), (create_blocked w); intros E; try discriminate E;
    injection E as <- <-; auto.
Qed.

(** *** The two calls, path by path *)

Lemma bind_key (provider model : pystr) (changes : list GitDiffChange) (rest : list pystr) :
  forallb textual changes = true ->
  forallb (forallb scalar_value) (provider :: model :: fingerprint changes :: rest)
  = bindable provider model && forallb (forallb scalar_value) rest.
Proof.
  intros Ht. destruct (fingerprint_shape changes Ht) as (_ & _ & Hh).
  cbn [forallb]. fold (is_text provider) (is_text model) (is_text (fingerprint changes)).
  rewrite Hh. unfold bindable. cbn [andb]. now rewrite andb_assoc.
Qed.

(** [get_cached_review_for_changes], path by path. *)
Lemma get_run (b : behaviour) (provider model : pystr) (changes : list GitDiffChange)
    (w : world) :
  get_cached_review_for_changes b provider model changes w =
  if forallb textual changes then
    match _get_connection b w with
    | (Raise _, w1) => (Ret PNone, logged read_failed w1)
    | (Ret conn, w1) =>
      let '(r, w2) :=
        if bindable provider model then
          match select_fault b with
          | Some _ => (PNone, logged read_failed w1)
          | None =>
            match stored w (provider, model, fingerprint changes) with
            | None => (PNone, w1)
            | Some payload =>
              match Json.loads (interpreter b) payload with
              | Ret data => (data, w1)
              | Raise _ => (PNone, logged read_failed w1)
              end
            end
          end
        else (PNone, logged read_failed w1) in
      (Ret r, match close_fault b with Some _ => w2 | None => closed conn w2 end)
    end
  else (Raise UnicodeEncodeError, w).
Proof.
  unfold get_cached_review_for_changes.
  unfold seq at 1, resume at 1. rewrite build_diff_hash_fingerprint.
  destruct (forallb textual changes) eqn:Ht; [|reflexivity].
  pose proof (bind_key provider model changes [] Ht) as Hbind.
  revert Hbind. generalize (fingerprint changes). intros h Hbind.
  unfold seq at 1. unfold attempt.
  destruct (_get_connection b w) as [[conn|e] w1] eqn:Hc.
  - apply get_connection_ok in Hc as (_ & -> & ->).
    set (path := configured_path w).
    unfold try_finally, try_except at 1, seq at 1, resume at 1.
    unfold seq at 1, select_one, seq at 1, bind_parameters. cbn [fst snd].
    rewrite Hbind. cbn [forallb]. rewrite andb_true_r.
    destruct (bindable provider model).
    + unfold ret at 1. unfold seq at 1, failing.
      destruct (select_fault b) as [e|].
      * unfold raise at 1. cbn [seq logger_exception ret].
        unfold try_except, seq, local, ret, close, seq, failing.
        destruct (close_fault b); reflexivity.
      * unfold ret at 1. unfold path. rewrite visible_fresh.
        unfold stored, rows_seen, has_key.
        destruct (volatile w); cbn [List.find fmap option_fmap option_map].
        { unfold ret at 1. unfold try_except, seq, local, ret, close, seq, failing.
          destruct (close_fault b); reflexivity. }
        destruct (List.find (λ r : row, bool_decide (row_key r = (provider, model, h)))
                    (entries w (configured_path w))) as [r|];
          cbn [fmap option_fmap option_map].
        -- unfold seq at 1, resume at 1.
           destruct (Json.loads (interpreter b) (row_json r)) as [data|e].
           ++ unfold ret at 1. unfold try_except, seq, local, ret, close, seq, failing.
              destruct (close_fault b); reflexivity.
           ++ unfold seq, logger_exception, ret.
              unfold try_except, local, ret, close, seq, failing.
              destruct (close_fault b); reflexivity.
        -- unfold ret at 1. unfold try_except, seq, local, ret, close, seq, failing.
           destruct (close_fault b); reflexivity.
    + unfold raise at 1. cbn [seq logger_exception ret].
      unfold try_except, seq, local, ret, close, seq, failing.
      destruct (close_fault b); reflexivity.
  - unfold try_finally, try_except, seq, resume, local, raise, logger_exception, ret.
    reflexivity.
Qed.

(** [put_cached_review_for_changes], path by path. *)
Lemma put_run (b : behaviour) (provider model : pystr) (changes : list GitDiffChange)
    (result : pyval) (w : world) :
  put_cached_review_for_changes b provider model changes result w =
  if forallb textual changes then
    match _get_connection b w with
    | (Raise _, w1) => (Ret tt, logged write_failed w1)
    | (Ret conn, w1) =>
      let path := configured_path w in
      let w2 :=
        match Json.dumps (interpreter b) result with
        | Raise _ => logged write_failed w1
        | Ret payload =>
          let rows := upsert (provider, model, fingerprint changes) payload (rows_seen w) in
          if bindable provider model then
            match insert_fault b with
            | Some _ => logged write_failed w1
            | None =>
              if locked w then logged write_failed w1
              else
                match commit_fault b with
                | Some _ => logged write_failed (in_transaction conn path rows w1)
                | None =>
                  if volatile w then in_transaction conn path rows w1
                  else committed conn path rows (in_transaction conn path rows w1)
                end
            end
          else logged write_failed w1
        end in
      (Ret tt, match close_fault b with Some _ => w2 | None => closed conn w2 end)
    end
  else (Raise UnicodeEncodeError, w).
Proof.
  unfold put_cached_review_for_changes.
  unfold seq at 1, resume at 1. rewrite build_diff_hash_fingerprint.
  destruct (forallb textual changes) eqn:Ht; [|reflexivity].
  assert (forall payload, is_text payload = true ->
          forallb (forallb scalar_value) [provider; model; fingerprint changes; payload]
          = bindable provider model) as Hbind.
  { intros payload Hp. rewrite (bind_key provider model changes [payload] Ht).
    cbn [forallb]. fold (is_text payload). rewrite Hp. cbn [andb]. apply andb_true_r. }
  revert Hbind. generalize (fingerprint changes). intros h Hbind.
  unfold seq at 1. unfold attempt.
  destruct (_get_connection b w) as [[conn|e] w1] eqn:Hc.
  - apply get_connection_ok in Hc as (_ & -> & ->).
    set (path := configured_path w). cbv zeta.
    set (w1 := with_table (opened w) path (connected path w)).
    assert (connections w1 !! opened w
            = Some (path, if in_memory path then Some [] else None)) as Hconn
      by apply with_table_connection.
    assert (visible w1 (opened w) = Ret (rows_seen w)) as Hvis by apply visible_fresh.
    assert (locked_by_other w1 (opened w) path = locked w) as Hlock by apply locked_fresh.
    unfold try_finally, try_except at 1, seq at 1, resume at 1.
    unfold seq at 1, resume at 1.
    destruct (Json.dumps (interpreter b) result) as [payload|e] eqn:Hd.
    + unfold seq at 1, insert_or_update, seq at 1, bind_parameters. cbn [fst snd].
      rewrite (Hbind payload (dumps_text _ _ _ Hd)).
      destruct (bindable provider model).
      * unfold ret at 1. unfold seq at 1, failing.
        destruct (insert_fault b) as [e|].
        -- unfold raise at 1. unfold logger_exception.
           unfold try_except, seq, local, ret, close, seq, failing.
           destruct (close_fault b); reflexivity.
        -- unfold ret at 1. rewrite Hvis, Hconn, Hlock.
           destruct (locked w) eqn:Hl.
           ++ unfold logger_exception.
              unfold try_except, seq, local, ret, close, seq, failing.
              destruct (close_fault b); reflexivity.
           ++ unfold commit, seq at 1, failing.
              destruct (commit_fault b) as [e|].
              ** unfold raise at 1. unfold logger_exception.
                 unfold try_except, seq, local, ret, close, seq, failing.
                 destruct (close_fault b); reflexivity.
              ** unfold ret at 1. cbn [connections]. rewrite lookup_insert_eq.
                 unfold volatile. fold path.
                 destruct (in_memory path);
                   unfold try_except, seq, local, ret, close, seq, failing;
                   destruct (close_fault b); reflexivity.
      * unfold raise at 1. unfold logger_exception.
        unfold try_except, seq, local, ret, close, seq, failing.
        destruct (close_fault b); reflexivity.
    + unfold logger_exception.
      unfold try_except, seq, local, ret, close, seq, failing.
      destruct (close_fault b); reflexivity.
  - unfold try_finally, try_except, seq, resume, local, raise, logger_exception, ret.
    reflexivity.
Qed.

(** What [get_cached_review_for_changes] returns or raises. *)
Lemma get_result (b : behaviour) (provider model : pystr) (changes : list GitDiffChange)
    (w : world) :
  fst (get_cached_review_for_changes b provider model changes w)
  = if forallb textual changes then
      Ret match read_fault b w provider model with
          | Some _ => PNone
          | None =>
            match stored w (provider, model, fingerprint changes) with
            | None => PNone
            | Some payload =>
              match Json.loads (interpreter b) payload with
              | Ret data => data
              | Raise _ => PNone
              end
            end
          end
    else Raise UnicodeEncodeError.
Proof.
  rewrite get_run. destruct (forallb textual changes); [|reflexivity]. unfold read_fault.
  destruct (_get_connection b w) as [[conn|e0] w1] eqn:Hc.
  - apply get_connection_ok in Hc as (-> & _ & _).
    destruct (bindable provider model); [|reflexivity].
    destruct (select_fault b) as [e1|]; [reflexivity|].
    destruct (stored w (provider, model, fingerprint changes)) as [payload|];
      [|reflexivity].
    now destruct (Json.loads (interpreter b) payload).
  - now apply get_connection_raise in Hc as (-> & _ & _).
Qed.

(** C2, as amended: when the strings of the diff set are text,
    [get_cached_review_for_changes] returns and does not raise, whatever the
    storage layer does.  It returns [None] when a step of the read fails (the
    directory, the connection, the table, the binding of the key or the
    query), when no row has the key, and when [json.loads] raises on the text
    of the row; when the read goes through and [json.loads] reads the text,
    it returns what the text denotes. *)
Theorem get_contains_failures (b : behaviour) (provider model : pystr)
    (changes : list GitDiffChange) (w : world) :
  forallb textual changes = true ->
  (exists v, fst (get_cached_review_for_changes b provider model changes w) = Ret v)
  /\ (forall e, read_fault b w provider model = Some e ->
        fst (get_cached_review_for_changes b provider model changes w) = Ret PNone)
  /\ (stored w (provider, model, fingerprint changes) = None ->
        fst (get_cached_review_for_changes b provider model changes w) = Ret PNone)
  /\ (forall payload e,
        stored w (provider, model, fingerprint changes) = Some payload ->
        Json.loads (interpreter b) payload = Raise e ->
        fst (get_cached_review_for_changes b provider model changes w) = Ret PNone)
  /\ (forall payload data,
        read_fault b w provider model = None ->
        stored w (provider, model, fingerprint changes) = Some payload ->
        Json.loads (interpreter b) payload = Ret data ->
        fst (get_cached_review_for_changes b provider model changes w) = Ret data).
Proof.
  intros Ht. rewrite get_result, Ht. repeat split.
  - eauto.
  - now intros e ->.
  - intros ->. now destruct (read_fault b w provider model).
  - intros payload e -> ->. now destruct (read_fault b w provider model).
  - now intros payload data -> -> ->.
Qed.

Lemma get_contains_failures_witness :
  forallb textual [change "a.py" "a.py" (lit "+x")] = true
  /\ fst (get_cached_review_for_changes
            (Behaviour None (Some SqliteError) None None None None None Json.default_limits)
            (lit "openai") (lit "gpt-4") [change "a.py" "a.py" (lit "+x")] odd_world)
     = Ret PNone.
Proof.
  split; [reflexivity|].
  apply (proj1 (proj2 (get_contains_failures
                         (Behaviour None (Some SqliteError) None None None None None
                                    Json.default_limits)
                         (lit "openai") (lit "gpt-4") [change "a.py" "a.py" (lit "+x")]
                         odd_world eq_refl))
               SqliteError).
  reflexivity.
Defined.

(** C2, as stated, fails: the fingerprint is computed before the [try], and
    on a diff set with a string that is not text (a surrogate on its own)
    [str.encode] raises; the call raises [UnicodeEncodeError] to its caller,
    with nothing logged and no connection opened. *)
Lemma get_raises_on_surrogate :
  textual unpaired = false
  /\ get_cached_review_for_changes no_fault (lit "openai") (lit "gpt-4") [unpaired]
       (World ∅ ∅ ∅ 0 [])
     = (Raise UnicodeEncodeError, World ∅ ∅ ∅ 0 []).
Proof. split; [reflexivity|]. now rewrite get_run. Qed.

(** C7, as amended: when [json.loads] raises on the text stored under the
    key (the text is not JSON, or nests deeper or holds a longer integer
    than the interpreter allows), [get_cached_review_for_changes] returns
    [None]; when [json.loads] reads it and the read goes through, the value
    it denotes is returned as it is, whether or not it has the shape of a
    review result. *)
Theorem get_returns_what_json_reads (b : behaviour) (provider model : pystr)
    (changes : list GitDiffChange) (w : world) (payload : pystr) :
  forallb textual changes = true ->
  stored w (provider, model, fingerprint changes) = Some payload ->
  (forall e, Json.loads (interpreter b) payload = Raise e ->
     fst (get_cached_review_for_changes b provider model changes w) = Ret PNone)
  /\ (forall data, Json.loads (interpreter b) payload = Ret data ->
        read_fault b w provider model = None ->
        fst (get_cached_review_for_changes b provider model changes w) = Ret data).
Proof.
  intros Ht Hs. rewrite get_result, Ht, Hs. split.
  - intros e ->. now destruct (read_fault b w provider model).
  - now intros data -> ->.
Qed.

(** The rows after a write: those of the configured file with the row of the
    key updated or added when the write leaves a text there, and the rows as
    they were otherwise. *)
Lemma put_entries (b : behaviour) (provider model : pystr) (changes : list GitDiffChange)
    (result : pyval) (w : world) (path : pystr) :
  entries (snd (put_cached_review_for_changes b provider model changes result w)) path
  = match written b w provider model changes result with
    | Some payload =>
      if decide (path = configured_path w)
      then upsert (provider, model, fingerprint changes) payload (entries w path)
      else entries w path
    | None => entries w path
    end.
Proof.
  rewrite put_run. unfold written.
  destruct (forallb textual changes); [|reflexivity]. cbn [andb]. unfold write_fault.
  destruct (_get_connection b w) as [[conn|e0] w1] eqn:Hc.
  - apply get_connection_ok in Hc as (-> & -> & ->). cbv zeta.
    set (w1 := with_table (opened w) (configured_path w)
                 (connected (configured_path w) w)).
    assert (forall w2, tables w2 = tables w1 ->
            entries (match close_fault b with
                     | Some _ => w2
                     | None => closed (opened w) w2
                     end) path = entries w path) as Hsame.
    { intros w2 Ht.
      transitivity (entries w2 path); [now destruct (close_fault b)|].
      unfold entries at 1. rewrite Ht.
      apply (with_table_entries (opened w) (configured_path w) path
               (connected (configured_path w) w)). }
    cbn [snd].
    destruct (Json.dumps (interpreter b) result) as [payload|e1];
      [|destruct (volatile w); now apply Hsame].
    destruct (bindable provider model); [|destruct (volatile w); now apply Hsame].
    destruct (insert_fault b) as [e1|]; [destruct (volatile w); now apply Hsame|].
    destruct (locked w); [destruct (volatile w); now apply Hsame|].
    destruct (commit_fault b) as [e1|]; [destruct (volatile w); now apply Hsame|].
    unfold rows_seen. destruct (volatile w); [now apply Hsame|]. cbn [negb].
    set (rows := upsert (provider, model, fingerprint changes) payload
                        (entries w (configured_path w))).
    transitivity (entries (committed (opened w) (configured_path w) rows
        (in_transaction (opened w) (configured_path w) rows w1)) path);
      [now destruct (close_fault b)|].
    unfold entries at 1, committed, in_transaction. cbn [tables].
    destruct (decide (path = configured_path w)) as [->|Hne].
    + now rewrite lookup_insert_eq.
    + rewrite lookup_insert_ne by congruence.
      apply (with_table_entries (opened w) (configured_path w) path
               (connected (configured_path w) w)).
  - apply get_connection_raise in Hc as (-> & Ht & _).
    cbn [snd]. destruct (volatile w); cbn [negb];
      unfold entries, logged; cbn [tables]; now rewrite Ht.
Qed.

Lemma written_fault (b : behaviour) (w : world) (provider model : pystr)
    (changes : list GitDiffChange) (result : pyval) (e : exn) :
  write_fault b w provider model result = Some e ->
  written b w provider model changes result = None.
Proof.
  intros He. unfold written. rewrite He.
  now destruct (forallb textual changes && negb (volatile w)).
Qed.

Lemma written_text (b : behaviour) (w : world) (provider model : pystr)
    (changes : list GitDiffChange) (result : pyval) :
  forallb textual changes = true -> volatile w = false ->
  write_fault b w provider model result = None ->
  exists payload,
    Json.dumps (interpreter b) result = Ret payload
    /\ written b w provider model changes result = Some payload.
Proof.
  intros Ht Hv Hf. unfold written. rewrite Ht, Hv, Hf. cbn [negb andb].
  unfold write_fault in Hf.
  destruct (setup_fault b w); [discriminate Hf|].
  destruct (Json.dumps (interpreter b) result) as [payload|e]; [|discriminate Hf].
  now exists payload.
Qed.

Lemma put_returns (b : behaviour) (provider model : pystr) (changes : list GitDiffChange)
    (result : pyval) (w : world) :
  fst (put_cached_review_for_changes b provider model changes result w)
  = if forallb textual changes then Ret tt else Raise UnicodeEncodeError.
Proof.
  rewrite put_run. destruct (forallb textual changes); [|reflexivity].
  now destruct (_get_connection b w) as [[conn|e0] w1].
Qed.

(** C5, as amended: when the strings of the diff set are text,
    [put_cached_review_for_changes] returns, with no value, and does not
    raise, whatever the storage layer does and whatever the result is; and
    when a step of the write fails (the directory, the connection, the
    table, the serialization of the result, the binding of the key, the
    insertion, which a lock held by another connection prevents, or the
    commit), the rows of every database file are the ones they were. *)
Theorem put_contains_failures (b : behaviour) (provider model : pystr)
    (changes : list GitDiffChange) (result : pyval) (w : world) :
  forallb textual changes = true ->
  fst (put_cached_review_for_changes b provider model changes result w) = Ret tt
  /\ (forall e, write_fault b w provider model result = Some e ->
        forall path,
          entries (snd (put_cached_review_for_changes b provider model changes result w)) path
          = entries w path).
Proof.
  intros Ht. split; [now rewrite put_returns, Ht|].
  intros e He path. now rewrite put_entries, (written_fault _ _ _ _ _ _ _ He).
Qed.

Lemma put_contains_failures_witness :
  forallb textual [change "a.py" "a.py" (lit "+x")] = true
  /\ fst (put_cached_review_for_changes no_fault (lit "openai") (lit "gpt-4")
            [change "a.py" "a.py" (lit "+x")] (PBytes []) odd_world)
     = Ret tt
  /\ entries (snd (put_cached_review_for_changes no_fault (lit "openai") (lit "gpt-4")
                     [change "a.py" "a.py" (lit "+x")] (PBytes []) odd_world))
             _DEFAULT_DB_PATH
     = entries odd_world _DEFAULT_DB_PATH.
Proof.
  split; [reflexivity|].
  destruct (put_contains_failures no_fault (lit "openai") (lit "gpt-4")
              [change "a.py" "a.py" (lit "+x")] (PBytes []) odd_world eq_refl)
    as [Hret Hrows].
  split; [exact Hret|].
  apply (Hrows TypeError). reflexivity.
Defined.

(** C5, as stated, fails: the fingerprint is computed before the [try], and
    on a diff set with a string that is not text the call raises
    [UnicodeEncodeError] to its caller. *)
Lemma put_raises_on_surrogate :
  textual unpaired = false
  /\ put_cached_review_for_changes no_fault (lit "openai") (lit "gpt-4") [unpaired]
       (result_dict sample_result) (World ∅ ∅ ∅ 0 [])
     = (Raise UnicodeEncodeError, World ∅ ∅ ∅ 0 []).
Proof. split; [reflexivity|]. now rewrite put_run. Qed.

Lemma upsert_frame (k : key) (json : pystr) (rows : list row) :
  List.filter (fun r => negb (has_key k r)) (upsert k json rows)
  = List.filter (fun r => negb (has_key k r)) rows.
Proof.
  induction rows as [|r rows IH]; cbn [upsert List.filter].
  - unfold has_key at 1. cbn [row_key fst]. now rewrite bool_decide_eq_true_2.
  - fold (has_key k r). destruct (has_key k r) eqn:Hr; cbn [List.filter negb].
    + unfold has_key at 1. cbn [row_key fst]. now rewrite bool_decide_eq_true_2.
    + now rewrite Hr, IH.
Qed.

(** C10: whatever the storage layer does, a write leaves the rows of every
    other key as they were, in every database file: among the rows whose key
    is not (provider, model, fingerprint of the diff set), none is added,
    changed or removed; and a write that raises for want of a fingerprint
    leaves every row as it was. *)
Theorem put_leaves_other_keys (b : behaviour) (provider model : pystr)
    (changes : list GitDiffChange) (result : pyval) (w : world) (path : pystr) :
  List.filter (fun r => negb (has_key (provider, model, fingerprint changes) r))
    (entries (snd (put_cached_review_for_changes b provider model changes result w)) path)
  = List.filter (fun r => negb (has_key (provider, model, fingerprint changes) r))
      (entries w path)
  /\ (forall e, _build_diff_hash changes = Raise e ->
      entries (snd (put_cached_review_for_changes b provider model changes result w)) path
      = entries w path).
Proof.
  rewrite put_entries. split.
  - destruct (written b w provider model changes result); [|reflexivity].
    destruct (decide (path = configured_path w)); [|reflexivity].
    apply upsert_frame.
  - intros e He. rewrite build_diff_hash_fingerprint in He. unfold written.
    destruct (forallb textual changes); [discriminate He | reflexivity].
Qed.

(** Reading changes no row. *)
Lemma get_entries (b : behaviour) (provider model : pystr) (changes : list GitDiffChange)
    (w : world) (path : pystr) :
  entries (snd (get_cached_review_for_changes b provider model changes w)) path
  = entries w path.
Proof.
  rewrite get_run. destruct (forallb textual changes); [|reflexivity].
  destruct (_get_connection b w) as [[conn|e0] w1] eqn:Hc.
  - apply get_connection_ok in Hc as (_ & -> & ->).
    set (w1 := with_table (opened w) (configured_path w)
                 (connected (configured_path w) w)).
    assert (forall w2, tables w2 = tables w1 ->
            entries (match close_fault b with
                     | Some _ => w2
                     | None => closed (opened w) w2
                     end) path = entries w path) as Hsame.
    { intros w2 Ht.
      transitivity (entries w2 path); [now destruct (close_fault b)|].
      unfold entries at 1. rewrite Ht.
      apply (with_table_entries (opened w) (configured_path w) path
               (connected (configured_path w) w)). }
    destruct (bindable provider model); [|now apply Hsame].
    destruct (select_fault b); [now apply Hsame|].
    destruct (stored w _); [|now apply Hsame].
    destruct (Json.loads _ _); now apply Hsame.
  - apply get_connection_raise in Hc as (_ & Ht & _).
    cbn [snd]. unfold entries, logged. cbn [tables]. now rewrite Ht.
Qed.

(** C8, where the code departs from it: when the strings of the diff set
    are text, connecting goes through and creating the table fails, the
    connection that [_get_connection] opened is still open when
    [get_cached_review_for_changes] and [put_cached_review_for_changes]
    return; [conn] is unbound in their [finally] blocks, which close
    nothing. *)
Theorem schema_failure_leaks_connection (b : behaviour) (provider model : pystr)
    (changes : list GitDiffChange) (result : pyval) (w : world) (e : exn) :
  forallb textual changes = true ->
  makedirs_fault b = None -> connect_fault b = None -> create_fault b = Some e ->
  connections (snd (get_cached_review_for_changes b provider model changes w)) !! opened w
  = Some (configured_path w, None)
  /\ connections (snd (put_cached_review_for_changes b provider model changes result w))
       !! opened w
     = Some (configured_path w, None).
Proof.
  intros Ht Hm Hc He. rewrite get_run, put_run, Ht, get_connection_run, Hm, Hc, He.
  assert (connections (connected (configured_path w) w) !! opened w
          = Some (configured_path w, None)) as Hopen by apply lookup_insert_eq.
  destruct (dirname (configured_path w)); now split.
Qed.

Lemma schema_failure_leaks_connection_witness :
  let b := Behaviour None None (Some SqliteError) None None None None Json.default_limits in
  let w := World ∅ ∅ ∅ 0 [] in
  connections
    (snd (get_cached_review_for_changes b (lit "openai") (lit "gpt-4")
            [change "a.py" "a.py" (lit "+x")] w)) !! 0%nat
  = Some (lit "data/review_cache.db", None)
  /\ connections
       (snd (put_cached_review_for_changes b (lit "openai") (lit "gpt-4")
               [change "a.py" "a.py" (lit "+x")] (PDict [(lit "content", PStr (lit "LGTM"))])
               w)) !! 0%nat
     = Some (lit "data/review_cache.db", None).
Proof.
  exact (schema_failure_leaks_connection
           (Behaviour None None (Some SqliteError) None None None None Json.default_limits)
           (lit "openai") (lit "gpt-4") [change "a.py" "a.py" (lit "+x")]
           (PDict [(lit "content", PStr (lit "LGTM"))]) (World ∅ ∅ ∅ 0 []) SqliteError
           eq_refl eq_refl eq_refl eq_refl).
Defined.

(** *** What is stored is what is read *)

Lemma close_environ (b : behaviour) (conn : nat) (w2 : world) :
  environ (match close_fault b with Some _ => w2 | None => closed conn w2 end)
  = environ w2.
Proof. now destruct (close_fault b). Qed.

Lemma get_connection_environ (b : behaviour) (w : world) :
  environ (snd (_get_connection b w)) = environ w.
Proof.
  rewrite get_connection_run.
  destruct (dirname (configured_path w)), (makedirs_fault b), (connect_fault b),
    (create_fault b), (create_blocked w); cbn [snd]; rewrite ?with_table_environ;
    reflexivity.
Qed.

Lemma get_environ (b : behaviour) (provider model : pystr) (changes : list GitDiffChange)
    (w : world) :
  environ (snd (get_cached_review_for_changes b provider model changes w)) = environ w.
Proof.
  rewrite get_run. destruct (forallb textual changes); [|reflexivity].
  pose proof (get_connection_environ b w) as He.
  destruct (_get_connection b w) as [[conn|e0] w1]; cbn [snd] in He |- *; [|exact He].
  rewrite <- He.
  destruct (bindable provider model); [|cbn [snd]; now rewrite close_environ].
  destruct (select_fault b); [cbn [snd]; now rewrite close_environ|].
  destruct (stored w _); [|cbn [snd]; now rewrite close_environ].
  destruct (Json.loads _ _); cbn [snd]; now rewrite close_environ.
Qed.

Lemma put_environ (b : behaviour) (provider model : pystr) (changes : list GitDiffChange)
    (result : pyval) (w : world) :
  environ (snd (put_cached_review_for_changes b provider model changes result w)) = environ w.
Proof.
  rewrite put_run. destruct (forallb textual changes); [|reflexivity].
  pose proof (get_connection_environ b w) as He.
  destruct (_get_connection b w) as [[conn|e0] w1]; cbn [snd] in He |- *; [|exact He].
  rewrite <- He. cbv zeta. rewrite close_environ.
  destruct (Json.dumps (interpreter b) result); [|reflexivity].
  destruct (bindable provider model); [|reflexivity].
  destruct (insert_fault b); [reflexivity|].
  destruct (locked w); [reflexivity|].
  destruct (commit_fault b); [reflexivity|].
  now destruct (volatile w).
Qed.

Lemma configured_path_environ (w w' : world) :
  environ w' = environ w -> configured_path w' = configured_path w.
Proof. unfold configured_path. now intros ->. Qed.

Lemma volatile_environ (w w' : world) : environ w' = environ w -> volatile w' = volatile w.
Proof. unfold volatile. intros He. now rewrite (configured_path_environ w w' He). Qed.

Lemma find_upsert (k : key) (json : pystr) (rows : list row) :
  List.find (has_key k) (upsert k json rows) = Some (k, json).
Proof.
  induction rows as [|r rows IH]; cbn [upsert].
  - cbn [List.find]. unfold has_key at 1. cbn [row_key fst].
    now rewrite bool_decide_eq_true_2.
  - fold (has_key k r). destruct (has_key k r) eqn:Hr; cbn [List.find].
    + unfold has_key at 1. cbn [row_key fst]. now rewrite bool_decide_eq_true_2.
    + now rewrite Hr.
Qed.

Lemma written_file (b : behaviour) (w : world) (provider model : pystr)
    (changes : list GitDiffChange) (result : pyval) (payload : pystr) :
  written b w provider model changes result = Some payload ->
  forallb textual changes = true /\ volatile w = false
  /\ write_fault b w provider model result = None
  /\ Json.dumps (interpreter b) result = Ret payload.
Proof.
  unfold written.
  destruct (forallb textual changes); [|discriminate].
  destruct (volatile w); [discriminate|]. cbn [negb andb].
  destruct (write_fault b w provider model result); [discriminate|].
  destruct (Json.dumps (interpreter b) result); [|discriminate].
  intros E. now injection E as ->.
Qed.

(** After a write that left a text in the file, the text is stored under the
    key. *)
Lemma put_stored (b : behaviour) (provider model : pystr) (changes : list GitDiffChange)
    (result : pyval) (w : world) (payload : pystr) :
  written b w provider model changes result = Some payload ->
  stored (snd (put_cached_review_for_changes b provider model changes result w))
         (provider, model, fingerprint changes)
  = Some payload.
Proof.
  intros Hw. destruct (written_file _ _ _ _ _ _ _ Hw) as (_ & Hv & _ & _). unfold stored.
  rewrite (volatile_environ w _ (put_environ b provider model changes result w)), Hv.
  rewrite (configured_path_environ w _ (put_environ b provider model changes result w)).
  rewrite put_entries, Hw.
  destruct (decide (configured_path w = configured_path w)) as [_|Hne]; [|contradiction].
  now rewrite find_upsert.
Qed.

(** After a write that left a text in the file, the table is there. *)
Lemma put_table (b : behaviour) (provider model : pystr) (changes : list GitDiffChange)
    (result : pyval) (w : world) (payload : pystr) :
  written b w provider model changes result = Some payload ->
  create_blocked (snd (put_cached_review_for_changes b provider model changes result w))
  = false.
Proof.
  intros Hw. destruct (written_file _ _ _ _ _ _ _ Hw) as (Ht & Hv & Hf & Hd).
  unfold create_blocked.
  rewrite (volatile_environ w _ (put_environ b provider model changes result w)), Hv.
  rewrite (configured_path_environ w _ (put_environ b provider model changes result w)).
  cbn [negb andb].
  assert (tables (snd (put_cached_review_for_changes b provider model changes result w))
            !! configured_path w <> None) as Hsome; [|now rewrite bool_decide_eq_false_2].
  rewrite put_run, Ht. unfold write_fault in Hf.
  destruct (_get_connection b w) as [[conn|e0] w1] eqn:Hc.
  - apply get_connection_ok in Hc as (Hs & -> & ->). rewrite Hs in Hf. cbv zeta.
    rewrite Hd in Hf |- *.
    destruct (bindable provider model); [|discriminate Hf].
    destruct (insert_fault b); [discriminate Hf|].
    destruct (locked w); [discriminate Hf|]. rewrite Hf, Hv.
    destruct (close_fault b); cbn [snd closed committed tables]; now rewrite lookup_insert_eq.
  - apply get_connection_raise in Hc as (Hs & _ & _). now rewrite Hs in Hf.
Qed.

(** A read that meets no fault before a write meets none after it. *)
Lemma read_fault_after_put (b b2 : behaviour) (provider model : pystr)
    (changes : list GitDiffChange) (result : pyval) (w : world) (payload : pystr) :
  written b w provider model changes result = Some payload ->
  read_fault b2 w provider model = None ->
  read_fault b2 (snd (put_cached_review_for_changes b provider model changes result w))
             provider model
  = None.
Proof.
  intros Hw. unfold read_fault, setup_fault.
  rewrite (put_table _ _ _ _ _ _ _ Hw).
  rewrite (configured_path_environ w _ (put_environ b provider model changes result w)).
  destruct (dirname (configured_path w)), (makedirs_fault b2), (connect_fault b2),
    (create_fault b2), (create_blocked w); intros E; try discriminate E; exact E.
Qed.

(** What was put is what a get returns next, when the database is a file,
    neither call meets a fault, and the interpreter of the reader has room
    for the value. *)
Lemma put_then_get (b1 b2 : behaviour) (provider model : pystr)
    (changes : list GitDiffChange) (result : pyval) (w : world) :
  plain result ->
  forallb textual changes = true -> volatile w = false ->
  write_fault b1 w provider model result = None ->
  read_fault b2 w provider model = None ->
  within (interpreter b2) result = true ->
  fst (get_cached_review_for_changes b2 provider model changes
         (snd (put_cached_review_for_changes b1 provider model changes result w)))
  = Ret result.
Proof.
  intros Hp Ht Hv Hf Hr Hin.
  destruct (written_text b1 w provider model changes result Ht Hv Hf) as (payload & Hd & Hw).
  rewrite get_result, Ht, (read_fault_after_put _ _ _ _ _ _ _ _ Hw Hr).
  rewrite (put_stored _ _ _ _ _ _ _ Hw).
  now rewrite (loads_dumps _ _ result payload Hp Hd Hin).
Qed.




Lemma get_returns_what_json_reads_witness :
  forallb textual [change "a.py" "a.py" (lit "+x")] = true
  /\ stored broken_world odd_key = Some (lit "{broken")
  /\ fst (get_cached_review_for_changes no_fault (lit "openai") (lit "gpt-4")
            [change "a.py" "a.py" (lit "+x")] broken_world)
     = Ret PNone.
Proof.
  assert (stored broken_world odd_key = Some (lit "{broken")) as Hs
    by (vm_compute; reflexivity).
  split; [reflexivity|]. split; [exact Hs|].
  apply (proj1 (get_returns_what_json_reads no_fault (lit "openai") (lit "gpt-4")
                  [change "a.py" "a.py" (lit "+x")] broken_world (lit "{broken")
                  eq_refl Hs)
               JSONDecodeError).
  vm_compute. reflexivity.
Defined.

(** C7, as stated, fails: the text [42] is JSON and is not the text of a
    review result, and a read of its key returns the integer 42, not
    [None]. *)
Lemma odd_payload_returned :
  stored odd_world odd_key = Some (lit "42")
  /\ (forall (l : Json.limits) (r : LLMReviewResult),
        Json.dumps l (result_dict r) <> Ret (lit "42"))
  /\ fst (get_cached_review_for_changes no_fault (lit "openai") (lit "gpt-4")
            [change "a.py" "a.py" (lit "+x")] odd_world)
     = Ret (PInt 42).
Proof.
  assert (stored odd_world odd_key = Some (lit "42")) as Hs by (vm_compute; reflexivity).
  split; [exact Hs|]. split.
  - intros l r H. unfold Json.dumps, result_dict in H.
    apply encode_dict_ret in H as (room & chunks & _ & _ & E). discriminate E.
  - vm_compute. reflexivity.
Qed.

(** *** One row for each key *)

Lemma upsert_keys (k : key) (json : pystr) (rows : list row) (x : key) :
  x ∈ List.map row_key (upsert k json rows) -> x = k \/ x ∈ List.map row_key rows.
Proof.
  induction rows as [|r rows IH]; cbn [upsert List.map].
  - rewrite list_elem_of_singleton. now left.
  - destruct (bool_decide (row_key r = k)) eqn:Hr; cbn [List.map row_key fst].
    + apply bool_decide_eq_true_1 in Hr. rewrite !elem_of_cons. unfold row_key in Hr.
      intros [->|Hx]; [now left | right; now right].
    + rewrite !elem_of_cons. intros [->|Hx]; [right; now left|].
      destruct (IH Hx) as [->|Hin]; [now left | right; now right].
Qed.

Lemma upsert_unique (k : key) (json : pystr) (rows : list row) :
  NoDup (List.map row_key rows) -> NoDup (List.map row_key (upsert k json rows)).
Proof.
  induction rows as [|r rows IH]; cbn [upsert List.map]; intros Hn.
  - apply NoDup_singleton.
  - apply list.NoDup_cons in Hn as [Hr Hn].
    destruct (bool_decide (row_key r = k)) eqn:Hk; cbn [List.map].
    + apply bool_decide_eq_true_1 in Hk. apply list.NoDup_cons. split; [|assumption].
      change (row_key (k, json)) with k. now rewrite <- Hk.
    + apply bool_decide_eq_false_1 in Hk. apply list.NoDup_cons. split; [|now apply IH].
      intros Hin. apply upsert_keys in Hin as [E|Hin]; [now apply Hk | now apply Hr].
Qed.

Lemma filter_other_keys (k : key) (rows : list row) :
  k ∉ List.map row_key rows -> List.filter (has_key k) rows = [].
Proof.
  induction rows as [|r rows IH]; [reflexivity|].
  cbn [List.map List.filter]. rewrite not_elem_of_cons. intros [Hr Hn].
  unfold has_key at 1. rewrite bool_decide_eq_false_2 by congruence. now apply IH.
Qed.

Lemma filter_upsert (k : key) (json : pystr) (rows : list row) :
  NoDup (List.map row_key rows) ->
  List.filter (has_key k) (upsert k json rows) = [(k, json)].
Proof.
  induction rows as [|r rows IH]; cbn [upsert List.map]; intros Hn.
  - cbn [List.filter]. unfold has_key. cbn [row_key fst].
    now rewrite bool_decide_eq_true_2.
  - apply list.NoDup_cons in Hn as [Hr Hn].
    destruct (bool_decide (row_key r = k)) eqn:Hk; cbn [List.filter].
    + apply bool_decide_eq_true_1 in Hk. unfold has_key at 1. cbn [row_key fst].
      rewrite bool_decide_eq_true_2 by reflexivity. f_equal.
      apply filter_other_keys. now rewrite <- Hk.
    + unfold has_key at 1. rewrite Hk. now apply IH.
Qed.

Lemma put_unique (b : behaviour) (provider model : pystr) (changes : list GitDiffChange)
    (result : pyval) (w : world) :
  unique_keys w ->
  unique_keys (snd (put_cached_review_for_changes b provider model changes result w)).
Proof.
  intros Hu path. rewrite put_entries.
  destruct (written b w provider model changes result); [|apply Hu].
  destruct (decide (path = configured_path w)); [|apply Hu].
  apply upsert_unique, Hu.
Qed.

Lemma get_unique (b : behaviour) (provider model : pystr) (changes : list GitDiffChange)
    (w : world) :
  unique_keys w ->
  unique_keys (snd (get_cached_review_for_changes b provider model changes w)).
Proof. intros Hu path. rewrite get_entries. apply Hu. Qed.

Lemma reachable_unique (w : world) : reachable w -> unique_keys w.
Proof.
  induction 1 as [w Hw|b provider model changes w _ IH|b provider model changes result w _ IH].
  - intros path. unfold entries. rewrite Hw, lookup_empty. apply NoDup_nil_2.
  - now apply get_unique.
  - now apply put_unique.
Qed.



(** The scenario of the specification: a get before any put returns [None];
    after a put, a get of the same key returns the result; a get for another
    diff set still returns [None]. *)
Example scenario :
  let w0 := World ∅ ∅ ∅ 0 [] in
  let changes := [change "a.py" "a.py" (lit "+x")] in
  let result := PDict [(lit "content", PStr (lit "LGTM"))] in
  let w1 := snd (put_cached_review_for_changes no_fault (lit "openai") (lit "gpt-4")
                   changes result w0) in
  fst (get_cached_review_for_changes no_fault (lit "openai") (lit "gpt-4") changes w0)
  = Ret PNone
  /\ fst (get_cached_review_for_changes no_fault (lit "openai") (lit "gpt-4") changes w1)
     = Ret result
  /\ fst (get_cached_review_for_changes no_fault (lit "openai") (lit "gpt-4")
            [change "a.py" "a.py" (lit "+y")] w1)
     = Ret PNone.
Proof. vm_compute. repeat split. Qed.

(** The same while another connection has a write transaction in progress on
    the file: the put stores nothing and logs the failure, and the get that
    follows returns [None]. *)
Example scenario_locked :
  let changes := [change "a.py" "a.py" (lit "+x")] in
  let result := PDict [(lit "content", PStr (lit "LGTM"))] in
  let w1 := snd (put_cached_review_for_changes no_fault (lit "openai") (lit "gpt-4")
                   changes result busy_world) in
  write_fault no_fault busy_world (lit "openai") (lit "gpt-4") result = Some SqliteError
  /\ entries w1 _DEFAULT_DB_PATH = []
  /\ log w1 = [write_failed]
  /\ get_cached_review_for_changes no_fault (lit "openai") (lit "gpt-4") changes w1
     = (Ret PNone, World (environ w1) (tables w1) (connections w1) 3 [write_failed]).
Proof. vm_compute. repeat split. Qed.

End StoreFacts.
(** ** The path of the database *)

Section PathFacts.

Lemma lstrip_empty (drop : N -> bool) (s : pystr) :
  lstrip drop s = [] <-> forallb drop s = true.
Proof.
  induction s as [|c s IH]; cbn [lstrip forallb]; [tauto|].
  destruct (drop c); cbn [andb]; [exact IH|]. split; discriminate.
Qed.

Lemma lstrip_head (drop : N -> bool) (s : pystr) (c : N) (r : pystr) :
  lstrip drop s = c :: r -> drop c = false.
Proof.
  induction s as [|x s IH]; cbn [lstrip]; [discriminate|].
  destruct (drop x) eqn:Hx; [exact IH|].
  intros E. apply cons_eq_inv in E as [<- _]. exact Hx.
Qed.

Lemma lstrip_kept (drop : N -> bool) (c : N) (r : pystr) :
  drop c = false -> lstrip drop (c :: r) = c :: r.
Proof. intros H. cbn [lstrip]. now rewrite H. Qed.

Lemma lstrip_idempotent (drop : N -> bool) (s : pystr) :
  lstrip drop (lstrip drop s) = lstrip drop s.
Proof.
  destruct (lstrip drop s) as [|c r] eqn:E; [reflexivity|].
  apply lstrip_kept. exact (lstrip_head drop s c r E).
Qed.

Lemma lstrip_app (drop : N -> bool) (s t : pystr) :
  lstrip drop (s ++ t)
  = match lstrip drop s with
    | [] => lstrip drop t
    | c :: r => (c :: r) ++ t
    end.
Proof.
  induction s as [|x s IH]; cbn [app lstrip]; [reflexivity|].
  destruct (drop x); [exact IH | reflexivity].
Qed.

Lemma forallb_rev (f : N -> bool) (s : pystr) : forallb f (rev s) = forallb f s.
Proof.
  induction s as [|c s IH]; [reflexivity|].
  cbn [rev forallb]. rewrite forallb_app, IH. cbn [forallb].
  rewrite andb_true_r. apply andb_comm.
Qed.

Lemma rstrip_empty (drop : N -> bool) (s : pystr) :
  rstrip drop s = [] <-> forallb drop s = true.
Proof.
  unfold rstrip. rewrite <- (forallb_rev drop s), <- lstrip_empty. split.
  - intros E. apply (f_equal (@rev N)) in E. now rewrite rev_involutive in E.
  - now intros ->.
Qed.

(** The end of a string is dropped or kept without a look at its first
    character, unless nothing else is kept. *)
Lemma rstrip_cons (drop : N -> bool) (c : N) (r : pystr) :
  rstrip drop (c :: r)
  = match rstrip drop r with
    | [] => if drop c then [] else [c]
    | t => c :: t
    end.
Proof.
  unfold rstrip. cbn [rev]. rewrite lstrip_app.
  destruct (lstrip drop (rev r)) as [|x t] eqn:E.
  - cbn [rev lstrip]. now destruct (drop c).
  - rewrite rev_app_distr. cbn [rev app].
    destruct (rev t ++ [x]) as [|y u] eqn:Eu; [now destruct (rev t)|reflexivity].
Qed.

Lemma rstrip_idempotent (drop : N -> bool) (s : pystr) :
  rstrip drop (rstrip drop s) = rstrip drop s.
Proof. unfold rstrip. now rewrite rev_involutive, lstrip_idempotent. Qed.

Lemma rstrip_app_dropped (drop : N -> bool) (s t : pystr) :
  forallb drop t = true -> rstrip drop (s ++ t) = rstrip drop s.
Proof.
  intros Ht. unfold rstrip. rewrite rev_app_distr, lstrip_app.
  rewrite <- forallb_rev in Ht. apply lstrip_empty in Ht. now rewrite Ht.
Qed.

(** What is left of a string that starts with a character that is kept
    starts with it. *)
Lemma lstrip_rstrip_kept (drop : N -> bool) (c : N) (r : pystr) :
  drop c = false -> lstrip drop (rstrip drop (c :: r)) = rstrip drop (c :: r).
Proof.
  intros Hc. rewrite rstrip_cons.
  destruct (rstrip drop r); rewrite ?Hc; now apply lstrip_kept.
Qed.

Lemma strip_idempotent (s : pystr) : strip (strip s) = strip s.
Proof.
  unfold strip. destruct (lstrip isspace s) as [|c r] eqn:E; [reflexivity|].
  rewrite lstrip_rstrip_kept by exact (lstrip_head isspace s c r E).
  apply rstrip_idempotent.
Qed.

Lemma strip_blank (s : pystr) : strip s = [] <-> blank s = true.
Proof.
  unfold strip, blank. rewrite rstrip_empty. split.
  - intros H. apply lstrip_empty. apply lstrip_empty in H.
    now rewrite lstrip_idempotent in H.
  - intros H. apply lstrip_empty in H. now rewrite H.
Qed.

Lemma strip_padded (before s after : pystr) :
  blank before = true -> blank after = true -> strip (before ++ s ++ after) = strip s.
Proof.
  unfold blank, strip. intros Hb Ha.
  rewrite lstrip_app. apply lstrip_empty in Hb. rewrite Hb.
  rewrite lstrip_app. destruct (lstrip isspace s) as [|c r].
  - assert (lstrip isspace after = []) as -> by now apply lstrip_empty.
    reflexivity.
  - now apply rstrip_app_dropped.
Qed.

(** The path in terms of the variable: what is left of its value without the
    white space around it, and the default when nothing is left. *)
Lemma configured_path_strip (w : world) :
  configured_path w
  = match environ w !! _DB_ENV_NAME with
    | Some v => match strip v with [] => _DEFAULT_DB_PATH | path => path end
    | None => _DEFAULT_DB_PATH
    end.
Proof.
  unfold configured_path. now destruct (environ w !! _DB_ENV_NAME) as [[|c v]|].
Qed.

(** X1: [_get_db_path] returns and changes nothing, and the path it returns
    is never empty and has no white space at either end: [strip] leaves it
    as it is. *)
Theorem get_db_path_trimmed (w : world) :
  exists path,
    _get_db_path w = (Ret path, w) /\ path <> [] /\ strip path = path.
Proof.
  exists (configured_path w). split; [apply get_db_path_run|].
  rewrite configured_path_strip.
  destruct (environ w !! _DB_ENV_NAME) as [v|]; [|split; [discriminate | reflexivity]].
  destruct (strip v) as [|c r] eqn:E; [split; [discriminate | reflexivity]|].
  split; [discriminate|]. rewrite <- E. apply strip_idempotent.
Qed.

(** X2: when the variable REVIEW_CACHE_DB_PATH is not set, or is set to the
    empty string or to white space only, [_get_db_path] returns the default
    path. *)
Theorem get_db_path_default (w : world) :
  match environ w !! _DB_ENV_NAME with
  | Some v => blank v = true
  | None => True
  end ->
  _get_db_path w = (Ret _DEFAULT_DB_PATH, w).
Proof.
  intros H. rewrite get_db_path_run, configured_path_strip.
  destruct (environ w !! _DB_ENV_NAME) as [v|]; [|reflexivity].
  apply strip_blank in H. now rewrite H.
Qed.

Lemma get_db_path_default_witness :
  _get_db_path (World {[ _DB_ENV_NAME := [ch_space; ch_tab; ch_newline] ]} ∅ ∅ 0 [])
  = (Ret (lit "data/review_cache.db"),
     World {[ _DB_ENV_NAME := [ch_space; ch_tab; ch_newline] ]} ∅ ∅ 0 []).
Proof.
  apply (get_db_path_default
           (World {[ _DB_ENV_NAME := [ch_space; ch_tab; ch_newline] ]} ∅ ∅ 0 [])).
  vm_compute. reflexivity.
Defined.

(** X3: white space around the value of the variable does not count: two
    environments whose values differ by white space before and after give
    the same path. *)
Theorem get_db_path_ignores_padding (w w' : world) (v before after : pystr) :
  blank before = true -> blank after = true ->
  environ w !! _DB_ENV_NAME = Some v ->
  environ w' !! _DB_ENV_NAME = Some (before ++ v ++ after) ->
  fst (_get_db_path w') = fst (_get_db_path w).
Proof.
  intros Hb Ha Hv Hv'. rewrite !get_db_path_run. cbn [fst]. f_equal.
  rewrite !configured_path_strip, Hv, Hv'. now rewrite strip_padded.
Qed.

Lemma get_db_path_ignores_padding_witness :
  fst (_get_db_path (World {[ _DB_ENV_NAME := lit "  /tmp/cache.db" ++ [ch_newline] ]}
                           ∅ ∅ 0 []))
  = fst (_get_db_path (World {[ _DB_ENV_NAME := lit "/tmp/cache.db" ]} ∅ ∅ 0 [])).
Proof.
  apply (get_db_path_ignores_padding
           (World {[ _DB_ENV_NAME := lit "/tmp/cache.db" ]} ∅ ∅ 0 [])
           (World {[ _DB_ENV_NAME := lit "  /tmp/cache.db" ++ [ch_newline] ]} ∅ ∅ 0 [])
           (lit "/tmp/cache.db") (lit "  ") [ch_newline]);
    vm_compute; reflexivity.
Defined.

End PathFacts.

(** ** Opening the connection *)

Section ConnectionFacts.

Lemma upto_last_sep_empty (p : pystr) : upto_last_sep p = [] <-> ~ In ch_slash p.
Proof.
  induction p as [|c p IH]; cbn [upto_last_sep In]; [tauto|].
  destruct (upto_last_sep p) as [|x h].
  - destruct (N.eqb_spec c 47) as [->|Hc].
    + split; [discriminate | intros H; exfalso; apply H; now left].
    + split; [|reflexivity]. intros _ [E|Hin]; [congruence | now apply IH].
  - split; [discriminate|]. intros H. exfalso.
    assert (~ In 47 p) as Hp by (intros Hin; apply H; now right).
    apply IH in Hp. discriminate Hp.
Qed.

(** A path has a directory part when it has a slash, and only then. *)
Lemma dirname_empty (p : pystr) : dirname p = [] <-> ~ In ch_slash p.
Proof.
  rewrite <- upto_last_sep_empty. unfold dirname. cbv zeta.
  destruct (forallb (N.eqb 47) (upto_last_sep p)) eqn:E; [tauto|].
  rewrite rstrip_empty, E. split; [discriminate|].
  intros H. rewrite H in E. discriminate E.
Qed.


(** X5: the directory is created for a path that has one, and only then:
    when the configured path has a slash, a failure of [os.makedirs] is the
    exception [_get_connection] raises, with nothing changed; when it has
    none, [os.makedirs] is not called and what it would do changes
    nothing. *)
Theorem directory_made_for_nested_path (b : behaviour) (w : world) :
  (In ch_slash (configured_path w) ->
   forall e, makedirs_fault b = Some e -> _get_connection b w = (Raise e, w))
  /\ (~ In ch_slash (configured_path w) ->
      forall fault, _get_connection (with_makedirs_fault fault b) w = _get_connection b w).
Proof.
  split.
  - intros Hin e He. rewrite get_connection_run, He.
    destruct (dirname (configured_path w)) eqn:Hd; [|reflexivity].
    apply dirname_empty in Hd. contradiction.
  - intros Hno fault. rewrite !get_connection_run.
    apply dirname_empty in Hno. now rewrite Hno.
Qed.

End ConnectionFacts.

(** ** What a call leaves behind *)

Section CallFacts.

(** The connections once the table is made sure of: the ones there were and
    the new one. *)
Lemma with_table_handles (path : pystr) (w : world) :
  exists tx,
    connections (with_table (opened w) path (connected path w))
    = <[opened w := (path, tx)]> (connections w).
Proof.
  unfold with_table. destruct (in_memory path).
  - exists (Some []). cbn [connections connected]. apply insert_insert_eq.
  - exists None. now destruct (tables (connected path w) !! path).
Qed.

Lemma closing_handles (b : behaviour) (w w2 : world) (path : pystr) (tx : option (list row)) :
  opened w2 = S (opened w) ->
  connections w2 = <[opened w := (path, tx)]> (connections w) ->
  let w' := match close_fault b with Some _ => w2 | None => closed (opened w) w2 end in
  opened w' = S (opened w)
  /\ connections w' = match close_fault b with
                      | Some _ => <[opened w := (path, tx)]> (connections w)
                      | None => delete (opened w) (connections w)
                      end.
Proof.
  intros Ho Hc. cbv zeta. destruct (close_fault b); cbn [closed opened connections].
  - now split.
  - split; [exact Ho|]. rewrite Hc. apply delete_insert_eq.
Qed.

Lemma closing_handles_after (b : behaviour) (w w2 : world) (tx : option (list row)) :
  opened w2 = S (opened w) ->
  connections w2 = <[opened w := (configured_path w, tx)]> (connections w) ->
  handles_after w (match close_fault b with Some _ => w2 | None => closed (opened w) w2 end).
Proof.
  intros Ho Hc. destruct (closing_handles b w w2 _ tx Ho Hc) as [Ho' Hc'].
  right. split; [exact Ho'|]. rewrite Hc'. destruct (close_fault b); eauto.
Qed.

Lemma raise_handles_after (w w1 : world) (message : pystr) :
  w1 = w \/ w1 = connected (configured_path w) w -> handles_after w (logged message w1).
Proof.
  intros [-> | ->]; [now left|]. right. split; [reflexivity|]. left. now exists None.
Qed.

Lemma get_handles_after (b : behaviour) (provider model : pystr)
    (changes : list GitDiffChange) (w : world) :
  handles_after w (snd (get_cached_review_for_changes b provider model changes w)).
Proof.
  rewrite get_run. destruct (forallb textual changes); [|now left].
  destruct (_get_connection b w) as [[conn|e0] w1] eqn:Hc.
  - apply get_connection_ok in Hc as (_ & -> & ->).
    destruct (with_table_handles (configured_path w) w) as [tx Htx].
    destruct (bindable provider model);
      [destruct (select_fault b);
       [|destruct (stored w _); [destruct (Json.loads _ _)|]]|];
      cbn [snd]; apply (closing_handles_after b w _ tx);
      cbn [logged opened connections]; rewrite ?with_table_opened; auto.
  - apply get_connection_raise in Hc as (_ & _ & Hw). now apply raise_handles_after.
Qed.

Lemma put_handles_after (b : behaviour) (provider model : pystr)
    (changes : list GitDiffChange) (result : pyval) (w : world) :
  handles_after w (snd (put_cached_review_for_changes b provider model changes result w)).
Proof.
  rewrite put_run. destruct (forallb textual changes); [|now left].
  destruct (_get_connection b w) as [[conn|e0] w1] eqn:Hc.
  - apply get_connection_ok in Hc as (_ & -> & ->).
    destruct (with_table_handles (configured_path w) w) as [tx Htx]. cbv zeta. cbn [snd].
    destruct (Json.dumps (interpreter b) result) as [payload|e1];
      [destruct (bindable provider model);
       [destruct (insert_fault b);
        [|destruct (locked w); [|destruct (commit_fault b); [|destruct (volatile w)]]]|]|];
      try (apply (closing_handles_after b w _ tx);
           cbn [logged opened connections]; rewrite ?with_table_opened; now auto).
    + eapply closing_handles_after;
        cbn [logged in_transaction opened connections]; rewrite ?with_table_opened;
        [reflexivity|]. rewrite Htx. apply insert_insert_eq.
    + eapply closing_handles_after;
        cbn [logged in_transaction opened connections]; rewrite ?with_table_opened;
        [reflexivity|]. rewrite Htx. apply insert_insert_eq.
    + eapply closing_handles_after;
        cbn [logged in_transaction committed opened connections];
        rewrite ?with_table_opened; [reflexivity|].
      rewrite Htx, !insert_insert_eq. reflexivity.
  - apply get_connection_raise in Hc as (_ & _ & Hw). now apply raise_handles_after.
Qed.

Lemma handles_after_frame (w w' : world) (h : nat) :
  handles_after w w' -> h <> opened w -> connections w' !! h = connections w !! h.
Proof.
  intros [[_ ->] | [_ [[tx ->] | ->]]] Hh.
  - reflexivity.
  - now apply lookup_insert_ne.
  - now apply lookup_delete_ne.
Qed.

Lemma handles_after_fresh (w w' : world) :
  handles_after w w' -> fresh_handles w -> fresh_handles w'.
Proof.
  unfold fresh_handles. intros [[-> ->] | [-> [[tx ->] | ->]]] Hw h Hh.
  - now apply Hw.
  - rewrite lookup_insert_ne by lia. apply Hw. lia.
  - rewrite lookup_delete_ne by lia. apply Hw. lia.
Qed.

Lemma handles_after_count (w w' : world) :
  handles_after w w' -> (opened w <= opened w' <= S (opened w))%nat.
Proof. intros [[-> _] | [-> _]]; lia. Qed.

(** When the table can be made sure of, [_get_connection] raises before it
    connects, or returns. *)
Lemma get_connection_no_leak (b : behaviour) (w : world) :
  create_fault b = None -> create_blocked w = false ->
  (exists e, _get_connection b w = (Raise e, w))
  \/ _get_connection b w
     = (Ret (opened w),
        with_table (opened w) (configured_path w) (connected (configured_path w) w)).
Proof.
  intros Hcreate Hblocked. rewrite get_connection_run, Hcreate, Hblocked.
  destruct (dirname (configured_path w)), (makedirs_fault b), (connect_fault b); eauto.
Qed.

(** X6: a read and a write touch no connection but the one they open: under
    every behaviour of the storage layer, every other handle is open or not,
    on the same file and with the same transaction in progress, as it was
    before the call. *)
Theorem other_connections_untouched (b : behaviour) (provider model : pystr)
    (changes : list GitDiffChange) (result : pyval) (w : world) (h : nat) :
  h <> opened w ->
  connections (snd (get_cached_review_for_changes b provider model changes w)) !! h
  = connections w !! h
  /\ connections (snd (put_cached_review_for_changes b provider model changes result w)) !! h
     = connections w !! h.
Proof.
  intros Hh. split.
  - exact (handles_after_frame _ _ h (get_handles_after b provider model changes w) Hh).
  - exact (handles_after_frame _ _ h (put_handles_after b provider model changes result w) Hh).
Qed.

Lemma other_connections_untouched_witness :
  let w := World ∅ ∅ {[ 0%nat := (lit "other.db", Some []) ]} 1 [] in
  connections (snd (get_cached_review_for_changes close_fails (lit "openai") (lit "gpt-4")
                      [change "a.py" "a.py" (lit "+x")] w)) !! 0%nat
  = Some (lit "other.db", Some [])
  /\ connections (snd (put_cached_review_for_changes close_fails (lit "openai") (lit "gpt-4")
                         [change "a.py" "a.py" (lit "+x")] (PStr (lit "LGTM")) w)) !! 0%nat
     = Some (lit "other.db", Some []).
Proof.
  exact (other_connections_untouched close_fails (lit "openai") (lit "gpt-4")
           [change "a.py" "a.py" (lit "+x")] (PStr (lit "LGTM"))
           (World ∅ ∅ {[ 0%nat := (lit "other.db", Some []) ]} 1 []) 0%nat
           (O_S 0)).
Defined.

(** X7: when creating the table does not fail (neither by a fault of the
    storage layer nor because another connection holds the lock while the
    table is to be created) and closing the connection does not fail, a
    read and a write leave the open connections exactly as they found them,
    whatever else fails (the fingerprint, the directory, the connection, the
    query, the serialization, the insertion, the commit) and whatever the
    text of the row is: the connection they open is closed by the time they
    return. *)
Theorem connection_closed_on_return (b : behaviour) (provider model : pystr)
    (changes : list GitDiffChange) (result : pyval) (w : world) :
  connections w !! opened w = None ->
  create_fault b = None -> create_blocked w = false -> close_fault b = None ->
  connections (snd (get_cached_review_for_changes b provider model changes w))
  = connections w
  /\ connections (snd (put_cached_review_for_changes b provider model changes result w))
     = connections w.
Proof.
  intros Hfree Hcreate Hblocked Hclose.
  assert (forall w', handles_after w w' ->
          (opened w' = opened w \/ connections w' !! opened w = None) ->
          connections w' = connections w) as Hsame.
  { intros w' [[_ E] | [Ho [[tx E] | E]]] Hw'; [exact E| |].
    - destruct Hw' as [Ho' | Hnone]; [lia|].
      rewrite E, lookup_insert_eq in Hnone. discriminate Hnone.
    - rewrite E. now apply delete_id. }
  split.
  - apply Hsame; [apply get_handles_after|].
    rewrite get_run. destruct (forallb textual changes); [|now left].
    destruct (get_connection_no_leak b w Hcreate Hblocked) as [[e ->] | ->]; [now left|].
    right. rewrite Hclose.
    destruct (bindable provider model);
      [destruct (select_fault b);
       [|destruct (stored w _); [destruct (Json.loads _ _)|]]|];
      apply lookup_delete_eq.
  - apply Hsame; [apply put_handles_after|].
    rewrite put_run. destruct (forallb textual changes); [|now left].
    destruct (get_connection_no_leak b w Hcreate Hblocked) as [[e ->] | ->]; [now left|].
    right. rewrite Hclose. apply lookup_delete_eq.
Qed.

Lemma connection_closed_on_return_witness :
  let b := Behaviour None None None (Some SqliteError) None (Some SqliteError) None
                     Json.default_limits in
  let w := World ∅ ∅ {[ 0%nat := (lit "other.db", None) ]} 1 [] in
  connections (snd (get_cached_review_for_changes b (lit "openai") (lit "gpt-4")
                      [change "a.py" "a.py" (lit "+x")] w))
  = {[ 0%nat := (lit "other.db", None) ]}
  /\ connections (snd (put_cached_review_for_changes b (lit "openai") (lit "gpt-4")
                         [change "a.py" "a.py" (lit "+x")] (PStr (lit "LGTM")) w))
     = {[ 0%nat := (lit "other.db", None) ]}.
Proof.
  exact (connection_closed_on_return
           (Behaviour None None None (Some SqliteError) None (Some SqliteError) None
                      Json.default_limits)
           (lit "openai") (lit "gpt-4") [change "a.py" "a.py" (lit "+x")]
           (PStr (lit "LGTM"))
           (World ∅ ∅ {[ 0%nat := (lit "other.db", None) ]} 1 [])
           eq_refl eq_refl eq_refl eq_refl).
Defined.

(** X8: handles are not handed out twice.  Each call opens at most one
    connection, and when no handle from the next one on is in use before a
    read or a write, none is after it, under every behaviour of the storage
    layer. *)
Theorem fresh_handles_kept (b : behaviour) (provider model : pystr)
    (changes : list GitDiffChange) (result : pyval) (w : world) :
  fresh_handles w ->
  let w1 := snd (get_cached_review_for_changes b provider model changes w) in
  let w2 := snd (put_cached_review_for_changes b provider model changes result w) in
  fresh_handles w1 /\ fresh_handles w2
  /\ (opened w <= opened w1 <= S (opened w))%nat
  /\ (opened w <= opened w2 <= S (opened w))%nat.
Proof.
  intros Hw. cbv zeta.
  pose proof (get_handles_after b provider model changes w) as Hg.
  pose proof (put_handles_after b provider model changes result w) as Hp.
  split; [exact (handles_after_fresh _ _ Hg Hw)|].
  split; [exact (handles_after_fresh _ _ Hp Hw)|].
  split; [exact (handles_after_count _ _ Hg) | exact (handles_after_count _ _ Hp)].
Qed.

Lemma fresh_handles_kept_witness :
  let w := World ∅ ∅ ∅ 0 [] in
  let b := Behaviour None None (Some SqliteError) None None None None
                     Json.default_limits in
  let w1 := snd (get_cached_review_for_changes b (lit "openai") (lit "gpt-4")
                   [change "a.py" "a.py" (lit "+x")] w) in
  let w2 := snd (put_cached_review_for_changes b (lit "openai") (lit "gpt-4")
                   [change "a.py" "a.py" (lit "+x")] (PStr (lit "LGTM")) w) in
  fresh_handles w1 /\ fresh_handles w2
  /\ (opened w <= opened w1 <= S (opened w))%nat
  /\ (opened w <= opened w2 <= S (opened w))%nat.
Proof.
  exact (fresh_handles_kept
           (Behaviour None None (Some SqliteError) None None None None
                      Json.default_limits)
           (lit "openai") (lit "gpt-4") [change "a.py" "a.py" (lit "+x")]
           (PStr (lit "LGTM")) (World ∅ ∅ ∅ 0 [])
           (fun h _ => lookup_empty h)).
Defined.

Lemma closing_tables (b : behaviour) (conn : nat) (w2 : world) :
  tables (match close_fault b with Some _ => w2 | None => closed conn w2 end) = tables w2.
Proof. now destruct (close_fault b). Qed.

Lemma closing_log (b : behaviour) (conn : nat) (w2 : world) :
  log (match close_fault b with Some _ => w2 | None => closed conn w2 end) = log w2.
Proof. now destruct (close_fault b). Qed.

Lemma get_tables (b : behaviour) (provider model : pystr) (changes : list GitDiffChange)
    (w : world) :
  tables (snd (get_cached_review_for_changes b provider model changes w))
  = match forallb textual changes, setup_fault b w with
    | true, None =>
      tables (with_table (opened w) (configured_path w) (connected (configured_path w) w))
    | _, _ => tables w
    end.
Proof.
  rewrite get_run. destruct (forallb textual changes); [|reflexivity].
  destruct (_get_connection b w) as [[conn|e0] w1] eqn:Hc.
  - apply get_connection_ok in Hc as (-> & -> & ->).
    destruct (bindable provider model);
      [destruct (select_fault b);
       [|destruct (stored w _); [destruct (Json.loads _ _)|]]|];
      cbn [snd]; now rewrite closing_tables.
  - apply get_connection_raise in Hc as (-> & Ht & _). exact Ht.
Qed.


(** X10: a read whose fingerprint is computed logs its one message, once,
    exactly when it contains a failure: a step of the read raised (the
    directory, the connection, the table, the binding of the key or the
    query), or [json.loads] raised on the text of the row (which is not
    JSON, or is beyond what the interpreter lets it read).  A hit and a miss
    log nothing, a failure of [close] is silent, and so is a read that
    raises on a diff set that is not text. *)
Theorem get_logs_failures (b : behaviour) (provider model : pystr)
    (changes : list GitDiffChange) (w : world) :
  log (snd (get_cached_review_for_changes b provider model changes w))
  = log w
    ++ if forallb textual changes then
         match read_fault b w provider model with
         | Some _ => [read_failed]
         | None =>
           match stored w (provider, model, fingerprint changes) with
           | None => []
           | Some payload =>
             match Json.loads (interpreter b) payload with
             | Ret _ => []
             | Raise _ => [read_failed]
             end
           end
         end
       else [].
Proof.
  rewrite get_run. destruct (forallb textual changes); [|now rewrite app_nil_r].
  unfold read_fault.
  destruct (_get_connection b w) as [[conn|e0] w1] eqn:Hc.
  - apply get_connection_ok in Hc as (-> & -> & ->).
    destruct (bindable provider model);
      [destruct (select_fault b);
       [|destruct (stored w _); [destruct (Json.loads _ _)|]]|];
      cbn [snd]; rewrite closing_log; cbn [logged log]; rewrite ?with_table_log;
      cbn [connected log]; rewrite ?app_nil_r; reflexivity.
  - apply get_connection_raise in Hc as (-> & _ & [-> | ->]); reflexivity.
Qed.

(** X11: a write whose fingerprint is computed logs its one message, once,
    exactly when a step up to the commit failed (the directory, the
    connection, the table, the serialization of the result, the binding of
    the key, the insertion, which a lock held by another connection
    prevents, or the commit); a failure of [close] is silent, and so is a
    write that raises on a diff set that is not text. *)
Theorem put_logs_failures (b : behaviour) (provider model : pystr)
    (changes : list GitDiffChange) (result : pyval) (w : world) :
  log (snd (put_cached_review_for_changes b provider model changes result w))
  = log w
    ++ if forallb textual changes then
         match write_fault b w provider model result with
         | Some _ => [write_failed]
         | None => []
         end
       else [].
Proof.
  rewrite put_run. destruct (forallb textual changes); [|now rewrite app_nil_r].
  unfold write_fault.
  destruct (_get_connection b w) as [[conn|e0] w1] eqn:Hc.
  - apply get_connection_ok in Hc as (-> & -> & ->). cbv zeta. cbn [snd].
    rewrite closing_log.
    destruct (Json.dumps (interpreter b) result) as [payload|e1];
      [destruct (bindable provider model);
       [destruct (insert_fault b);
        [|destruct (locked w); [|destruct (commit_fault b); [|destruct (volatile w)]]]|]|];
      cbn [logged in_transaction committed log]; rewrite ?with_table_log;
      cbn [connected log]; rewrite ?app_nil_r; reflexivity.
  - apply get_connection_raise in Hc as (-> & _ & [-> | ->]); reflexivity.
Qed.

End CallFacts.
(** ** Writes and the reads that follow *)

Section CacheFacts.

Lemma upsert_idempotent (k : key) (json : pystr) (rows : list row) :
  upsert k json (upsert k json rows) = upsert k json rows.
Proof.
  induction rows as [|r rows IH]; cbn [upsert].
  - cbn [row_key fst]. now rewrite bool_decide_eq_true_2.
  - destruct (bool_decide (row_key r = k)) eqn:Hr; cbn [upsert].
    + cbn [row_key fst]. now rewrite bool_decide_eq_true_2.
    + now rewrite Hr, IH.
Qed.

Lemma find_upsert_other (k k' : key) (json : pystr) (rows : list row) :
  k' <> k -> List.find (has_key k') (upsert k json rows) = List.find (has_key k') rows.
Proof.
  intros Hne. induction rows as [|r rows IH]; cbn [upsert List.find].
  - unfold has_key. cbn [row_key fst]. now rewrite bool_decide_eq_false_2 by congruence.
  - destruct (bool_decide (row_key r = k)) eqn:Hr; cbn [List.find].
    + apply bool_decide_eq_true_1 in Hr. unfold has_key at 1 3.
      rewrite (bool_decide_eq_false_2 (row_key (k, json) = k')) by (cbn; congruence).
      rewrite (bool_decide_eq_false_2 (row_key r = k')) by congruence. reflexivity.
    + now rewrite IH.
Qed.

Lemma upsert_rows (k : key) (json : pystr) (rows : list row) (r : row) :
  In r (upsert k json rows) -> r = (k, json) \/ In r rows.
Proof.
  induction rows as [|x rows IH]; cbn [upsert In].
  - intros [<-|[]]. now left.
  - destruct (bool_decide (row_key x = k)); cbn [In].
    + intros [<-|Hin]; [now left | right; now right].
    + intros [<-|Hin]; [right; now left|].
      destruct (IH Hin) as [->|Hr]; [now left | right; now right].
Qed.

(** What is stored under a key after a write: the text of the result under
    the key of the write when the write left one in the file, and what was
    there in every other case. *)
Lemma stored_after_put (b : behaviour) (provider model : pystr)
    (changes : list GitDiffChange) (result : pyval) (w : world) (k : key) :
  stored (snd (put_cached_review_for_changes b provider model changes result w)) k
  = match written b w provider model changes result with
    | Some payload =>
      if decide (k = (provider, model, fingerprint changes))
      then Some payload
      else stored w k
    | None => stored w k
    end.
Proof.
  unfold stored.
  rewrite (volatile_environ w _ (put_environ b provider model changes result w)).
  rewrite (configured_path_environ w _ (put_environ b provider model changes result w)).
  rewrite put_entries.
  destruct (written b w provider model changes result) as [payload|] eqn:Hw;
    [|reflexivity].
  destruct (written_file _ _ _ _ _ _ _ Hw) as (_ & -> & _ & _).
  destruct (decide (configured_path w = configured_path w)) as [_|Hne]; [|contradiction].
  destruct (decide (k = (provider, model, fingerprint changes))) as [->|Hk].
  - now rewrite find_upsert.
  - now rewrite find_upsert_other.
Qed.

(** Where a text is stored, the table is there, and making sure of it meets
    no lock. *)
Lemma stored_present (w : world) (k : key) (payload : pystr) :
  stored w k = Some payload -> create_blocked w = false.
Proof.
  unfold stored, create_blocked, entries. destruct (volatile w); [discriminate|].
  destruct (tables w !! configured_path w); [|discriminate].
  intros _. now rewrite bool_decide_eq_false_2.
Qed.

Lemma read_fault_present (b : behaviour) (w w' : world) (provider model : pystr) :
  environ w' = environ w -> create_blocked w = false -> create_blocked w' = false ->
  read_fault b w' provider model = read_fault b w provider model.
Proof.
  intros E Hw Hw'. unfold read_fault, setup_fault.
  now rewrite (configured_path_environ w w' E), Hw, Hw'.
Qed.

(** What a read returns depends on the world through the environment and the
    text stored under the key, and through nothing else. *)
Lemma get_answer (b : behaviour) (provider model : pystr) (changes : list GitDiffChange)
    (w w' : world) :
  environ w' = environ w ->
  stored w' (provider, model, fingerprint changes)
  = stored w (provider, model, fingerprint changes) ->
  fst (get_cached_review_for_changes b provider model changes w')
  = fst (get_cached_review_for_changes b provider model changes w).
Proof.
  intros E Hs. rewrite !get_result. destruct (forallb textual changes); [|reflexivity].
  f_equal. rewrite Hs.
  destruct (stored w (provider, model, fingerprint changes)) as [payload|] eqn:Hw.
  - rewrite (read_fault_present b w w' provider model E (stored_present _ _ _ Hw)
               (stored_present _ _ _ Hs)).
    reflexivity.
  - now destruct (read_fault b w' provider model), (read_fault b w provider model).
Qed.

(** X12: a write that went through can be repeated without effect: the
    same result put again under the same key leaves the rows of every
    database file as the first write left them, whether or not the second
    write goes through. *)
Theorem put_again_changes_nothing (b1 b2 : behaviour) (provider model : pystr)
    (changes : list GitDiffChange) (result : pyval) (w : world) (path : pystr) :
  write_fault b1 w provider model result = None ->
  entries (snd (put_cached_review_for_changes b2 provider model changes result
                  (snd (put_cached_review_for_changes b1 provider model changes result w))))
          path
  = entries (snd (put_cached_review_for_changes b1 provider model changes result w)) path.
Proof.
  intros Hf.
  pose proof (put_environ b1 provider model changes result w) as Henv.
  pose proof (put_entries b1 provider model changes result w) as Hrows.
  revert Henv Hrows.
  generalize (snd (put_cached_review_for_changes b1 provider model changes result w)).
  intros w1 Henv Hrows. rewrite put_entries.
  destruct (written b2 w1 provider model changes result) as [payload2|] eqn:Hw2;
    [|reflexivity].
  destruct (written_file _ _ _ _ _ _ _ Hw2) as (Ht & Hv & _ & Hd2).
  rewrite (volatile_environ w w1 Henv) in Hv.
  destruct (written_text b1 w provider model changes result Ht Hv Hf)
    as (payload1 & Hd1 & Hw1).
  rewrite (dumps_same _ _ _ _ _ Hd2 Hd1).
  rewrite (configured_path_environ w w1 Henv).
  destruct (decide (path = configured_path w)) as [->|Hne]; [|reflexivity].
  rewrite Hrows, Hw1.
  destruct (decide (configured_path w = configured_path w)) as [_|Hne]; [|contradiction].
  apply upsert_idempotent.
Qed.

Lemma put_again_changes_nothing_witness :
  let put b := put_cached_review_for_changes b (lit "openai") (lit "gpt-4")
                 [change "a.py" "a.py" (lit "+x")] (PStr (lit "LGTM")) in
  entries (snd (put close_fails (snd (put no_fault odd_world)))) _DEFAULT_DB_PATH
  = entries (snd (put no_fault odd_world)) _DEFAULT_DB_PATH.
Proof.
  exact (put_again_changes_nothing no_fault close_fails (lit "openai") (lit "gpt-4")
           [change "a.py" "a.py" (lit "+x")] (PStr (lit "LGTM")) odd_world
           _DEFAULT_DB_PATH eq_refl).
Defined.

(** X13: a write under one key is not seen by a read of another: when the
    provider, the model or the fingerprint differ, the read returns what it
    would have returned without the write, whatever the storage layer does
    during either call. *)
Theorem put_unseen_under_other_key (b b' : behaviour) (provider model : pystr)
    (changes : list GitDiffChange) (result : pyval)
    (provider' model' : pystr) (changes' : list GitDiffChange) (w : world) :
  (provider', model', fingerprint changes')
  <> (provider, model, fingerprint changes) ->
  fst (get_cached_review_for_changes b' provider' model' changes'
         (snd (put_cached_review_for_changes b provider model changes result w)))
  = fst (get_cached_review_for_changes b' provider' model' changes' w).
Proof.
  intros Hne. apply get_answer; [apply put_environ|].
  rewrite stored_after_put.
  destruct (written b w provider model changes result); [|reflexivity].
  now rewrite decide_False.
Qed.

Lemma put_unseen_under_other_key_witness :
  fst (get_cached_review_for_changes no_fault (lit "openai") (lit "gpt-4")
         [change "a.py" "a.py" (lit "+x")]
         (snd (put_cached_review_for_changes no_fault (lit "gemini") (lit "gpt-4")
                 [change "a.py" "a.py" (lit "+x")] (PStr (lit "LGTM")) odd_world)))
  = fst (get_cached_review_for_changes no_fault (lit "openai") (lit "gpt-4")
           [change "a.py" "a.py" (lit "+x")] odd_world).
Proof.
  apply (put_unseen_under_other_key no_fault no_fault (lit "gemini") (lit "gpt-4")
           [change "a.py" "a.py" (lit "+x")] (PStr (lit "LGTM"))
           (lit "openai") (lit "gpt-4") [change "a.py" "a.py" (lit "+x")] odd_world).
  intros E. apply (f_equal (fun k : key => fst (fst k))) in E. discriminate E.
Defined.





End CacheFacts.
(** ** What the table holds *)

Section TableFacts.

Lemma build_diff_hash_shaped (changes : list GitDiffChange) :
  forallb textual changes = true -> fingerprint_shaped (fingerprint changes) = true.
Proof.
  intros Ht. destruct (fingerprint_shape changes Ht) as (Hlen & Hhex & _).
  unfold fingerprint_shaped. rewrite Hlen. cbn [Nat.eqb andb].
  apply forallb_forall. now apply Forall_forall.
Qed.



(** X17: the rows of every world the module can bring about are rows it
    wrote: the fingerprint column of each is 64 characters, each a digit or
    one of a..f in lower case, and its text is one [json.dumps] gave for
    some value, in printable ASCII. *)
Theorem reachable_rows_written_by_put (w : world) (path : pystr) (r : row) :
  reachable w -> In r (entries w path) ->
  fingerprint_shaped (row_hash r) = true
  /\ forallb printable (row_json r) = true
  /\ exists l v, Json.dumps l v = Ret (row_json r).
Proof.
  intros Hw. revert path r.
  induction Hw as [w Hw|b provider model changes w _ IH
                  |b provider model changes result w _ IH]; intros path r.
  - unfold entries. rewrite Hw, lookup_empty. intros [].
  - rewrite get_entries. apply IH.
  - rewrite put_entries.
    destruct (written b w provider model changes result) as [payload|] eqn:Hwr;
      [|apply IH].
    destruct (written_file _ _ _ _ _ _ _ Hwr) as (Ht & _ & _ & Hd).
    destruct (decide (path = configured_path w)) as [->|Hne]; [|apply IH].
    intros Hin. apply upsert_rows in Hin as [->|Hin]; [|exact (IH _ _ Hin)].
    split; [now apply build_diff_hash_shaped|]. split.
    + exact (dumps_printable _ result payload Hd).
    + now exists (interpreter b), result.
Qed.

Lemma reachable_rows_written_by_put_witness :
  fingerprint_shaped (row_hash (odd_key, lit "42")) = true
  /\ forallb printable (row_json (odd_key, lit "42")) = true
  /\ exists l v, Json.dumps l v = Ret (row_json (odd_key, lit "42")).
Proof.
  apply (reachable_rows_written_by_put
           (snd (put_cached_review_for_changes no_fault (lit "openai") (lit "gpt-4")
                   [change "a.py" "a.py" (lit "+x")] (PInt 42) (World ∅ ∅ ∅ 0 [])))
           _DEFAULT_DB_PATH (odd_key, lit "42")).
  - apply reachable_put, reachable_start. reflexivity.
  - vm_compute. left. reflexivity.
Defined.

(** X19: a read, and a write that failed before its commit, change no
    answer: a read that follows returns what it would have returned without
    them, for every key and whatever the storage layer does. *)
Theorem answers_unchanged (b b' : behaviour) (provider model : pystr)
    (changes : list GitDiffChange) (result : pyval)
    (provider' model' : pystr) (changes' : list GitDiffChange) (w : world) :
  fst (get_cached_review_for_changes b' provider' model' changes'
         (snd (get_cached_review_for_changes b provider model changes w)))
  = fst (get_cached_review_for_changes b' provider' model' changes' w)
  /\ (write_fault b w provider model result <> None ->
      fst (get_cached_review_for_changes b' provider' model' changes'
             (snd (put_cached_review_for_changes b provider model changes result w)))
      = fst (get_cached_review_for_changes b' provider' model' changes' w)).
Proof.
  split.
  - pose proof (get_environ b provider model changes w) as Henv.
    apply get_answer; [exact Henv|]. unfold stored.
    now rewrite (volatile_environ w _ Henv), (configured_path_environ w _ Henv), get_entries.
  - intros Hf. apply get_answer; [apply put_environ|]. rewrite stored_after_put.
    destruct (write_fault b w provider model result) as [e|] eqn:He; [|contradiction].
    now rewrite (written_fault _ _ _ _ _ _ _ He).
Qed.

Lemma upsert_length (k : key) (json : pystr) (rows : list row) :
  length (upsert k json rows)
  = match List.find (has_key k) rows with
    | Some _ => length rows
    | None => S (length rows)
    end.
Proof.
  induction rows as [|r rows IH]; [reflexivity|].
  cbn [upsert List.find]. fold (has_key k r).
  destruct (has_key k r); [reflexivity|].
  cbn [length]. rewrite IH. now destruct (List.find (has_key k) rows).
Qed.




End TableFacts.

(** ** The text that is hashed *)

Section HashedText.

Lemma canonical_text_textual (changes : list GitDiffChange) :
  is_text (flat_map segment changes) = forallb textual changes.
Proof.
  induction changes as [|c cs IH]; [reflexivity|].
  cbn [flat_map forallb]. now rewrite is_text_app, segment_textual, IH.
Qed.

(** X18: the fingerprint is the SHA-256 of one text: feeding the hasher
    the UTF-8 encoding of each segment in turn gives the digest of the
    encoding of the segments written one after the other, with nothing
    between them, and raises when that text cannot be encoded. *)
Theorem build_diff_hash_of_text (changes : list GitDiffChange) :
  _build_diff_hash changes
  = bind (Utf8.encode (flat_map segment changes))
         (fun bytes => Ret (Sha256.hexdigest (Sha256.update Sha256.new bytes))).
Proof.
  rewrite build_diff_hash_canonical, canonical_bytes_text. unfold Utf8.encode.
  fold (is_text (flat_map segment changes)). rewrite canonical_text_textual.
  now destruct (forallb textual changes).
Qed.

End HashedText.

(** ** Where the cache gives nothing *)

Section Configuration.

Lemma put_tables_memory (b : behaviour) (provider model : pystr)
    (changes : list GitDiffChange) (result : pyval) (w : world) :
  volatile w = true ->
  tables (snd (put_cached_review_for_changes b provider model changes result w)) = tables w.
Proof.
  intros Hv. rewrite put_run. destruct (forallb textual changes); [|reflexivity].
  destruct (_get_connection b w) as [[conn|e0] w1] eqn:Hc.
  - apply get_connection_ok in Hc as (_ & -> & ->). cbv zeta. cbn [snd].
    rewrite closing_tables, Hv.
    assert (tables (with_table (opened w) (configured_path w)
                      (connected (configured_path w) w)) = tables w) as Ht.
    { rewrite with_table_tables. unfold volatile in Hv. now rewrite Hv. }
    destruct (Json.dumps (interpreter b) result) as [payload|e1];
      [destruct (bindable provider model);
       [destruct (insert_fault b);
        [|destruct (locked w); [|destruct (commit_fault b)]]|]|];
      exact Ht.
  - now apply get_connection_raise in Hc as (_ & Ht & _).
Qed.

(** X22: a cache configured to be kept in memory keeps nothing: when
    [REVIEW_CACHE_DB_PATH] is [:memory:], every read of a diff set of text
    returns [None], whatever was put before, and neither a read nor a write
    creates or changes a table of any file. *)
Theorem memory_cache_keeps_nothing (b : behaviour) (provider model : pystr)
    (changes : list GitDiffChange) (result : pyval) (w : world) :
  volatile w = true ->
  (forallb textual changes = true ->
   fst (get_cached_review_for_changes b provider model changes w) = Ret PNone)
  /\ tables (snd (get_cached_review_for_changes b provider model changes w)) = tables w
  /\ tables (snd (put_cached_review_for_changes b provider model changes result w))
     = tables w.
Proof.
  intros Hv. split; [|split].
  - intros Ht. rewrite get_result, Ht. unfold stored. rewrite Hv.
    now destruct (read_fault b w provider model).
  - rewrite get_tables, with_table_tables. unfold volatile in Hv. rewrite Hv.
    now destruct (forallb textual changes), (setup_fault b w).
  - now apply put_tables_memory.
Qed.

Lemma memory_cache_keeps_nothing_witness :
  fst (get_cached_review_for_changes no_fault (lit "openai") (lit "gpt-4")
         [change "a.py" "a.py" (lit "+x")] memory_world)
  = Ret PNone
  /\ tables (snd (get_cached_review_for_changes no_fault (lit "openai") (lit "gpt-4")
                    [change "a.py" "a.py" (lit "+x")] memory_world))
     = tables memory_world
  /\ tables (snd (put_cached_review_for_changes no_fault (lit "openai") (lit "gpt-4")
                    [change "a.py" "a.py" (lit "+x")] (result_dict sample_result)
                    memory_world))
     = tables memory_world.
Proof.
  destruct (memory_cache_keeps_nothing no_fault (lit "openai") (lit "gpt-4")
              [change "a.py" "a.py" (lit "+x")] (result_dict sample_result) memory_world
              eq_refl) as (Hget & Hread & Hwrite).
  split; [exact (Hget eq_refl)|]. split; [exact Hread | exact Hwrite].
Defined.



(** X24: on a diff set with a string that is not text, a read and a write
    raise [UnicodeEncodeError] to the caller and do nothing else: the
    fingerprint is computed before the [try] block, so that no connection is
    opened, nothing is logged and nothing is stored, whatever the storage
    layer would do. *)
Theorem calls_raise_without_text (b : behaviour) (provider model : pystr)
    (changes : list GitDiffChange) (result : pyval) (w : world) :
  forallb textual changes = false ->
  get_cached_review_for_changes b provider model changes w = (Raise UnicodeEncodeError, w)
  /\ put_cached_review_for_changes b provider model changes result w
     = (Raise UnicodeEncodeError, w).
Proof. intros Ht. now rewrite get_run, put_run, Ht. Qed.

Lemma calls_raise_without_text_witness :
  get_cached_review_for_changes close_fails (lit "openai") (lit "gpt-4")
    [change "a.py" "a.py" (lit "+x"); unpaired] odd_world
  = (Raise UnicodeEncodeError, odd_world)
  /\ put_cached_review_for_changes close_fails (lit "openai") (lit "gpt-4")
       [change "a.py" "a.py" (lit "+x"); unpaired] (result_dict sample_result) odd_world
     = (Raise UnicodeEncodeError, odd_world).
Proof.
  exact (calls_raise_without_text close_fails (lit "openai") (lit "gpt-4")
           [change "a.py" "a.py" (lit "+x"); unpaired] (result_dict sample_result)
           odd_world eq_refl).
Defined.

End Configuration.
